(** * Turtle's Adventure: a shallow embedding of [turtle_adventure.py]

    The simulation core of the game (Home, Waypoint, Player, the enemy
    variants, the enemy generator and the win/lose handlers) is embedded
    as pure functions over explicit state.

    Conventions of the embedding:
    - Python [float] values are idealised as real numbers ([R]); the
      comparisons of the source become decidable tests on [R]. The range
      of the floats is modelled where the arithmetic of the source leaves
      it as the level grows: the power [1.01**level] of the laser speed
      raises [OverflowError] above the largest float.
    - Python [int] values are [Z]; [int(x)] truncates towards zero.
    - [time.time()] is an argument [now] of every function that reads the
      clock.
    - [random] is a stream of raw draws with a cursor; [random.choice]
      fails (as Python's [IndexError]) on an empty sequence.
    - The Tk canvas is the log of the calls made on it. *)

From Stdlib Require Import Reals Lra Lia ZArith List String Bool Zfloor.
From Stdlib Require Import DecimalString.
Import ListNotations.

#[local] Open Scope R_scope.

(** ** Python primitives *)

Module Py.

(** [a <= b] and [a < b] on floats, as booleans. *)
Definition leb (a b : R) : bool := if Rle_dec a b then true else false.
Definition ltb (a b : R) : bool := if Rlt_dec a b then true else false.
Definition geb (a b : R) : bool := leb b a.
Definition gtb (a b : R) : bool := ltb b a.

(** [int(x)] on a float: truncation towards zero. *)
Definition int (x : R) : Z := if Rle_dec 0 x then Zfloor x else Zceil x.

(** [list(range(a, b))]. *)
Definition range (a b : Z) : list Z :=
  map (fun i => (a + Z.of_nat i)%Z) (seq 0 (Z.to_nat (b - a))).

(** [item in l] for integers. *)
Definition mem (item : Z) (l : list Z) : bool := existsb (Z.eqb item) l.

(** [math.fabs]. *)
Definition fabs (x : R) : R := Rabs x.

(** [math.atan2(y, x)], the angle of the vector (x, y) in (-pi, pi]. *)
Definition atan2 (y x : R) : R :=
  if Rlt_dec 0 x then atan (y / x)
  else if Rlt_dec x 0 then
    (if Rle_dec 0 y then atan (y / x) + PI else atan (y / x) - PI)
  else if Rlt_dec 0 y then PI / 2
  else if Rlt_dec y 0 then - (PI / 2)
  else 0.

(** [math.log(x)]: raises [ValueError] outside the positive reals. *)
Definition log (x : R) : option R :=
  if Rlt_dec 0 x then Some (ln x) else None.

(** [math.log(x, base)] is [log(x) / log(base)]; a base of 1 divides by
    zero. *)
Definition log_base (x base : R) : option R :=
  match log x, log base with
  | Some n, Some d => if Req_dec_T d 0 then None else Some (n / d)
  | _, _ => None
  end.

(** The range of the floats: the largest finite float,
    [(2 - 2**-52) * 2**1023], and [2**-1075], at or below which a positive
    result rounds to zero. *)
Definition float_max : R := (2 - / 2 ^ 52) * 2 ^ 1023.
Definition float_tiny : R := / 2 ^ 1075.

(** What a float expression comes to where the range matters: a finite
    float, the float [inf], or an exception. *)
Inductive float_result : Type :=
| Finite (v : R)
| Infinite
| OverflowError
| ZeroDivisionError.

End Py.

(** The module-level helper [exclude]. *)
Definition exclude (list_all list_exclude_item : list Z) : list Z :=
  filter (fun item => negb (Py.mem item list_exclude_item)) list_all.

(** ** Randomness *)

(** The generator: an infinite supply of raw draws and the position of the
    next one. *)
Record Rng := mkRng { draws : nat -> nat; cursor : nat }.

Definition next_draw (r : Rng) : nat * Rng :=
  (draws r (cursor r), mkRng (draws r) (S (cursor r))).

(** Computations that draw random numbers and may raise. *)
Definition M (A : Type) : Type := Rng -> option (A * Rng).

Definition ret {A} (a : A) : M A := fun r => Some (a, r).
Definition bind {A B} (m : M A) (k : A -> M B) : M B :=
  fun r => match m r with
           | Some (a, r') => k a r'
           | None => None
           end.
Definition lift {A} (o : option A) : M A :=
  fun r => match o with Some a => Some (a, r) | None => None end.

Declare Scope py_scope.
Delimit Scope py_scope with py.
Notation "x <- m ;; k" := (bind m (fun x => k))
  (at level 61, m at next level, right associativity) : py_scope.

(** [random.choice(seq)]: the element at a uniformly drawn index below
    [len(seq)]; [IndexError] when [seq] is empty. *)
Definition choice {A} (l : list A) : M A :=
  fun r => let (d, r') := next_draw r in
           match nth_error l (d mod List.length l) with
           | Some a => Some (a, r')
           | None => None
           end.

(** ** The canvas *)

Inductive canvas_call : Type :=
| create_oval (fill : string)
| create_line (x0 y0 x1 y1 : R) (fill : string)
| create_text (x y : R) (text : string) (size : Z) (fill : string)
| itemconfigure_fill (id : option nat) (fill : string)
| itemconfigure_text (id : nat) (text : string)
| canvas_delete (id : option nat).

Record Canvas := mkCanvas {
  winfo_width : Z;
  winfo_height : Z;
  next_id : nat;
  calls : list canvas_call
}.

Definition call (c : Canvas) (k : canvas_call) : Canvas :=
  mkCanvas (winfo_width c) (winfo_height c) (next_id c) (calls c ++ [k]).

(** A [create_*] call returns the identifier of the new item. *)
Definition create (c : Canvas) (k : canvas_call) : nat * Canvas :=
  (next_id c,
   mkCanvas (winfo_width c) (winfo_height c) (S (next_id c)) (calls c ++ [k])).

(** ** Static elements and the player *)

Record Waypoint := mkWaypoint { wp_x : R; wp_y : R; is_active : bool }.

Definition activate (w : Waypoint) (x y : R) : Waypoint := mkWaypoint x y true.
Definition deactivate (w : Waypoint) : Waypoint :=
  mkWaypoint (wp_x w) (wp_y w) false.

Record Home := mkHome { home_x : R; home_y : R; home_size : R }.

(** [Home.contains]. *)
Definition contains (h : Home) (x y : R) : bool :=
  let x1 := home_x h - home_size h / 2 in
  let x2 := home_x h + home_size h / 2 in
  let y1 := home_y h - home_size h / 2 in
  let y2 := home_y h + home_size h / 2 in
  (Py.leb x1 x && Py.leb x x2) && (Py.leb y1 y && Py.leb y y2).

(** The part of [turtle.RawTurtle] the player uses, by its documented
    geometry; the heading is kept in radians. *)
Module RawTurtle.

Record t := mk { xcor : R; ycor : R; heading : R }.

Definition towards (tu : t) (x y : R) : R :=
  Py.atan2 (y - ycor tu) (x - xcor tu).

Definition setheading (tu : t) (to_angle : R) : t :=
  mk (xcor tu) (ycor tu) to_angle.

Definition forward (tu : t) (distance : R) : t :=
  mk (xcor tu + distance * cos (heading tu))
     (ycor tu + distance * sin (heading tu))
     (heading tu).

Definition distance (tu : t) (x y : R) : R :=
  sqrt ((x - xcor tu)² + (y - ycor tu)²).

End RawTurtle.

Record Player := mkPlayer { turtle : RawTurtle.t; speed : R }.

Definition player_x (p : Player) : R := RawTurtle.xcor (turtle p).
Definition player_y (p : Player) : R := RawTurtle.ycor (turtle p).

(** ** The game session *)

Record Game := mkGame {
  screen_width : Z;
  screen_height : Z;
  waypoint : Waypoint;
  home : Home;
  player : Player;
  canvas : Canvas;
  level_text : nat;
  is_started : bool
}.

Definition set_waypoint (g : Game) (w : Waypoint) : Game :=
  mkGame (screen_width g) (screen_height g) w (home g) (player g)
         (canvas g) (level_text g) (is_started g).

Definition set_player (g : Game) (p : Player) : Game :=
  mkGame (screen_width g) (screen_height g) (waypoint g) (home g) p
         (canvas g) (level_text g) (is_started g).

Definition set_canvas (g : Game) (c : Canvas) : Game :=
  mkGame (screen_width g) (screen_height g) (waypoint g) (home g) (player g)
         c (level_text g) (is_started g).

(** Modelled from the spec: [Game.stop] of [gamelib], which is not part of
    the sources; it ends the running state, so that no further tick or
    round is scheduled. *)
Definition stop (g : Game) : Game :=
  mkGame (screen_width g) (screen_height g) (waypoint g) (home g) (player g)
         (canvas g) (level_text g) false.

Definition banner (g : Game) (text fill : string) : canvas_call :=
  create_text (IZR (screen_width g) / 2) (IZR (screen_height g) / 2)
              text 36 fill.

(** [TurtleAdventureGame.game_over_win]. *)
Definition game_over_win (g : Game) : Game :=
  let g := stop g in
  set_canvas g (snd (create (canvas g) (banner g "You Win" "green"))).

(** [TurtleAdventureGame.game_over_lose]. *)
Definition game_over_lose (g : Game) : Game :=
  let g := stop g in
  set_canvas g (snd (create (canvas g) (banner g "You Lose" "red"))).

(** [Player.update]. *)
Definition player_update (g : Game) : Game :=
  let g :=
    if contains (home g) (player_x (player g)) (player_y (player g))
    then game_over_win g else g in
  let tu := turtle (player g) in
  let wp := waypoint g in
  if is_active wp then
    let tu := RawTurtle.setheading tu (RawTurtle.towards tu (wp_x wp) (wp_y wp)) in
    let tu := RawTurtle.forward tu (speed (player g)) in
    let g := set_player g (mkPlayer tu (speed (player g))) in
    if Py.ltb (RawTurtle.distance tu (wp_x wp) (wp_y wp)) (speed (player g))
    then set_waypoint g (deactivate wp)
    else g
  else g.


(** ** Enemies *)

(** Movement selectors: the source stores a bound method in a field; here
    the field holds the name of the method. *)
Inductive Movement : Type := Up | Down | Left | Right.

Module Enemy.

(** The state shared by every enemy: the position of the game element,
    the fields of [Enemy.__init__] and the canvas item of the variant. *)
Record t := mk {
  x : R;
  y : R;
  size : R;
  color : string;
  start_time : R;
  id : option nat
}.

(** [Enemy.__init__]; [x0], [y0] is the position a fresh game element
    has, which [gamelib] decides. *)
Definition init (x0 y0 : R) (now : R) (size : R) (color : string) : t :=
  mk x0 y0 size color now None.

Definition set_x (e : t) (v : R) : t :=
  mk v (y e) (size e) (color e) (start_time e) (id e).
Definition set_y (e : t) (v : R) : t :=
  mk (x e) v (size e) (color e) (start_time e) (id e).
Definition set_id (e : t) (i : nat) : t :=
  mk (x e) (y e) (size e) (color e) (start_time e) (Some i).

(** [Enemy.hits_player]. *)
Definition hits_player (g : Game) (e : t) : bool :=
  (Py.ltb (x e - size e / 2) (player_x (player g))
   && Py.ltb (player_x (player g)) (x e + size e / 2))
  &&
  (Py.ltb (y e - size e / 2) (player_y (player g))
   && Py.ltb (player_y (player g)) (y e + size e / 2)).

(** The spawn coordinates shared by the Stalk, RandomWalk and Straight
    variants: a random integer below [bound], outside the window of 20
    around the player's coordinate [p]. *)
Definition spawn_coordinate (bound : Z) (p : R) : M Z :=
  choice (exclude (Py.range 0 bound)
                  (Py.range (Py.int (p - 20)) (Py.int (p + 20)))).

End Enemy.

Module DemoEnemy.

Definition t := Enemy.t.

Definition create (g : Game) (e : t) : Game * t :=
  let (i, c) := create (canvas g) (create_oval (Enemy.color e)) in
  (set_canvas g c, Enemy.set_id e i).

Definition update (g : Game) (e : t) : Game * t :=
  let e := Enemy.set_x e (Enemy.x e + 1) in
  let e := Enemy.set_y e (Enemy.y e + 1) in
  let g := if Enemy.hits_player g e then game_over_lose g else g in
  (g, e).

Definition delete (g : Game) (e : t) : Game * t := (g, e).

End DemoEnemy.

Module StalkEnemy.

Record t := mk { base : Enemy.t; level : Z; speed : R }.

Definition init (x0 y0 now : R) (size : R) (color : string) (level : Z) : t :=
  mk (Enemy.init x0 y0 now size color) level
     ((1 - exp (- IZR level)) * IZR level * 0.02 + 0.5).

Definition set_base (e : t) (b : Enemy.t) : t := mk b (level e) (speed e).

Definition create (g : Game) (e : t) : M (Game * t) :=
  (x <- Enemy.spawn_coordinate (winfo_width (canvas g)) (player_x (player g)) ;;
   y <- Enemy.spawn_coordinate (winfo_height (canvas g)) (player_y (player g)) ;;
   let b := Enemy.set_y (Enemy.set_x (base e) (IZR x)) (IZR y) in
   let (i, c) := create (canvas g) (create_oval (Enemy.color b)) in
   ret (set_canvas g c, set_base e (Enemy.set_id b i)))%py.

(** The expiry threshold [3000*int(log(self.level + 1))]. *)
Definition threshold (e : t) : option Z :=
  match Py.log (IZR (level e + 1)) with
  | Some l => Some (3000 * Py.int l)%Z
  | None => None
  end.

Definition delete (now : R) (g : Game) (e : t) : option (Game * t) :=
  match threshold e with
  | Some th =>
      if Py.geb (now - Enemy.start_time (base e)) (IZR th) then
        let b := Enemy.set_y (Enemy.set_x (base e) (-999)) (-999) in
        Some (set_canvas g (call (canvas g) (canvas_delete (Enemy.id b))),
              set_base e b)
      else Some (g, e)
  | None => None
  end.

Definition update (now : R) (g : Game) (e : t) : option (Game * t) :=
  let b := base e in
  let angle := Py.atan2 (player_y (player g) - Enemy.y b)
                        (player_x (player g) - Enemy.x b) in
  let b := Enemy.set_x b (Enemy.x b + cos angle * 2 * speed e) in
  let b := Enemy.set_y b (Enemy.y b + sin angle * speed e) in
  let g := if Enemy.hits_player g b then game_over_lose g else g in
  delete now g (set_base e b).

End StalkEnemy.

Module FencingEnemy.

Record t := mk {
  base : Enemy.t;
  level : Z;
  speed : R;
  fence : Z;
  movement : Movement
}.

Definition init (x0 y0 now : R) (size : R) (color : string) (level : Z) : M t :=
  (l <- lift (Py.log_base (IZR (level + 1)) 20) ;;
   fence <- choice (Py.range 20 50) ;;
   ret (mk (Enemy.init x0 y0 now size color) level
           (l * IZR level * 0.05 + 0.7) fence Up))%py.

Definition set_base (e : t) (b : Enemy.t) : t :=
  mk b (level e) (speed e) (fence e) (movement e).
Definition set_movement (e : t) (m : Movement) : t :=
  mk (base e) (level e) (speed e) (fence e) m.

Definition create (g : Game) (e : t) : Game * t :=
  let (i, c) := create (canvas g) (create_oval (Enemy.color (base e))) in
  let b := Enemy.set_id (base e) i in
  let b := Enemy.set_x b (home_x (home g) + IZR (fence e)) in
  let b := Enemy.set_y b (home_y (home g) + IZR (fence e)) in
  (set_canvas g c, set_base e b).

Definition up (g : Game) (e : t) : t :=
  let e := set_base e (Enemy.set_y (base e) (Enemy.y (base e) - speed e)) in
  if Py.leb (Enemy.y (base e)) (home_y (home g) - IZR (fence e))
  then set_movement e Left else e.

Definition down (g : Game) (e : t) : t :=
  let e := set_base e (Enemy.set_y (base e) (Enemy.y (base e) + speed e)) in
  if Py.geb (Enemy.y (base e)) (home_y (home g) + IZR (fence e))
  then set_movement e Right else e.

Definition left (g : Game) (e : t) : t :=
  let e := set_base e (Enemy.set_x (base e) (Enemy.x (base e) - speed e)) in
  if Py.leb (Enemy.x (base e)) (home_x (home g) - IZR (fence e))
  then set_movement e Down else e.

Definition right (g : Game) (e : t) : t :=
  let e := set_base e (Enemy.set_x (base e) (Enemy.x (base e) + speed e)) in
  if Py.geb (Enemy.x (base e)) (home_x (home g) + IZR (fence e))
  then set_movement e Up else e.

(** The call [self.movement()]. *)
Definition move (g : Game) (e : t) : t :=
  match movement e with
  | Up => up g e
  | Down => down g e
  | Left => left g e
  | Right => right g e
  end.

Definition delete (now : R) (g : Game) (e : t) : Game * t :=
  if Py.geb (now - Enemy.start_time (base e)) 30 then
    let b := Enemy.set_y (Enemy.set_x (base e) (-999)) (-999) in
    (set_canvas g (call (canvas g) (canvas_delete (Enemy.id b))), set_base e b)
  else (g, e).

Definition update (now : R) (g : Game) (e : t) : Game * t :=
  let e := move g e in
  let g := if Enemy.hits_player g (base e) then game_over_lose g else g in
  delete now g e.

End FencingEnemy.

Module RandomWalkEnemy.

Record t := mk {
  base : Enemy.t;
  speed : R;
  direction : Z;
  x_movement : Movement;
  y_movement : Movement
}.

Definition init (x0 y0 now : R) (size : R) (color : string) (level : Z) : M t :=
  (l <- lift (Py.log_base (IZR level) 50) ;;
   direction <- choice (Py.range 0 360) ;;
   x_movement <- choice [Left; Right] ;;
   y_movement <- choice [Up; Down] ;;
   ret (mk (Enemy.init x0 y0 now size color) (7 * l + 3.7)
           direction x_movement y_movement))%py.

Definition set_base (e : t) (b : Enemy.t) : t :=
  mk b (speed e) (direction e) (x_movement e) (y_movement e).
Definition set_x_movement (e : t) (m : Movement) : t :=
  mk (base e) (speed e) (direction e) m (y_movement e).
Definition set_y_movement (e : t) (m : Movement) : t :=
  mk (base e) (speed e) (direction e) (x_movement e) m.

Definition create (g : Game) (e : t) : M (Game * t) :=
  let (i, c) := create (canvas g) (create_oval (Enemy.color (base e))) in
  (x <- Enemy.spawn_coordinate (winfo_width c) (player_x (player g)) ;;
   y <- Enemy.spawn_coordinate (winfo_height c) (player_y (player g)) ;;
   let b := Enemy.set_y (Enemy.set_x (Enemy.set_id (base e) i) (IZR x)) (IZR y) in
   ret (set_canvas g c, set_base e b))%py.

Definition up (g : Game) (e : t) : t :=
  let b := base e in
  let e := set_base e (Enemy.set_y b
             (Enemy.y b - Py.fabs (sin (IZR (direction e))) * speed e)) in
  if Py.leb (Enemy.y (base e)) 0 then set_y_movement e Down else e.

Definition down (g : Game) (e : t) : t :=
  let b := base e in
  let e := set_base e (Enemy.set_y b
             (Enemy.y b + Py.fabs (sin (IZR (direction e))) * speed e)) in
  if Py.gtb (Enemy.y (base e)) (IZR (screen_height g))
  then set_y_movement e Up else e.

Definition left (g : Game) (e : t) : t :=
  let b := base e in
  let e := set_base e (Enemy.set_x b
             (Enemy.x b - Py.fabs (cos (IZR (direction e))) * speed e)) in
  if Py.leb (Enemy.x (base e)) 0 then set_x_movement e Right else e.

Definition right (g : Game) (e : t) : t :=
  let b := base e in
  let e := set_base e (Enemy.set_x b
             (Enemy.x b + Py.fabs (cos (IZR (direction e))) * speed e)) in
  if Py.gtb (Enemy.x (base e)) (IZR (winfo_width (canvas g)))
  then set_x_movement e Left else e.

(** The calls [self.x_movement()] and [self.y_movement()]. *)
Definition move (m : Movement) (g : Game) (e : t) : t :=
  match m with
  | Up => up g e
  | Down => down g e
  | Left => left g e
  | Right => right g e
  end.

Definition delete (now : R) (g : Game) (e : t) : Game * t :=
  if Py.geb (now - Enemy.start_time (base e)) 5 then
    let b := Enemy.set_y (Enemy.set_x (base e) (-999)) (-999) in
    (set_canvas g (call (canvas g) (canvas_delete (Enemy.id b))), set_base e b)
  else (g, e).

Definition update (now : R) (g : Game) (e : t) : Game * t :=
  let e := move (x_movement e) g e in
  let e := move (y_movement e) g e in
  let g := if Enemy.hits_player g (base e) then game_over_lose g else g in
  delete now g e.

End RandomWalkEnemy.

Module StraightEnemy.

Record t := mk { base : Enemy.t; speed : R; direction : Z }.

Definition init (x0 y0 now : R) (size : R) (color : string)
    (direction : Z) (level : Z) : option t :=
  match Py.log_base (IZR level) 49 with
  | Some l => Some (mk (Enemy.init x0 y0 now size color) (7 * l) direction)
  | None => None
  end.

Definition set_base (e : t) (b : Enemy.t) : t := mk b (speed e) (direction e).

Definition create (g : Game) (e : t) : M (Game * t) :=
  let (i, c) := create (canvas g) (create_oval (Enemy.color (base e))) in
  (x <- Enemy.spawn_coordinate (winfo_width c) (player_x (player g)) ;;
   y <- Enemy.spawn_coordinate (winfo_height c) (player_y (player g)) ;;
   let b := Enemy.set_y (Enemy.set_x (Enemy.set_id (base e) i) (IZR x)) (IZR y) in
   ret (set_canvas g c, set_base e b))%py.

Definition delete (g : Game) (e : t) : Game * t :=
  let b := base e in
  if Py.gtb (Enemy.x b) (IZR (winfo_width (canvas g)))
     || Py.ltb (Enemy.x b) 0
     || Py.gtb (Enemy.y b) (IZR (winfo_height (canvas g)))
     || Py.ltb (Enemy.y b) 0
  then (set_canvas g (call (canvas g) (canvas_delete (Enemy.id b))), e)
  else (g, e).

Definition update (g : Game) (e : t) : Game * t :=
  let b := base e in
  let b := Enemy.set_x b (Enemy.x b + cos (IZR (direction e)) * speed e) in
  let b := Enemy.set_y b (Enemy.y b + sin (IZR (direction e)) * speed e) in
  let g := if Enemy.hits_player g b then game_over_lose g else g in
  delete g (set_base e b).

End StraightEnemy.

(** The speed of a laser, [10*(1/(1.01**level))/11]; the generator computes
    the same expression for the length of a round. The power raises
    [OverflowError] when it exceeds the largest float, and is zero when it
    rounds to zero, so that the division raises; the product with 10 is
    [inf] when it exceeds the largest float, and so is the speed then. *)
Definition laser_speed (level : Z) : Py.float_result :=
  let p := powerRZ 1.01 level in
  if Rlt_dec Py.float_max p then Py.OverflowError
  else if Rle_dec p Py.float_tiny then Py.ZeroDivisionError
  else if Rlt_dec Py.float_max (10 * (1 / p)) then Py.Infinite
  else Py.Finite (10 * (1 / p) / 11).

(** What a constructor whose arithmetic can leave the finite floats comes
    to: the object; an object with a field that holds the float [inf],
    which the records here, over the reals, cannot hold; or an
    exception. *)
Inductive Constructed (A : Type) : Type :=
| Built (a : A)
| BuiltInfinite
| Raised.

Arguments Built {A} a.
Arguments BuiltInfinite {A}.
Arguments Raised {A}.

Inductive LaserState : Type := Inactive | Active.

Module LaserEnemy.

Record t := mk {
  base : Enemy.t;
  level : Z;
  speed : R;
  direction : option R;
  state : LaserState;
  delay : R
}.

Definition init (x0 y0 now : R) (size : R) (color : string)
    (delay : R) (level : Z) : Constructed t :=
  match laser_speed level with
  | Py.Finite speed =>
      Built (mk (Enemy.init x0 y0 now size color) level speed
                None Inactive delay)
  | Py.Infinite => BuiltInfinite
  | Py.OverflowError | Py.ZeroDivisionError => Raised
  end.

Definition set_base (e : t) (b : Enemy.t) : t :=
  mk b (level e) (speed e) (direction e) (state e) (delay e).
Definition set_direction (e : t) (d : R) : t :=
  mk (base e) (level e) (speed e) (Some d) (state e) (delay e).
Definition set_state (e : t) (s : LaserState) : t :=
  mk (base e) (level e) (speed e) (direction e) s (delay e).

Definition create (g : Game) (e : t) : M (Game * t) :=
  let w := winfo_width (canvas g) in
  (x0 <- choice (Py.range (- w) (2 * w)) ;;
   x1 <- choice (Py.range (- w) (2 * w)) ;;
   let y0 := (-1)%Z in
   let y1 := (winfo_height (canvas g) + 1)%Z in
   let (i, c) := create (canvas g)
                   (create_line (IZR x0) (IZR y0) (IZR x1) (IZR y1) "gray") in
   let b := Enemy.set_y (Enemy.set_x (Enemy.set_id (base e) i) (IZR x0)) (IZR y0) in
   ret (set_canvas g c,
        set_direction (set_base e b)
                      (Py.atan2 (IZR (y1 - y0)) (IZR (x1 - x0)))))%py.

(** [hits_line]; the subtraction raises while [direction] is [None]. *)
Definition hits_line (g : Game) (e : t) : option bool :=
  let cur_direction := Py.atan2 (player_y (player g) - Enemy.y (base e))
                                (player_x (player g) - Enemy.x (base e)) in
  match direction e with
  | Some d => Some (Py.leb (Py.fabs (cur_direction - d)) 0.01)
  | None => None
  end.

Definition delete (now : R) (g : Game) (e : t) : Game * t :=
  if Py.geb (now - Enemy.start_time (base e)) (2 * speed e + delay e) then
    let e := set_direction e (-999) in
    (set_canvas g (call (canvas g) (canvas_delete (Enemy.id (base e)))), e)
  else (g, e).

Definition inactive (now : R) (g : Game) (e : t) : Game * t :=
  if Py.geb (now - Enemy.start_time (base e)) (speed e + delay e)
  then (g, set_state e Active) else (g, e).

Definition active (now : R) (g : Game) (e : t) : option (Game * t) :=
  let g := set_canvas g (call (canvas g)
             (itemconfigure_fill (Enemy.id (base e)) (Enemy.color (base e)))) in
  match hits_line g e with
  | Some hit =>
      let g := if hit then game_over_lose g else g in
      Some (delete now g e)
  | None => None
  end.

Definition update (now : R) (g : Game) (e : t) : option (Game * t) :=
  match state e with
  | Inactive => Some (inactive now g e)
  | Active => active now g e
  end.

End LaserEnemy.

(** ** The registry and the enemy generator *)

Inductive Element : Type :=
| Stalk (e : StalkEnemy.t)
| Fencing (e : FencingEnemy.t)
| RandomWalk (e : RandomWalkEnemy.t)
| Straight (e : StraightEnemy.t)
| Laser (e : LaserEnemy.t).

(** The session: the state the elements read and write through their
    [game] reference, and the registry of elements that [gamelib] keeps. *)
Record Session := mkSession { game : Game; elements : list Element }.

(** Modelled from the spec: [Game.add_element] of [gamelib], which is not
    part of the sources; the element joins the insertion-ordered
    registry. *)
Definition add_element (s : Session) (e : Element) : Session :=
  mkSession (game s) (elements s ++ [e]).

(** The text [f"Level: {level}"]. *)
Definition level_label (level : Z) : string :=
  "Level: " ++ NilZero.string_of_int (Z.to_int level).

Module EnemyGenerator.

Record t := mk { level : Z }.

(** The number of lasers of a round,
    [int(log(self.level, 15) * self.level) // k]. *)
Definition laser_num (level : Z) : option Z :=
  let k := if (level mod 10 =? 0)%Z then 3%Z else 5%Z in
  match Py.log_base (IZR level) 15 with
  | Some l => Some (Py.int (l * IZR level) / k)%Z
  | None => None
  end.

(** The loop [for i in range(laser_num)] of [create_enemy]. It ends the
    round with an exception when the constructor of a laser raises. A
    laser of infinite speed ends it too: the round then raises below, at
    [int(1000 * 2 * spd)], since [spd] is the same [inf]. *)
Fixpoint laser_loop (x0 y0 now : R) (level : Z) (indices : list Z)
    (s : Session) : option Session :=
  match indices with
  | [] => Some s
  | i :: rest =>
      match LaserEnemy.init x0 y0 now 14 "black" (0.02 * IZR i) level with
      | Built laser_enemy =>
          laser_loop x0 y0 now level rest (add_element s (Laser laser_enemy))
      | BuiltInfinite | Raised => None
      end
  end.

(** [create_enemy]: one round. [x0], [y0] is the position of a fresh game
    element. Each constructor of the round reads the clock for its
    [start_time]; the embedding gives them all the one reading [now], as
    if the round took no time. The result holds the delay after which the
    next round is scheduled, if it is. *)
Definition create_enemy (x0 y0 now : R) (s : Session) (gen : t)
    : M (Session * t * option Z) :=
  let lv := level gen in
  (s <- (if (lv mod 2 =? 0)%Z
         then ret (add_element s
                     (Stalk (StalkEnemy.init x0 y0 now 7 "magenta" lv)))
         else ret s) ;;
   s <- (if (lv mod 7 =? 0)%Z
         then (fencing_enemy <- FencingEnemy.init x0 y0 now 10 "red" lv ;;
               ret (add_element s (Fencing fencing_enemy)))
         else ret s) ;;
   random_walk_enemy <- RandomWalkEnemy.init x0 y0 now 14 "blue" lv ;;
   let s := add_element s (RandomWalk random_walk_enemy) in
   s <- (if (lv mod 3 =? 0)%Z
         then (random_angle <- choice (Py.range 0 360) ;;
               straight_enemy <- lift (StraightEnemy.init x0 y0 now 37 "yellow"
                                                          random_angle lv) ;;
               ret (add_element s (Straight straight_enemy)))
         else ret s) ;;
   n <- lift (laser_num lv) ;;
   s <- lift (laser_loop x0 y0 now lv (Py.range 0 n) s) ;;
   spd <- lift (match laser_speed lv with
                | Py.Finite spd => Some spd
                | _ => None
                end) ;;
   let round_duration := (n * 20 + Py.int (1000 * 2 * spd))%Z in
   let g := game s in
   let g := set_canvas g (call (canvas g)
              (itemconfigure_text (level_text g) (level_label lv))) in
   ret (mkSession g (elements s), mk (lv + 1),
        if is_started g then Some round_duration else None))%py.

End EnemyGenerator.

(** ** Example configurations *)

(** The game as [init_game] lays it out in an 800 by 500 window: Home of
    size 20 at [(700, 250)], the player at speed 5. *)
Definition example_game (px py : R) (wp : Waypoint) (started : bool) : Game :=
  mkGame 800 500 wp (mkHome 700 250 20)
         (mkPlayer (RawTurtle.mk px py 0) 5)
         (mkCanvas 800 500 1 []) 0 started.

(** The player stands on the centre of Home and has clicked further to the
    right. *)
Definition game_at_home : Game :=
  example_game 700 250 (mkWaypoint 800 250 true) true.

(** The player is at its starting point, seven units left of the
    waypoint. *)
Definition game_near_waypoint : Game :=
  example_game 50 250 (mkWaypoint 57 250 true) true.

(** A running game with the player at its starting point and no waypoint. *)
Definition game_idle : Game :=
  example_game 50 250 (mkWaypoint 0 0 false) true.

(** ** Observations *)

(** The expiry action of an enemy removes its canvas item: the number of
    [canvas.delete] calls made so far counts how often an expiry fired. *)
Definition is_delete (k : canvas_call) : bool :=
  match k with canvas_delete _ => true | _ => false end.

Definition teardowns (g : Game) : nat :=
  List.length (filter is_delete (calls (canvas g))).

(** Between the states [before] and [after] of one update, the expiry
    action fired if [cond] holds and did not fire otherwise. *)
Definition fires_iff (before after : Game) (cond : Prop) : Prop :=
  (cond -> teardowns after = S (teardowns before)) /\
  (~ cond -> teardowns after = teardowns before).

(** The position an expired enemy is sent to. *)
Definition at_sentinel (b : Enemy.t) : Prop :=
  Enemy.x b = -999 /\ Enemy.y b = -999.

(** A Fencing enemy of level 7 on its fence around Home, created at time 0. *)
Definition fencing_example : FencingEnemy.t :=
  FencingEnemy.mk (Enemy.mk 740 290 10 "red" 0 (Some 1%nat)) 7 1 40 Up.

(** A RandomWalk enemy created at time 0. *)
Definition random_walk_example : RandomWalkEnemy.t :=
  RandomWalkEnemy.mk (Enemy.mk 300 100 14 "blue" 0 (Some 1%nat)) 4 90 Right Down.

(** A Stalk enemy of level 2 created at time 0. *)
Definition stalk_example : StalkEnemy.t :=
  StalkEnemy.mk (Enemy.mk 300 100 7 "magenta" 0 (Some 1%nat)) 2 1.

(** Two successive ticks of the Fencing enemy, at times 30 and 31. *)
Definition fencing_first_tick : Game * FencingEnemy.t :=
  FencingEnemy.update 30 game_idle fencing_example.

Definition fencing_second_tick : Game * FencingEnemy.t :=
  FencingEnemy.update 31 (fst fencing_first_tick) (snd fencing_first_tick).

(** The game-lost signal leaves its banner on the canvas: the number of
    "You Lose" banners counts how often the signal was raised. *)
Definition is_lose_banner (k : canvas_call) : bool :=
  match k with
  | create_text _ _ text _ _ => String.eqb text "You Lose"
  | _ => false
  end.

Definition lose_signals (g : Game) : nat :=
  List.length (filter is_lose_banner (calls (canvas g))).

(** Between the states [before] and [after] of one update, game-lost was
    signalled (once, stopping the session) if [cond] holds and was not
    signalled otherwise. *)
Definition signals_lose_iff (before after : Game) (cond : Prop) : Prop :=
  (cond -> lose_signals after = S (lose_signals before)
           /\ is_started after = false) /\
  (~ cond -> lose_signals after = lose_signals before
             /\ is_started after = is_started before).

(** A Laser of level 1 created at time 0 with no delay, still inactive;
    its speed is taken as one half. *)
Definition laser_example : LaserEnemy.t :=
  LaserEnemy.mk (Enemy.mk 100 (-1) 14 "black" 0 (Some 1%nat)) 1 (1 / 2)
                (Some 1) Inactive 0.

(** An active Laser whose direction is the bearing of the player of
    [game_idle]. *)
Definition laser_aimed_example : LaserEnemy.t :=
  LaserEnemy.mk (Enemy.mk 100 (-1) 14 "black" 0 (Some 1%nat)) 1 (1 / 2)
                (Some (Py.atan2 (250 - -1) (50 - 100))) Active 0.

(** The kinds of the elements of the registry, and how many of a kind a
    list holds. *)
Definition is_stalk (el : Element) : bool :=
  match el with Stalk _ => true | _ => false end.
Definition is_fencing (el : Element) : bool :=
  match el with Fencing _ => true | _ => false end.
Definition is_random_walk (el : Element) : bool :=
  match el with RandomWalk _ => true | _ => false end.
Definition is_straight (el : Element) : bool :=
  match el with Straight _ => true | _ => false end.
Definition is_laser (el : Element) : bool :=
  match el with Laser _ => true | _ => false end.

Definition count (kind : Element -> bool) (l : list Element) : nat :=
  List.length (filter kind l).

(** A generator stream that always draws 0, and an empty session around
    [game_idle]. *)
Definition rng_zero : Rng := mkRng (fun _ => 0%nat) 0.

Definition session_idle : Session := mkSession game_idle [].

(** The variants that spawn at a random place away from the player have a
    hit-box whose half-width is below 19. *)
Definition small_hit_box (el : Element) : Prop :=
  match el with
  | Stalk e => Enemy.size (StalkEnemy.base e) / 2 < 19
  | RandomWalk e => Enemy.size (RandomWalkEnemy.base e) / 2 < 19
  | Straight e => Enemy.size (StraightEnemy.base e) / 2 < 19
  | Fencing _ | Laser _ => True
  end.

(** A small canvas with the player near its corner, and a Stalk enemy
    about to be created on it. *)
Definition game_small : Game :=
  mkGame 50 50 (mkWaypoint 0 0 false) (mkHome 40 25 20)
         (mkPlayer (RawTurtle.mk 10 10 0) 5)
         (mkCanvas 50 50 1 []) 0 true.

Definition stalk_fresh : StalkEnemy.t := StalkEnemy.init 0 0 0 7 "magenta" 2.

(** A coordinate [v] that [create] may give an enemy on an axis of length
    [bound] where the player is at [p]: an integer of [[0, bound)] outside
    the window [[int(p - 20), int(p + 20))]. *)
Definition spawn_range (bound : Z) (p : R) (v : R) : Prop :=
  exists z : Z,
    v = IZR z /\ (0 <= z < bound)%Z /\
    ~ (Py.int (p - 20) <= z < Py.int (p + 20))%Z.

(** ** Runs and invariants *)

(** [n] successive calls of [Player.update]. *)
Definition player_ticks (n : nat) (g : Game) : Game :=
  Nat.iter n player_update g.

(** The distance from the player to the waypoint. *)
Definition waypoint_distance (g : Game) : R :=
  RawTurtle.distance (turtle (player g))
                     (wp_x (waypoint g)) (wp_y (waypoint g)).

(** The player is four units short of a waypoint, and twelve units short
    of one; and a waypoint set on the player's own position. *)
Definition game_two_ticks_away : Game :=
  example_game 50 250 (mkWaypoint 62 250 true) true.

Definition game_clicked_on_player : Game :=
  example_game 50 250 (mkWaypoint 50 250 true) true.

(** The order in which a Fencing enemy changes its movement. *)
Definition next_movement (m : Movement) : Movement :=
  match m with
  | Up => Left
  | Left => Down
  | Down => Right
  | Right => Up
  end.

(** A Fencing enemy is on its fence: on the side of the square of
    half-width [fence] around Home that its movement follows, at most one
    step past the corners. *)
Definition on_fence (g : Game) (e : FencingEnemy.t) : Prop :=
  let hx := home_x (home g) in
  let hy := home_y (home g) in
  let f := IZR (FencingEnemy.fence e) in
  let s := FencingEnemy.speed e in
  let x := Enemy.x (FencingEnemy.base e) in
  let y := Enemy.y (FencingEnemy.base e) in
  match FencingEnemy.movement e with
  | Up => (hx + f <= x < hx + f + s) /\ (hy - f < y < hy + f + s)
  | Left => (hy - f - s < y <= hy - f) /\ (hx - f < x < hx + f + s)
  | Down => (hx - f - s < x <= hx - f) /\ (hy - f - s < y < hy + f)
  | Right => (hy + f <= y < hy + f + s) /\ (hx - f - s < x < hx + f)
  end.

(** Successive updates of a Fencing enemy at the given clock readings. *)
Definition fencing_run (times : list R) (g : Game) (e : FencingEnemy.t)
    : Game * FencingEnemy.t :=
  fold_left (fun p now => FencingEnemy.update now (fst p) (snd p)) times (g, e).

(** The lengths of the steps of a RandomWalk enemy along each axis. *)
Definition walk_step_x (e : RandomWalkEnemy.t) : R :=
  Py.fabs (cos (IZR (RandomWalkEnemy.direction e))) * RandomWalkEnemy.speed e.

Definition walk_step_y (e : RandomWalkEnemy.t) : R :=
  Py.fabs (sin (IZR (RandomWalkEnemy.direction e))) * RandomWalkEnemy.speed e.

(** A RandomWalk enemy is in its area: on each axis it moves one way or
    the other, and it is inside the canvas or at most one step past the
    border it is moving away from. *)
Definition in_walk_area (g : Game) (e : RandomWalkEnemy.t) : Prop :=
  let w := IZR (winfo_width (canvas g)) in
  let h := IZR (screen_height g) in
  let x := Enemy.x (RandomWalkEnemy.base e) in
  let y := Enemy.y (RandomWalkEnemy.base e) in
  match RandomWalkEnemy.x_movement e with
  | Left => 0 <= x <= w + walk_step_x e
  | Right => - walk_step_x e <= x <= w
  | Up | Down => False
  end /\
  match RandomWalkEnemy.y_movement e with
  | Up => 0 <= y <= h + walk_step_y e
  | Down => - walk_step_y e <= y <= h
  | Left | Right => False
  end.

(** Successive updates of a RandomWalk enemy at the given clock
    readings. *)
Definition random_walk_run (times : list R) (g : Game)
    (e : RandomWalkEnemy.t) : Game * RandomWalkEnemy.t :=
  fold_left (fun p now => RandomWalkEnemy.update now (fst p) (snd p))
            times (g, e).

(** An axis of length [bound] has no place to spawn when the player is at
    [p]: it is empty, or the window around the player covers it. *)
Definition no_room (bound : Z) (p : R) : Prop :=
  (bound <= 0 \/ (Py.int (p - 20) <= 0 /\ bound <= Py.int (p + 20)))%Z.

(** A canvas 30 wide, all of it within 20 of the player. *)
Definition game_narrow : Game :=
  mkGame 30 50 (mkWaypoint 0 0 false) (mkHome 10 25 20)
         (mkPlayer (RawTurtle.mk 15 10 0) 5)
         (mkCanvas 30 50 1 []) 0 true.

(** A Laser enemy about to be created. *)
Definition laser_fresh : LaserEnemy.t :=
  LaserEnemy.mk (Enemy.mk 0 0 14 "black" 0 None) 1 (1 / 2) None Inactive 0.

(** Successive updates of a Laser at the given clock readings; an update
    that raises ends the run. *)
Fixpoint laser_run (times : list R) (g : Game) (e : LaserEnemy.t)
    : option (Game * LaserEnemy.t) :=
  match times with
  | [] => Some (g, e)
  | now :: rest =>
      match LaserEnemy.update now g e with
      | Some (g', e') => laser_run rest g' e'
      | None => None
      end
  end.

(** [n] successive updates of a Straight enemy. *)
Definition straight_run (n : nat) (g : Game) (e : StraightEnemy.t)
    : Game * StraightEnemy.t :=
  Nat.iter n (fun p => StraightEnemy.update (fst p) (snd p)) (g, e).

(** An active Laser that was torn down, and a Straight enemy of speed 2
    flying to the right along the top of the canvas. *)
Definition laser_spent : LaserEnemy.t :=
  LaserEnemy.mk (Enemy.mk 100 (-1) 14 "black" 0 (Some 1%nat)) 1 (1 / 2)
                (Some (-999)) Active 0.

Definition straight_example : StraightEnemy.t :=
  StraightEnemy.mk (Enemy.mk 300 100 37 "yellow" 0 (Some 1%nat)) 2 0.

(** [n] successive updates of a Demo enemy. *)
Definition demo_run (n : nat) (g : Game) (e : DemoEnemy.t)
    : Game * DemoEnemy.t :=
  Nat.iter n (fun p => DemoEnemy.update (fst p) (snd p)) (g, e).

(** A RandomWalk enemy about to be created. *)
Definition random_walk_fresh : RandomWalkEnemy.t :=
  RandomWalkEnemy.mk (Enemy.mk 0 0 14 "blue" 0 None) 4 90 Left Up.

(** * Properties *)

(** ** The comparisons and [int] *)

Lemma leb_true (a b : R) : Py.leb a b = true <-> a <= b.
Proof.
  unfold Py.leb. destruct (Rle_dec a b); split; intros; auto; discriminate.
Qed.

Lemma leb_false (a b : R) : Py.leb a b = false <-> b < a.
Proof.
  unfold Py.leb. destruct (Rle_dec a b); split; intros; try discriminate;
    auto; lra.
Qed.

Lemma ltb_true (a b : R) : Py.ltb a b = true <-> a < b.
Proof.
  unfold Py.ltb. destruct (Rlt_dec a b); split; intros; auto; discriminate.
Qed.

Lemma ltb_false (a b : R) : Py.ltb a b = false <-> b <= a.
Proof.
  unfold Py.ltb. destruct (Rlt_dec a b); split; intros; try discriminate;
    auto; lra.
Qed.

Lemma geb_true (a b : R) : Py.geb a b = true <-> a >= b.
Proof. unfold Py.geb. rewrite leb_true. lra. Qed.

Lemma geb_false (a b : R) : Py.geb a b = false <-> a < b.
Proof. unfold Py.geb. apply leb_false. Qed.

Lemma gtb_true (a b : R) : Py.gtb a b = true <-> a > b.
Proof. unfold Py.gtb. rewrite ltb_true. lra. Qed.

(** Turn the boolean tests of a goal or of the context into inequalities. *)
Ltac py_tests :=
  repeat match goal with
  | H : _ && _ = true |- _ => apply andb_true_iff in H; destruct H
  | H : Py.leb _ _ = true |- _ => apply leb_true in H
  | H : Py.ltb _ _ = true |- _ => apply ltb_true in H
  | H : Py.geb _ _ = true |- _ => apply geb_true in H
  | H : Py.leb _ _ = false |- _ => apply leb_false in H
  | H : Py.ltb _ _ = false |- _ => apply ltb_false in H
  | H : Py.geb _ _ = false |- _ => apply geb_false in H
  | |- _ && _ = true => apply andb_true_iff; split
  | |- Py.leb _ _ = true => apply leb_true
  | |- Py.ltb _ _ = true => apply ltb_true
  | |- Py.geb _ _ = true => apply geb_true
  | |- Py.leb _ _ = false => apply leb_false
  | |- Py.ltb _ _ = false => apply ltb_false
  | |- Py.geb _ _ = false => apply geb_false
  end.

Lemma int_nonneg (x : R) : 0 <= x -> Py.int x = Zfloor x.
Proof. intros H. unfold Py.int. destruct (Rle_dec 0 x); [reflexivity | lra]. Qed.

Lemma int_IZR (z : Z) : Py.int (IZR z) = z.
Proof.
  unfold Py.int. destruct (Rle_dec 0 (IZR z)).
  - apply ZfloorZ.
  - unfold Zceil. rewrite <- opp_IZR, ZfloorZ. lia.
Qed.

(** [int(x)] lies within one unit of [x], on the side of zero. *)
Lemma int_bounds (x : R) :
  x - 1 < IZR (Py.int x) < x + 1.
Proof.
  unfold Py.int. destruct (Rle_dec 0 x).
  - pose proof (Zfloor_bound x). lra.
  - pose proof (Zceil_bound x). lra.
Qed.

(** An integer below [int(x)] is below [x]. *)
Lemma lt_int (z : Z) (x : R) : (z < Py.int x)%Z -> IZR z < x.
Proof.
  intros H. pose proof (int_bounds x) as [_ Hb].
  assert (IZR z + 1 <= IZR (Py.int x)).
  { rewrite <- plus_IZR. apply IZR_le. lia. }
  lra.
Qed.

(** An integer at or above [int(x)] is more than [x - 1]. *)
Lemma ge_int (z : Z) (x : R) : (Py.int x <= z)%Z -> x - 1 < IZR z.
Proof.
  intros H. pose proof (int_bounds x) as [Hb _].
  apply IZR_le in H. lra.
Qed.

(** ** The bearing [atan2] *)

Lemma norm_pos (x y : R) : x <> 0 \/ y <> 0 -> 0 < sqrt (x² + y²).
Proof.
  intros H. apply sqrt_lt_R0. unfold Rsqr. destruct H; nra.
Qed.

Lemma sqrt_slope (x y : R) :
  x <> 0 -> sqrt (1 + (y / x)²) = sqrt (x² + y²) / Rabs x.
Proof.
  intros Hx.
  replace (1 + (y / x)²) with ((x² + y²) / x²) by (unfold Rsqr; field; auto).
  rewrite sqrt_div_alt.
  - now rewrite sqrt_Rsqr_abs.
  - unfold Rsqr. nra.
Qed.

Lemma cos_atan2 (x y : R) :
  x <> 0 \/ y <> 0 -> cos (Py.atan2 y x) = x / sqrt (x² + y²).
Proof.
  intros H. pose proof (norm_pos x y H) as Hn. unfold Py.atan2.
  destruct (Rlt_dec 0 x) as [Hx | Hx].
  - rewrite cos_atan, sqrt_slope by lra. rewrite Rabs_pos_eq by lra.
    field. lra.
  - destruct (Rlt_dec x 0) as [Hx' | Hx'].
    + assert (Hc : cos (atan (y / x)) = - x / sqrt (x² + y²)).
      { rewrite cos_atan, sqrt_slope by lra. rewrite Rabs_left by lra.
        field. lra. }
      destruct (Rle_dec 0 y).
      * rewrite neg_cos, Hc. field. lra.
      * unfold Rminus. rewrite cos_plus, cos_neg, sin_neg, cos_PI, sin_PI, Hc.
        field. lra.
    + assert (x = 0) by lra. subst x.
      destruct (Rlt_dec 0 y); [rewrite cos_PI2; lra|].
      destruct (Rlt_dec y 0); [rewrite cos_neg, cos_PI2; lra|].
      destruct H; lra.
Qed.

Lemma sin_atan2 (x y : R) :
  x <> 0 \/ y <> 0 -> sin (Py.atan2 y x) = y / sqrt (x² + y²).
Proof.
  intros H. pose proof (norm_pos x y H) as Hn. unfold Py.atan2.
  destruct (Rlt_dec 0 x) as [Hx | Hx].
  - rewrite sin_atan, sqrt_slope by lra. rewrite Rabs_pos_eq by lra.
    field. lra.
  - destruct (Rlt_dec x 0) as [Hx' | Hx'].
    + assert (Hc : sin (atan (y / x)) = - y / sqrt (x² + y²)).
      { rewrite sin_atan, sqrt_slope by lra. rewrite Rabs_left by lra.
        field. lra. }
      destruct (Rle_dec 0 y).
      * rewrite neg_sin, Hc. field. lra.
      * unfold Rminus. rewrite sin_plus, cos_neg, sin_neg, cos_PI, sin_PI, Hc.
        field. lra.
    + assert (x = 0) by lra. subst x.
      replace (0² + y²) with (y²) by (unfold Rsqr; ring).
      rewrite sqrt_Rsqr_abs.
      destruct (Rlt_dec 0 y).
      { rewrite sin_PI2, Rabs_pos_eq by lra. field. lra. }
      destruct (Rlt_dec y 0).
      { rewrite sin_neg, sin_PI2, Rabs_left by lra. field. lra. }
      destruct H; lra.
Qed.

Lemma atan2_range (y x : R) : - PI <= Py.atan2 y x <= PI.
Proof.
  pose proof PI_RGT_0. pose proof (atan_bound (y / x)) as Hb. unfold Py.atan2.
  destruct (Rlt_dec 0 x); [lra|].
  destruct (Rlt_dec x 0).
  - destruct (Rle_dec 0 y).
    + assert (y / x <= 0).
      { unfold Rdiv. assert (/ x < 0) by (apply Rinv_lt_0_compat; lra). nra. }
      assert (atan (y / x) <= 0).
      { rewrite <- atan_0. destruct (Req_dec (y / x) 0) as [-> | Hne]; [lra|].
        left. apply atan_increasing. lra. }
      lra.
    + assert (0 < y / x).
      { unfold Rdiv. assert (/ x < 0) by (apply Rinv_lt_0_compat; lra). nra. }
      assert (0 < atan (y / x)).
      { rewrite <- atan_0. apply atan_increasing. lra. }
      lra.
  - destruct (Rlt_dec 0 y); [lra|]. destruct (Rlt_dec y 0); lra.
Qed.

(** ** Home and the hit-box *)

(** C6: [Home.contains(x, y)] is true exactly when both coordinates lie in
    the closed interval of half-width [size/2] around the centre of Home;
    every edge belongs to Home and any point outside yields false. *)
Theorem contains_closed_square (h : Home) (x y : R) :
  contains h x y = true <->
  (home_x h - home_size h / 2 <= x <= home_x h + home_size h / 2) /\
  (home_y h - home_size h / 2 <= y <= home_y h + home_size h / 2).
Proof.
  unfold contains. split.
  - intros H. py_tests. lra.
  - intros [[? ?] [? ?]]. py_tests; assumption.
Qed.

(** C5: [hits_player()] is true exactly when the player lies strictly
    inside the open square of half-width [size/2] centred on the enemy, on
    both axes; it is false when the player is exactly on the boundary of
    the hit-box: an enemy placed so that one of its four edges passes
    through the player does not hit. *)
Theorem hits_player_open_square (g : Game) (e : Enemy.t) :
  let px := player_x (player g) in
  let py := player_y (player g) in
  (Enemy.hits_player g e = true <->
   (Enemy.x e - Enemy.size e / 2 < px < Enemy.x e + Enemy.size e / 2) /\
   (Enemy.y e - Enemy.size e / 2 < py < Enemy.y e + Enemy.size e / 2)) /\
  Enemy.hits_player g (Enemy.set_x e (px + Enemy.size e / 2)) = false /\
  Enemy.hits_player g (Enemy.set_x e (px - Enemy.size e / 2)) = false /\
  Enemy.hits_player g (Enemy.set_y e (py + Enemy.size e / 2)) = false /\
  Enemy.hits_player g (Enemy.set_y e (py - Enemy.size e / 2)) = false.
Proof.
  cbv zeta. split.
  - unfold Enemy.hits_player. split.
    + intros H. py_tests. lra.
    + intros [[? ?] [? ?]]. py_tests; assumption.
  - repeat split;
      match goal with |- ?h = false => destruct h eqn:E; [|reflexivity] end;
      unfold Enemy.hits_player in E;
      cbn [Enemy.set_x Enemy.set_y Enemy.x Enemy.y Enemy.size] in E;
      py_tests; lra.
Qed.

(** ** The end of the game *)

(** Each handler stops the session and draws its banner, whatever the
    state it is called in. *)
Lemma game_over_win_effect (g : Game) :
  game_over_win g =
  mkGame (screen_width g) (screen_height g) (waypoint g) (home g) (player g)
         (mkCanvas (winfo_width (canvas g)) (winfo_height (canvas g))
                   (S (next_id (canvas g)))
                   (calls (canvas g) ++ [banner g "You Win" "green"]))
         (level_text g) false.
Proof. reflexivity. Qed.

Lemma game_over_lose_effect (g : Game) :
  game_over_lose g =
  mkGame (screen_width g) (screen_height g) (waypoint g) (home g) (player g)
         (mkCanvas (winfo_width (canvas g)) (winfo_height (canvas g))
                   (S (next_id (canvas g)))
                   (calls (canvas g) ++ [banner g "You Lose" "red"]))
         (level_text g) false.
Proof. reflexivity. Qed.

(** C2, as the code has it: either handler leaves the session stopped, so
    the running flag is settled by the first signal; but each call draws
    its banner unconditionally, so a call made in a terminal state adds
    one more banner to the canvas and leaves everything else as it was. *)
Theorem game_over_draws_every_time (g : Game) :
  let w := game_over_win g in
  let l := game_over_lose g in
  (is_started w = false /\ is_started l = false) /\
  calls (canvas w) = calls (canvas g) ++ [banner g "You Win" "green"] /\
  calls (canvas l) = calls (canvas g) ++ [banner g "You Lose" "red"] /\
  calls (canvas (game_over_lose w)) =
    calls (canvas g) ++ [banner g "You Win" "green"; banner g "You Lose" "red"] /\
  calls (canvas (game_over_win w)) =
    calls (canvas g) ++ [banner g "You Win" "green"; banner g "You Win" "green"] /\
  (waypoint w, home w, player w) = (waypoint g, home g, player g) /\
  (waypoint l, home l, player l) = (waypoint g, home g, player g).
Proof.
  cbv zeta. rewrite !game_over_win_effect, !game_over_lose_effect.
  cbn [is_started canvas calls waypoint home player screen_width screen_height].
  unfold banner. cbn [screen_width screen_height].
  rewrite <- !app_assoc. cbn [app]. repeat split; reflexivity.
Qed.

(** C2 fails as stated: after a win, a call of [game_over_lose] is not a
    no-op, it puts a second banner on the canvas. *)
Lemma game_over_twice_changes_canvas :
  is_started (game_over_win game_idle) = false /\
  game_over_lose (game_over_win game_idle) <> game_over_win game_idle /\
  List.length (calls (canvas (game_over_win game_idle))) = 1%nat /\
  List.length (calls (canvas (game_over_lose (game_over_win game_idle)))) = 2%nat.
Proof.
  split; [reflexivity|]. split; [|split; reflexivity].
  intros H. apply (f_equal (fun g => List.length (calls (canvas g)))) in H.
  discriminate H.
Qed.

(** ** The player *)

(** The step of the player towards a waypoint. *)
Lemma forward_moves_by_distance (tu : RawTurtle.t) (d : R) :
  let tu' := RawTurtle.forward tu d in
  sqrt ((RawTurtle.xcor tu' - RawTurtle.xcor tu)² +
        (RawTurtle.ycor tu' - RawTurtle.ycor tu)²) = Rabs d.
Proof.
  cbn [RawTurtle.forward RawTurtle.xcor RawTurtle.ycor].
  replace ((RawTurtle.xcor tu + d * cos (RawTurtle.heading tu)
            - RawTurtle.xcor tu)² +
           (RawTurtle.ycor tu + d * sin (RawTurtle.heading tu)
            - RawTurtle.ycor tu)²)
    with (d² * ((sin (RawTurtle.heading tu))² + (cos (RawTurtle.heading tu))²))
    by (unfold Rsqr; ring).
  rewrite sin2_cos2, Rmult_1_r. apply sqrt_Rsqr_abs.
Qed.

(** Whether or not the player is at Home, an active waypoint makes
    [Player.update] turn the turtle to the waypoint and step forward. *)
Lemma player_update_turtle (g : Game) :
  turtle (player (player_update g)) =
  if is_active (waypoint g) then
    RawTurtle.forward
      (RawTurtle.setheading (turtle (player g))
         (RawTurtle.towards (turtle (player g))
            (wp_x (waypoint g)) (wp_y (waypoint g))))
      (speed (player g))
  else turtle (player g).
Proof.
  unfold player_update.
  destruct (contains _ _ _); cbn [game_over_win stop set_canvas waypoint player];
    destruct (is_active (waypoint g)); try reflexivity;
    match goal with |- context [Py.ltb ?a ?b] => destruct (Py.ltb a b) end;
    reflexivity.
Qed.

Lemma player_update_waypoint (g : Game) :
  waypoint (player_update g) =
  if is_active (waypoint g) then
    if Py.ltb (RawTurtle.distance
                 (RawTurtle.forward
                    (RawTurtle.setheading (turtle (player g))
                       (RawTurtle.towards (turtle (player g))
                          (wp_x (waypoint g)) (wp_y (waypoint g))))
                    (speed (player g)))
                 (wp_x (waypoint g)) (wp_y (waypoint g)))
              (speed (player g))
    then deactivate (waypoint g) else waypoint g
  else waypoint g.
Proof.
  unfold player_update.
  destruct (contains _ _ _);
    cbn [game_over_win stop set_canvas set_player waypoint player speed turtle];
    destruct (is_active (waypoint g)); try reflexivity;
    match goal with |- context [Py.ltb ?a ?b] => destruct (Py.ltb a b) end;
    reflexivity.
Qed.

Lemma player_update_signal (g : Game) :
  (is_started (player_update g), canvas (player_update g)) =
  if contains (home g) (player_x (player g)) (player_y (player g))
  then (false, canvas (game_over_win g))
  else (is_started g, canvas g).
Proof.
  unfold player_update.
  destruct (contains _ _ _); cbn [game_over_win stop set_canvas waypoint player];
    destruct (is_active (waypoint g)); try reflexivity;
    match goal with |- context [Py.ltb ?a ?b] => destruct (Py.ltb a b) end;
    reflexivity.
Qed.

(** C1, as the code has it: at Home, [Player.update] signals game-won, and
    then runs the movement step all the same: with an active waypoint the
    player still advances by [speed] on the bearing of the waypoint; only
    without one does the position stay as it was. *)
Theorem player_update_at_home (g : Game) :
  contains (home g) (player_x (player g)) (player_y (player g)) = true ->
  let p := player g in
  let w := waypoint g in
  let g' := player_update g in
  let theta := Py.atan2 (wp_y w - player_y p) (wp_x w - player_x p) in
  is_started g' = false /\
  calls (canvas g') = calls (canvas g) ++ [banner g "You Win" "green"] /\
  player_x (player g') =
    (if is_active w then player_x p + speed p * cos theta else player_x p) /\
  player_y (player g') =
    (if is_active w then player_y p + speed p * sin theta else player_y p) /\
  sqrt ((player_x (player g') - player_x p)² +
        (player_y (player g') - player_y p)²) =
    (if is_active w then Rabs (speed p) else 0).
Proof.
  intros Hhome p w g' theta.
  pose proof (player_update_signal g) as Hs. rewrite Hhome in Hs.
  injection Hs as Hst Hcv.
  pose proof (player_update_turtle g) as Ht.
  fold g' in Hst, Hcv, Ht. unfold player_x, player_y.
  rewrite Hst, Hcv, Ht. fold w p.
  split; [reflexivity|]. split; [reflexivity|].
  destruct (is_active w).
  - split; [reflexivity|]. split; [reflexivity|].
    apply (forward_moves_by_distance
             (RawTurtle.setheading (turtle p)
                (RawTurtle.towards (turtle p) (wp_x w) (wp_y w)))).
  - split; [reflexivity|]. split; [reflexivity|].
    rewrite !Rminus_diag. unfold Rsqr. rewrite Rmult_0_l, Rplus_0_l.
    apply sqrt_0.
Qed.

(** The player of [game_at_home] is inside Home, and the waypoint lies
    straight to its right. *)
Lemma game_at_home_inside :
  contains (home game_at_home) (player_x (player game_at_home))
           (player_y (player game_at_home)) = true.
Proof.
  unfold contains.
  cbn [game_at_home example_game home home_x home_y home_size player
       player_x player_y turtle RawTurtle.xcor RawTurtle.ycor].
  py_tests; lra.
Qed.

Lemma game_at_home_bearing : Py.atan2 (250 - 250) (800 - 700) = 0.
Proof.
  unfold Py.atan2. destruct (Rlt_dec 0 (800 - 700)) as [_ | Hn]; [|lra].
  replace ((250 - 250) / (800 - 700)) with 0 by lra. apply atan_0.
Qed.

(** An instance: on the centre of Home with a waypoint 100 to the right,
    the update signals the win and moves the player from 700 to 705. *)
Lemma player_update_at_home_witness :
  is_started (player_update game_at_home) = false /\
  player_x (player (player_update game_at_home)) = 705.
Proof.
  destruct (player_update_at_home game_at_home game_at_home_inside)
    as (Hs & _ & Hx & _).
  split; [exact Hs|]. rewrite Hx.
  cbn [game_at_home example_game waypoint is_active player speed
       player_x player_y turtle RawTurtle.xcor RawTurtle.ycor wp_x wp_y].
  rewrite game_at_home_bearing, cos_0. lra.
Defined.

(** C1 fails as stated: the player stands inside Home with an active
    waypoint, and the update moves it. *)
Lemma player_update_moves_at_home :
  contains (home game_at_home) (player_x (player game_at_home))
           (player_y (player game_at_home)) = true /\
  is_active (waypoint game_at_home) = true /\
  player_x (player game_at_home) = 700 /\
  player_x (player (player_update game_at_home)) = 705 /\
  player_x (player (player_update game_at_home))
    <> player_x (player game_at_home).
Proof.
  assert (Hx : player_x (player (player_update game_at_home)) = 705).
  { unfold player_x. rewrite player_update_turtle.
    cbn [game_at_home example_game waypoint is_active player speed turtle
         RawTurtle.forward RawTurtle.setheading RawTurtle.towards
         RawTurtle.xcor RawTurtle.ycor RawTurtle.heading wp_x wp_y].
    unfold RawTurtle.towards. cbn [RawTurtle.xcor RawTurtle.ycor].
    rewrite game_at_home_bearing, cos_0. lra. }
  split; [exact game_at_home_inside|].
  split; [reflexivity|]. split; [reflexivity|]. split; [exact Hx|].
  rewrite Hx. cbn [game_at_home example_game player player_x turtle
                   RawTurtle.xcor]. lra.
Qed.

(** C7: on a tick with an active waypoint and the player not at Home,
    [Player.update] displaces the player along the bearing of the waypoint
    (the displacement is parallel to the vector to the waypoint, in its
    direction for a positive speed) by exactly [speed], and deactivates
    the waypoint on that tick exactly when the distance left after the
    step is below [speed]; nothing is signalled. *)
Theorem player_update_seeking (g : Game) :
  is_active (waypoint g) = true ->
  contains (home g) (player_x (player g)) (player_y (player g)) = false ->
  let p := player g in
  let w := waypoint g in
  let g' := player_update g in
  let dx := wp_x w - player_x p in
  let dy := wp_y w - player_y p in
  (player_x (player g') - player_x p) * sqrt (dx² + dy²) = speed p * dx /\
  (player_y (player g') - player_y p) * sqrt (dx² + dy²) = speed p * dy /\
  sqrt ((player_x (player g') - player_x p)² +
        (player_y (player g') - player_y p)²) = Rabs (speed p) /\
  (is_active (waypoint g') = false <->
   RawTurtle.distance (turtle (player g')) (wp_x w) (wp_y w) < speed p) /\
  (wp_x (waypoint g'), wp_y (waypoint g')) = (wp_x w, wp_y w) /\
  (is_started g', canvas g') = (is_started g, canvas g).
Proof.
  intros Hact Hhome p w g' dx dy.
  pose proof (player_update_turtle g) as Ht.
  pose proof (player_update_waypoint g) as Hw.
  pose proof (player_update_signal g) as Hs.
  rewrite Hact in Ht, Hw. rewrite Hhome in Hs.
  fold g' p w in Ht, Hw, Hs.
  assert (Hxy : player_x (player g') = player_x p + speed p * cos (Py.atan2 dy dx)
                /\ player_y (player g') = player_y p + speed p * sin (Py.atan2 dy dx)).
  { unfold player_x, player_y. rewrite Ht. split; reflexivity. }
  destruct Hxy as [Hx Hy].
  split; [|split; [|split; [|split; [|split]]]].
  - rewrite Hx. destruct (Req_dec dx 0) as [Hdx | Hdx];
      [destruct (Req_dec dy 0) as [Hdy | Hdy]|].
    + rewrite Hdx, Hdy. unfold Rsqr. rewrite Rmult_0_l, Rplus_0_l, sqrt_0. ring.
    + rewrite cos_atan2 by auto. field. apply Rgt_not_eq, norm_pos; auto.
    + rewrite cos_atan2 by auto. field. apply Rgt_not_eq, norm_pos; auto.
  - rewrite Hy. destruct (Req_dec dx 0) as [Hdx | Hdx];
      [destruct (Req_dec dy 0) as [Hdy | Hdy]|].
    + rewrite Hdx, Hdy. unfold Rsqr. rewrite Rmult_0_l, Rplus_0_l, sqrt_0. ring.
    + rewrite sin_atan2 by auto. field. apply Rgt_not_eq, norm_pos; auto.
    + rewrite sin_atan2 by auto. field. apply Rgt_not_eq, norm_pos; auto.
  - unfold player_x, player_y. rewrite Ht.
    apply (forward_moves_by_distance
             (RawTurtle.setheading (turtle p)
                (RawTurtle.towards (turtle p) (wp_x w) (wp_y w)))).
  - rewrite Hw, Ht.
    match goal with |- context [Py.ltb ?a ?b] => destruct (Py.ltb a b) eqn:E end.
    + apply ltb_true in E. split; [intros _; exact E | reflexivity].
    + apply ltb_false in E. split; [intros Habs | intros Hlt; lra].
      unfold w in Habs. rewrite Hact in Habs. discriminate.
  - rewrite Hw.
    match goal with |- context [Py.ltb ?a ?b] => destruct (Py.ltb a b) end;
      reflexivity.
  - exact Hs.
Qed.

(** An instance, which also shows that the player may stop short of the
    waypoint: from [(50, 250)] towards [(57, 250)] at speed 5 the player
    lands on [(55, 250)], and the waypoint is deactivated on that tick. *)
Lemma player_update_seeking_witness :
  player_x (player (player_update game_near_waypoint)) = 55 /\
  player_y (player (player_update game_near_waypoint)) = 250 /\
  is_active (waypoint (player_update game_near_waypoint)) = false /\
  wp_x (waypoint (player_update game_near_waypoint)) = 57.
Proof.
  assert (Hh : contains (home game_near_waypoint)
                 (player_x (player game_near_waypoint))
                 (player_y (player game_near_waypoint)) = false).
  { destruct (contains _ _ _) eqn:E; [|reflexivity].
    unfold contains in E.
    cbn [game_near_waypoint example_game home home_x home_y home_size player
         player_x player_y turtle RawTurtle.xcor RawTurtle.ycor] in E.
    py_tests. lra. }
  destruct (player_update_seeking game_near_waypoint eq_refl Hh)
    as (Hx & Hy & _ & Hd & Hw & _).
  cbn [game_near_waypoint example_game waypoint player speed player_x
       player_y turtle RawTurtle.xcor RawTurtle.ycor wp_x wp_y] in Hx, Hy, Hd, Hw.
  replace ((57 - 50)² + (250 - 250)²) with (7²) in Hx, Hy
    by (unfold Rsqr; lra).
  rewrite sqrt_Rsqr in Hx, Hy by lra.
  assert (Hx' : player_x (player (player_update game_near_waypoint)) = 55) by lra.
  assert (Hy' : player_y (player (player_update game_near_waypoint)) = 250) by lra.
  split; [exact Hx'|]. split; [exact Hy'|].
  split; [|now injection Hw].
  apply Hd. unfold RawTurtle.distance. unfold player_x in Hx'.
  unfold player_y in Hy'. rewrite Hx', Hy'.
  replace ((57 - 55)² + (250 - 250)²) with (2²) by (unfold Rsqr; lra).
  rewrite sqrt_Rsqr by lra. lra.
Defined.

(** ** Expiry *)

Lemma teardowns_call (g : Game) (k : canvas_call) :
  teardowns (set_canvas g (call (canvas g) k)) =
  (teardowns g + (if is_delete k then 1 else 0))%nat.
Proof.
  unfold teardowns. cbn [set_canvas canvas call calls].
  rewrite filter_app, length_app. cbn [filter].
  destruct (is_delete k); reflexivity.
Qed.

Lemma teardowns_game_over_lose (g : Game) :
  teardowns (game_over_lose g) = teardowns g.
Proof.
  unfold teardowns. rewrite game_over_lose_effect. cbn [canvas calls].
  rewrite filter_app, length_app. cbn. lia.
Qed.

Lemma teardowns_if_lose (b : bool) (g : Game) :
  teardowns (if b then game_over_lose g else g) = teardowns g.
Proof. destruct b; [apply teardowns_game_over_lose | reflexivity]. Qed.

Lemma fires_iff_delete (g g1 : Game) (a b : R) (i : option nat) :
  teardowns g1 = teardowns g ->
  fires_iff g
    (if Py.geb a b
     then set_canvas g1 (call (canvas g1) (canvas_delete i)) else g1)
    (a >= b).
Proof.
  intros H. unfold fires_iff. destruct (Py.geb a b) eqn:E.
  - apply geb_true in E. split; [|intros; contradiction].
    intros _. rewrite teardowns_call, H. cbn. lia.
  - apply geb_false in E. split; [intros; lra | intros _; exact H].
Qed.

(** The threshold of a Stalk enemy of a level from 0 on. *)
Lemma stalk_threshold (e : StalkEnemy.t) :
  (0 <= StalkEnemy.level e)%Z ->
  StalkEnemy.threshold e =
  Some (3000 * Zfloor (ln (IZR (StalkEnemy.level e + 1))))%Z.
Proof.
  intros Hl. unfold StalkEnemy.threshold, Py.log.
  assert (H1 : 1 <= IZR (StalkEnemy.level e + 1)) by (apply IZR_le; lia).
  destruct (Rlt_dec 0 (IZR (StalkEnemy.level e + 1))); [|lra].
  rewrite int_nonneg; [reflexivity|].
  rewrite <- ln_1. destruct H1 as [H1 | H1].
  - left. apply ln_increasing; lra.
  - rewrite <- H1. lra.
Qed.

(** The movement methods leave the creation time alone. *)
Lemma fencing_move_start_time (g : Game) (e : FencingEnemy.t) :
  Enemy.start_time (FencingEnemy.base (FencingEnemy.move g e)) =
  Enemy.start_time (FencingEnemy.base e).
Proof.
  unfold FencingEnemy.move, FencingEnemy.up, FencingEnemy.down,
    FencingEnemy.left, FencingEnemy.right.
  destruct (FencingEnemy.movement e);
    match goal with |- context [if ?c then _ else _] => destruct c end;
    reflexivity.
Qed.

Lemma random_walk_move_start_time (m : Movement) (g : Game)
    (e : RandomWalkEnemy.t) :
  Enemy.start_time (RandomWalkEnemy.base (RandomWalkEnemy.move m g e)) =
  Enemy.start_time (RandomWalkEnemy.base e).
Proof.
  unfold RandomWalkEnemy.move, RandomWalkEnemy.up, RandomWalkEnemy.down,
    RandomWalkEnemy.left, RandomWalkEnemy.right.
  destruct m;
    match goal with |- context [if ?c then _ else _] => destruct c end;
    reflexivity.
Qed.

(** One update of each variant, with the expiry test decided. *)
Lemma fencing_update_cases (now : R) (g : Game) (e : FencingEnemy.t) :
  let e1 := FencingEnemy.move g e in
  let g1 := if Enemy.hits_player g (FencingEnemy.base e1)
            then game_over_lose g else g in
  let b := FencingEnemy.base e1 in
  FencingEnemy.update now g e =
  if Py.geb (now - Enemy.start_time (FencingEnemy.base e)) 30
  then (set_canvas g1 (call (canvas g1) (canvas_delete (Enemy.id b))),
        FencingEnemy.set_base e1 (Enemy.set_y (Enemy.set_x b (-999)) (-999)))
  else (g1, e1).
Proof.
  cbv zeta. unfold FencingEnemy.update, FencingEnemy.delete.
  rewrite fencing_move_start_time. reflexivity.
Qed.

Lemma random_walk_update_cases (now : R) (g : Game) (e : RandomWalkEnemy.t) :
  let e1 := RandomWalkEnemy.move (RandomWalkEnemy.x_movement e) g e in
  let e2 := RandomWalkEnemy.move (RandomWalkEnemy.y_movement e1) g e1 in
  let g1 := if Enemy.hits_player g (RandomWalkEnemy.base e2)
            then game_over_lose g else g in
  let b := RandomWalkEnemy.base e2 in
  RandomWalkEnemy.update now g e =
  if Py.geb (now - Enemy.start_time (RandomWalkEnemy.base e)) 5
  then (set_canvas g1 (call (canvas g1) (canvas_delete (Enemy.id b))),
        RandomWalkEnemy.set_base e2 (Enemy.set_y (Enemy.set_x b (-999)) (-999)))
  else (g1, e2).
Proof.
  cbv zeta. unfold RandomWalkEnemy.update, RandomWalkEnemy.delete.
  rewrite !random_walk_move_start_time. reflexivity.
Qed.

(** The position of a Stalk enemy after its pursuit step. *)
Lemma stalk_update_cases (now : R) (g : Game) (e : StalkEnemy.t) :
  (0 <= StalkEnemy.level e)%Z ->
  let b := StalkEnemy.base e in
  let angle := Py.atan2 (player_y (player g) - Enemy.y b)
                        (player_x (player g) - Enemy.x b) in
  let b1 := Enemy.set_y
              (Enemy.set_x b (Enemy.x b + cos angle * 2 * StalkEnemy.speed e))
              (Enemy.y b + sin angle * StalkEnemy.speed e) in
  let g1 := if Enemy.hits_player g b1 then game_over_lose g else g in
  let th := (3000 * Zfloor (ln (IZR (StalkEnemy.level e + 1))))%Z in
  StalkEnemy.update now g e =
  Some (if Py.geb (now - Enemy.start_time b) (IZR th)
        then (set_canvas g1 (call (canvas g1) (canvas_delete (Enemy.id b))),
              StalkEnemy.set_base e (Enemy.set_y (Enemy.set_x b1 (-999)) (-999)))
        else (g1, StalkEnemy.set_base e b1)).
Proof.
  intros Hl. cbv zeta. unfold StalkEnemy.update, StalkEnemy.delete.
  replace (StalkEnemy.threshold (StalkEnemy.set_base e _))
    with (StalkEnemy.threshold e) by reflexivity.
  rewrite stalk_threshold by exact Hl.
  cbn [StalkEnemy.set_base StalkEnemy.base Enemy.set_x Enemy.set_y
       Enemy.start_time Enemy.id Enemy.x Enemy.y].
  match goal with |- context [Py.geb ?a ?b] => destruct (Py.geb a b) end;
    reflexivity.
Qed.

Lemma fst_if {A B} (c : bool) (p q : A * B) :
  fst (if c then p else q) = if c then fst p else fst q.
Proof. destruct c; reflexivity. Qed.

Lemma snd_if {A B} (c : bool) (p q : A * B) :
  snd (if c then p else q) = if c then snd p else snd q.
Proof. destruct c; reflexivity. Qed.

(** On each tick the expiry of a Fencing enemy fires exactly when 30 time
    units have elapsed. *)
Lemma fencing_update_fires (now : R) (g : Game) (e : FencingEnemy.t) :
  fires_iff g (fst (FencingEnemy.update now g e))
            (now - Enemy.start_time (FencingEnemy.base e) >= 30).
Proof.
  rewrite fencing_update_cases. cbv zeta. rewrite fst_if. cbn [fst].
  apply fires_iff_delete, teardowns_if_lose.
Qed.

Lemma fencing_update_start_time (now : R) (g : Game) (e : FencingEnemy.t) :
  Enemy.start_time (FencingEnemy.base (snd (FencingEnemy.update now g e))) =
  Enemy.start_time (FencingEnemy.base e).
Proof.
  rewrite fencing_update_cases. cbv zeta. rewrite snd_if. cbn [snd].
  destruct (Py.geb _ _); cbn [FencingEnemy.set_base FencingEnemy.base
    Enemy.set_x Enemy.set_y Enemy.start_time];
    apply fencing_move_start_time.
Qed.

Lemma random_walk_update_fires (now : R) (g : Game) (e : RandomWalkEnemy.t) :
  fires_iff g (fst (RandomWalkEnemy.update now g e))
            (now - Enemy.start_time (RandomWalkEnemy.base e) >= 5).
Proof.
  rewrite random_walk_update_cases. cbv zeta. rewrite fst_if. cbn [fst].
  apply fires_iff_delete, teardowns_if_lose.
Qed.

Lemma random_walk_update_start_time (now : R) (g : Game)
    (e : RandomWalkEnemy.t) :
  Enemy.start_time (RandomWalkEnemy.base (snd (RandomWalkEnemy.update now g e)))
  = Enemy.start_time (RandomWalkEnemy.base e).
Proof.
  rewrite random_walk_update_cases. cbv zeta. rewrite snd_if. cbn [snd].
  destruct (Py.geb _ _); cbn [RandomWalkEnemy.set_base RandomWalkEnemy.base
    Enemy.set_x Enemy.set_y Enemy.start_time];
    rewrite !random_walk_move_start_time; reflexivity.
Qed.

Lemma stalk_update_fires (now : R) (g : Game) (e : StalkEnemy.t) :
  (0 <= StalkEnemy.level e)%Z ->
  exists g' e',
    StalkEnemy.update now g e = Some (g', e') /\
    fires_iff g g'
      (now - Enemy.start_time (StalkEnemy.base e)
       >= IZR (3000 * Zfloor (ln (IZR (StalkEnemy.level e + 1))))) /\
    Enemy.start_time (StalkEnemy.base e') = Enemy.start_time (StalkEnemy.base e) /\
    StalkEnemy.level e' = StalkEnemy.level e.
Proof.
  intros Hl. rewrite stalk_update_cases by exact Hl. cbv zeta.
  eexists. eexists. split; [apply f_equal, surjective_pairing|].
  rewrite fst_if, snd_if. cbn [fst snd]. split; [|split].
  - apply fires_iff_delete, teardowns_if_lose.
  - destruct (Py.geb _ _); reflexivity.
  - destruct (Py.geb _ _); reflexivity.
Qed.

(** A Laser: nothing but a change of state while inactive; once active,
    the expiry fires exactly when [2*speed + delay] has elapsed. *)
Lemma laser_update_inactive (now : R) (g : Game) (e : LaserEnemy.t) :
  LaserEnemy.state e = Inactive ->
  LaserEnemy.update now g e =
  Some (g, if Py.geb (now - Enemy.start_time (LaserEnemy.base e))
                     (LaserEnemy.speed e + LaserEnemy.delay e)
           then LaserEnemy.set_state e Active else e).
Proof.
  intros Hs. unfold LaserEnemy.update, LaserEnemy.inactive. rewrite Hs.
  destruct (Py.geb _ _); reflexivity.
Qed.

Lemma laser_update_active (now : R) (g : Game) (e : LaserEnemy.t) (d : R) :
  LaserEnemy.state e = Active ->
  LaserEnemy.direction e = Some d ->
  let b := LaserEnemy.base e in
  let hit := Py.leb (Py.fabs (Py.atan2 (player_y (player g) - Enemy.y b)
                                       (player_x (player g) - Enemy.x b) - d))
                    0.01 in
  let g0 := set_canvas g (call (canvas g)
              (itemconfigure_fill (Enemy.id b) (Enemy.color b))) in
  let g1 := if hit then game_over_lose g0 else g0 in
  LaserEnemy.update now g e =
  Some (if Py.geb (now - Enemy.start_time b)
                  (2 * LaserEnemy.speed e + LaserEnemy.delay e)
        then (set_canvas g1 (call (canvas g1) (canvas_delete (Enemy.id b))),
              LaserEnemy.set_direction e (-999))
        else (g1, e)).
Proof.
  intros Hs Hd. cbv zeta.
  unfold LaserEnemy.update, LaserEnemy.active, LaserEnemy.hits_line.
  rewrite Hs, Hd. unfold LaserEnemy.delete.
  cbn [set_canvas player LaserEnemy.set_direction LaserEnemy.base].
  reflexivity.
Qed.

Lemma laser_update_fires (now : R) (g : Game) (e : LaserEnemy.t) (d : R) :
  LaserEnemy.state e = Active ->
  LaserEnemy.direction e = Some d ->
  exists g' e',
    LaserEnemy.update now g e = Some (g', e') /\
    fires_iff g g'
      (now - Enemy.start_time (LaserEnemy.base e)
       >= 2 * LaserEnemy.speed e + LaserEnemy.delay e) /\
    LaserEnemy.base e' = LaserEnemy.base e /\
    LaserEnemy.speed e' = LaserEnemy.speed e /\
    LaserEnemy.delay e' = LaserEnemy.delay e /\
    LaserEnemy.state e' = Active.
Proof.
  intros Hs Hd. rewrite (laser_update_active now g e d Hs Hd). cbv zeta.
  eexists. eexists. split; [apply f_equal, surjective_pairing|].
  rewrite fst_if, snd_if. cbn [fst snd]. split.
  - apply fires_iff_delete. rewrite teardowns_if_lose, teardowns_call.
    cbn. lia.
  - destruct (Py.geb _ _); cbn [LaserEnemy.set_direction LaserEnemy.base
      LaserEnemy.speed LaserEnemy.delay LaserEnemy.state]; auto.
Qed.

Lemma demo_update_never_fires (g : Game) (e : DemoEnemy.t) :
  teardowns (fst (DemoEnemy.update g e)) = teardowns g.
Proof. unfold DemoEnemy.update. cbn [fst]. apply teardowns_if_lose. Qed.

(** A Straight enemy expires by position: its item is removed on a tick
    that ends outside the canvas. *)
Lemma straight_update_fires (g : Game) (e : StraightEnemy.t) :
  let b := StraightEnemy.base (snd (StraightEnemy.update g e)) in
  fires_iff g (fst (StraightEnemy.update g e))
    (Enemy.x b > IZR (winfo_width (canvas g)) \/ Enemy.x b < 0 \/
     Enemy.y b > IZR (winfo_height (canvas g)) \/ Enemy.y b < 0).
Proof.
  cbv zeta. unfold StraightEnemy.update, StraightEnemy.delete.
  set (b1 := Enemy.set_y _ _).
  set (g1 := if Enemy.hits_player g b1 then game_over_lose g else g).
  cbn [StraightEnemy.set_base StraightEnemy.base].
  assert (Hc : canvas g1 = canvas g \/
               (winfo_width (canvas g1) = winfo_width (canvas g) /\
                winfo_height (canvas g1) = winfo_height (canvas g))).
  { unfold g1. destruct (Enemy.hits_player g b1); [right | left]; auto. }
  assert (Hw : winfo_width (canvas g1) = winfo_width (canvas g))
    by (destruct Hc as [-> | [? ?]]; auto).
  assert (Hh : winfo_height (canvas g1) = winfo_height (canvas g))
    by (destruct Hc as [-> | [? ?]]; auto).
  assert (Ht : teardowns g1 = teardowns g) by apply teardowns_if_lose.
  rewrite Hw, Hh. unfold fires_iff.
  match goal with |- context [if ?c then _ else _] => destruct c eqn:E end;
    cbn [fst snd StraightEnemy.base].
  - split; [|intros Hn; exfalso; apply Hn].
    + intros _. rewrite teardowns_call, Ht. cbn. lia.
    + cbn [StraightEnemy.set_base StraightEnemy.base].
      apply orb_true_iff in E. destruct E as [E | E];
        [apply orb_true_iff in E; destruct E as [E | E];
         [apply orb_true_iff in E; destruct E as [E | E]|]|].
      * apply gtb_true in E. auto.
      * apply ltb_true in E. auto.
      * apply gtb_true in E. auto.
      * apply ltb_true in E. auto.
  - split; [|intros _; exact Ht].
    apply orb_false_iff in E. destruct E as [E E4].
    apply orb_false_iff in E. destruct E as [E E3].
    apply orb_false_iff in E. destruct E as [E1 E2].
    unfold Py.gtb in E1, E3. py_tests.
    cbn [StraightEnemy.set_base StraightEnemy.base].
    intros [H | [H | [H | H]]]; lra.
Qed.

(** C3, as the code has it: for the variants that expire by elapsed time
    (Stalk, Fencing, RandomWalk, and Laser once it is active) the expiry
    action fires on a tick if and only if the time elapsed since
    [start_time] has reached the threshold of the variant on that tick, so
    it never fires below the threshold; the update keeps [start_time], so
    it fires again on every later tick rather than once. An inactive Laser
    and a Demo enemy never fire it, and a Straight enemy fires it by
    position, on a tick that ends outside the canvas. *)
Theorem expiry_fires_on_each_tick_past_threshold :
  (forall now g e, (0 <= StalkEnemy.level e)%Z ->
     exists g' e',
       StalkEnemy.update now g e = Some (g', e') /\
       fires_iff g g'
         (now - Enemy.start_time (StalkEnemy.base e)
          >= IZR (3000 * Zfloor (ln (IZR (StalkEnemy.level e + 1))))) /\
       Enemy.start_time (StalkEnemy.base e')
         = Enemy.start_time (StalkEnemy.base e) /\
       StalkEnemy.level e' = StalkEnemy.level e) /\
  (forall now g e,
     fires_iff g (fst (FencingEnemy.update now g e))
       (now - Enemy.start_time (FencingEnemy.base e) >= 30) /\
     Enemy.start_time (FencingEnemy.base (snd (FencingEnemy.update now g e)))
       = Enemy.start_time (FencingEnemy.base e)) /\
  (forall now g e,
     fires_iff g (fst (RandomWalkEnemy.update now g e))
       (now - Enemy.start_time (RandomWalkEnemy.base e) >= 5) /\
     Enemy.start_time
       (RandomWalkEnemy.base (snd (RandomWalkEnemy.update now g e)))
       = Enemy.start_time (RandomWalkEnemy.base e)) /\
  (forall now g e d,
     LaserEnemy.state e = Active -> LaserEnemy.direction e = Some d ->
     exists g' e',
       LaserEnemy.update now g e = Some (g', e') /\
       fires_iff g g'
         (now - Enemy.start_time (LaserEnemy.base e)
          >= 2 * LaserEnemy.speed e + LaserEnemy.delay e) /\
       LaserEnemy.base e' = LaserEnemy.base e /\
       LaserEnemy.speed e' = LaserEnemy.speed e /\
       LaserEnemy.delay e' = LaserEnemy.delay e /\
       LaserEnemy.state e' = Active) /\
  (forall now g e,
     LaserEnemy.state e = Inactive ->
     exists e', LaserEnemy.update now g e = Some (g, e')) /\
  (forall g e, teardowns (fst (DemoEnemy.update g e)) = teardowns g) /\
  (forall g e,
     let b := StraightEnemy.base (snd (StraightEnemy.update g e)) in
     fires_iff g (fst (StraightEnemy.update g e))
       (Enemy.x b > IZR (winfo_width (canvas g)) \/ Enemy.x b < 0 \/
        Enemy.y b > IZR (winfo_height (canvas g)) \/ Enemy.y b < 0)).
Proof.
  split; [exact stalk_update_fires|].
  split; [intros; split;
          [apply fencing_update_fires | apply fencing_update_start_time]|].
  split; [intros; split;
          [apply random_walk_update_fires
          | apply random_walk_update_start_time]|].
  split; [exact laser_update_fires|].
  split; [intros now g e Hs; rewrite laser_update_inactive by exact Hs;
          eexists; reflexivity|].
  split; [exact demo_update_never_fires | exact straight_update_fires].
Qed.

(** An instance: the Fencing enemy created at time 0 fires its expiry on
    the tick at time 30. *)
Lemma expiry_fires_on_each_tick_past_threshold_witness :
  teardowns (fst (FencingEnemy.update 30 game_idle fencing_example)) = 1%nat.
Proof.
  destruct expiry_fires_on_each_tick_past_threshold as (_ & Hf & _).
  destruct (Hf 30 game_idle fencing_example) as [[Hfire _] _].
  rewrite Hfire; [reflexivity|].
  cbn [fencing_example FencingEnemy.base Enemy.start_time]. lra.
Defined.

(** C3 fails as stated: the expiry of one Fencing enemy fires on the tick
    at time 30 and again on the tick at time 31. *)
Lemma fencing_expiry_fires_twice :
  teardowns game_idle = 0%nat /\
  teardowns (fst fencing_first_tick) = 1%nat /\
  teardowns (fst fencing_second_tick) = 2%nat.
Proof.
  assert (H1 : teardowns (fst fencing_first_tick) = 1%nat).
  { unfold fencing_first_tick.
    destruct (fencing_update_fires 30 game_idle fencing_example) as [Hfire _].
    rewrite Hfire; [reflexivity|].
    cbn [fencing_example FencingEnemy.base Enemy.start_time]. lra. }
  split; [reflexivity|]. split; [exact H1|].
  unfold fencing_second_tick.
  destruct (fencing_update_fires 31 (fst fencing_first_tick)
              (snd fencing_first_tick)) as [Hfire _].
  rewrite Hfire, H1; [reflexivity|].
  unfold fencing_first_tick at 1. rewrite fencing_update_start_time.
  cbn [fencing_example FencingEnemy.base Enemy.start_time]. lra.
Qed.

(** The threshold of a Stalk enemy of level 2 is 3000: [ln 3] lies
    between 1 and 2. *)
Lemma ln_3_floor : Zfloor (ln 3) = 1%Z.
Proof.
  apply Zfloor_eq. split.
  - destruct exp_le_3 as [H | H].
    + left. rewrite <- (ln_exp 1). apply ln_increasing; [apply exp_pos | exact H].
    + rewrite <- H, ln_exp. lra.
  - rewrite <- (ln_exp (1 + 1)). apply ln_increasing; [lra|].
    rewrite exp_plus. pose proof (exp_ineq1 1 ltac:(lra)). nra.
Qed.

(** ** After the expiry *)

Lemma is_started_if_lose (b : bool) (g : Game) :
  is_started (if b then game_over_lose g else g)
  = if b then false else is_started g.
Proof. destruct b; reflexivity. Qed.

Lemma fencing_update_expired (now : R) (g : Game) (e : FencingEnemy.t) :
  now - Enemy.start_time (FencingEnemy.base e) >= 30 ->
  let r := FencingEnemy.update now g e in
  let moved := FencingEnemy.move g e in
  at_sentinel (FencingEnemy.base (snd r)) /\
  FencingEnemy.movement (snd r) = FencingEnemy.movement moved /\
  is_started (fst r) =
    (if Enemy.hits_player g (FencingEnemy.base moved)
     then false else is_started g) /\
  Enemy.start_time (FencingEnemy.base (snd r))
    = Enemy.start_time (FencingEnemy.base e).
Proof.
  intros H. cbv zeta. rewrite fencing_update_cases. cbv zeta.
  apply geb_true in H. rewrite H. cbn [fst snd].
  split; [split; reflexivity|]. split; [reflexivity|].
  split; [apply is_started_if_lose|].
  apply fencing_move_start_time.
Qed.

Lemma random_walk_update_expired (now : R) (g : Game) (e : RandomWalkEnemy.t) :
  now - Enemy.start_time (RandomWalkEnemy.base e) >= 5 ->
  let r := RandomWalkEnemy.update now g e in
  let e1 := RandomWalkEnemy.move (RandomWalkEnemy.x_movement e) g e in
  let moved := RandomWalkEnemy.move (RandomWalkEnemy.y_movement e1) g e1 in
  at_sentinel (RandomWalkEnemy.base (snd r)) /\
  RandomWalkEnemy.x_movement (snd r) = RandomWalkEnemy.x_movement moved /\
  RandomWalkEnemy.y_movement (snd r) = RandomWalkEnemy.y_movement moved /\
  is_started (fst r) =
    (if Enemy.hits_player g (RandomWalkEnemy.base moved)
     then false else is_started g) /\
  Enemy.start_time (RandomWalkEnemy.base (snd r))
    = Enemy.start_time (RandomWalkEnemy.base e).
Proof.
  intros H. cbv zeta. rewrite random_walk_update_cases. cbv zeta.
  apply geb_true in H. rewrite H. cbn [fst snd].
  split; [split; reflexivity|]. split; [reflexivity|]. split; [reflexivity|].
  split; [apply is_started_if_lose|].
  cbn [RandomWalkEnemy.set_base RandomWalkEnemy.base Enemy.set_x Enemy.set_y
       Enemy.start_time].
  rewrite !random_walk_move_start_time. reflexivity.
Qed.

Lemma stalk_update_expired (now : R) (g : Game) (e : StalkEnemy.t) :
  (0 <= StalkEnemy.level e)%Z ->
  now - Enemy.start_time (StalkEnemy.base e)
    >= IZR (3000 * Zfloor (ln (IZR (StalkEnemy.level e + 1)))) ->
  let b := StalkEnemy.base e in
  let angle := Py.atan2 (player_y (player g) - Enemy.y b)
                        (player_x (player g) - Enemy.x b) in
  let moved := Enemy.set_y
                 (Enemy.set_x b (Enemy.x b + cos angle * 2 * StalkEnemy.speed e))
                 (Enemy.y b + sin angle * StalkEnemy.speed e) in
  exists g' e',
    StalkEnemy.update now g e = Some (g', e') /\
    at_sentinel (StalkEnemy.base e') /\
    is_started g' =
      (if Enemy.hits_player g moved then false else is_started g) /\
    Enemy.start_time (StalkEnemy.base e') = Enemy.start_time b /\
    StalkEnemy.level e' = StalkEnemy.level e.
Proof.
  intros Hl H. cbv zeta. rewrite stalk_update_cases by exact Hl. cbv zeta.
  apply geb_true in H. rewrite H.
  eexists. eexists. split; [reflexivity|].
  split; [split; reflexivity|].
  split; [apply is_started_if_lose|]. split; reflexivity.
Qed.

(** C10: the expiry does not remove the enemy. On every tick at which the
    elapsed time of a Stalk, Fencing or RandomWalk enemy has reached its
    threshold, [update] returns the enemy, having run its movement (the
    movement selectors are those left by the move) and its collision test
    (at the position moved to), with the position reset to
    [(-999, -999)]; [start_time] is kept, so the same holds on every
    later tick. *)
Theorem expired_enemy_ends_tick_at_sentinel :
  (forall now g e,
     (0 <= StalkEnemy.level e)%Z ->
     now - Enemy.start_time (StalkEnemy.base e)
       >= IZR (3000 * Zfloor (ln (IZR (StalkEnemy.level e + 1)))) ->
     let b := StalkEnemy.base e in
     let angle := Py.atan2 (player_y (player g) - Enemy.y b)
                           (player_x (player g) - Enemy.x b) in
     let moved :=
       Enemy.set_y
         (Enemy.set_x b (Enemy.x b + cos angle * 2 * StalkEnemy.speed e))
         (Enemy.y b + sin angle * StalkEnemy.speed e) in
     exists g' e',
       StalkEnemy.update now g e = Some (g', e') /\
       at_sentinel (StalkEnemy.base e') /\
       is_started g' =
         (if Enemy.hits_player g moved then false else is_started g) /\
       Enemy.start_time (StalkEnemy.base e') = Enemy.start_time b /\
       StalkEnemy.level e' = StalkEnemy.level e) /\
  (forall now g e,
     now - Enemy.start_time (FencingEnemy.base e) >= 30 ->
     let r := FencingEnemy.update now g e in
     let moved := FencingEnemy.move g e in
     at_sentinel (FencingEnemy.base (snd r)) /\
     FencingEnemy.movement (snd r) = FencingEnemy.movement moved /\
     is_started (fst r) =
       (if Enemy.hits_player g (FencingEnemy.base moved)
        then false else is_started g) /\
     Enemy.start_time (FencingEnemy.base (snd r))
       = Enemy.start_time (FencingEnemy.base e)) /\
  (forall now g e,
     now - Enemy.start_time (RandomWalkEnemy.base e) >= 5 ->
     let r := RandomWalkEnemy.update now g e in
     let e1 := RandomWalkEnemy.move (RandomWalkEnemy.x_movement e) g e in
     let moved := RandomWalkEnemy.move (RandomWalkEnemy.y_movement e1) g e1 in
     at_sentinel (RandomWalkEnemy.base (snd r)) /\
     RandomWalkEnemy.x_movement (snd r) = RandomWalkEnemy.x_movement moved /\
     RandomWalkEnemy.y_movement (snd r) = RandomWalkEnemy.y_movement moved /\
     is_started (fst r) =
       (if Enemy.hits_player g (RandomWalkEnemy.base moved)
        then false else is_started g) /\
     Enemy.start_time (RandomWalkEnemy.base (snd r))
       = Enemy.start_time (RandomWalkEnemy.base e)).
Proof.
  split; [exact stalk_update_expired|].
  split; [exact fencing_update_expired | exact random_walk_update_expired].
Qed.

(** Instances: the example enemies of each variant, created at time 0,
    end a tick past their threshold at the sentinel position. *)
Lemma expired_enemy_ends_tick_at_sentinel_witness :
  (exists g' e',
     StalkEnemy.update 3000 game_idle stalk_example = Some (g', e') /\
     at_sentinel (StalkEnemy.base e')) /\
  at_sentinel
    (FencingEnemy.base (snd (FencingEnemy.update 30 game_idle fencing_example)))
  /\
  at_sentinel
    (RandomWalkEnemy.base
       (snd (RandomWalkEnemy.update 7 game_idle random_walk_example))).
Proof.
  destruct expired_enemy_ends_tick_at_sentinel as (Hs & Hf & Hr).
  split; [|split].
  - destruct (Hs 3000 game_idle stalk_example) as (g' & e' & Hu & Hat & _).
    + cbn [stalk_example StalkEnemy.level]. lia.
    + cbn [stalk_example StalkEnemy.level StalkEnemy.base Enemy.start_time].
      change (2 + 1)%Z with 3%Z. rewrite ln_3_floor.
      change (3000 * 1)%Z with 3000%Z. lra.
    + exists g', e'. split; assumption.
  - apply (Hf 30 game_idle fencing_example).
    cbn [fencing_example FencingEnemy.base Enemy.start_time]. lra.
  - apply (Hr 7 game_idle random_walk_example).
    cbn [random_walk_example RandomWalkEnemy.base Enemy.start_time]. lra.
Defined.

(** ** The laser *)

Lemma lose_signals_call (g : Game) (k : canvas_call) :
  lose_signals (set_canvas g (call (canvas g) k)) =
  (lose_signals g + (if is_lose_banner k then 1 else 0))%nat.
Proof.
  unfold lose_signals. cbn [set_canvas canvas call calls].
  rewrite filter_app, length_app. cbn [filter].
  destruct (is_lose_banner k); reflexivity.
Qed.

Lemma lose_signals_game_over_lose (g : Game) :
  lose_signals (game_over_lose g) = S (lose_signals g).
Proof.
  unfold lose_signals. rewrite game_over_lose_effect. cbn [canvas calls].
  rewrite filter_app, length_app. cbn. lia.
Qed.

Lemma signals_lose_iff_hit (g g0 : Game) (a b : R) :
  lose_signals g0 = lose_signals g ->
  is_started g0 = is_started g ->
  signals_lose_iff g (if Py.leb a b then game_over_lose g0 else g0) (a <= b).
Proof.
  intros Hl Hs. unfold signals_lose_iff. destruct (Py.leb a b) eqn:E.
  - apply leb_true in E. split; [|intros; contradiction].
    intros _. rewrite lose_signals_game_over_lose, Hl. split; reflexivity.
  - apply leb_false in E. split; [intros; lra|]. intros _. split; assumption.
Qed.

(** C8: a Laser has two phases. While inactive it makes no collision test
    and changes nothing as long as the elapsed time is below
    [speed + delay]; on a tick at which the elapsed time has reached
    [speed + delay] it becomes active, its state is [Active] after the
    tick, and nothing else of it or of the game changes. Once active, a tick signals
    game-lost exactly when the bearing from the (unchanged) origin of the
    laser to the player is within 0.01 radians of its direction, and the
    laser is torn down exactly when the elapsed time has reached
    [2*speed + delay]. *)
Theorem laser_two_phases :
  (forall now g e,
     LaserEnemy.state e = Inactive ->
     now - Enemy.start_time (LaserEnemy.base e)
       < LaserEnemy.speed e + LaserEnemy.delay e ->
     LaserEnemy.update now g e = Some (g, e)) /\
  (forall now g e,
     LaserEnemy.state e = Inactive ->
     now - Enemy.start_time (LaserEnemy.base e)
       >= LaserEnemy.speed e + LaserEnemy.delay e ->
     exists e',
       LaserEnemy.update now g e = Some (g, e') /\
       LaserEnemy.state e' = Active /\
       LaserEnemy.base e' = LaserEnemy.base e /\
       LaserEnemy.level e' = LaserEnemy.level e /\
       LaserEnemy.speed e' = LaserEnemy.speed e /\
       LaserEnemy.direction e' = LaserEnemy.direction e /\
       LaserEnemy.delay e' = LaserEnemy.delay e) /\
  (forall now g e d,
     LaserEnemy.state e = Active ->
     LaserEnemy.direction e = Some d ->
     let b := LaserEnemy.base e in
     let bearing := Py.atan2 (player_y (player g) - Enemy.y b)
                             (player_x (player g) - Enemy.x b) in
     let expired := now - Enemy.start_time b
                    >= 2 * LaserEnemy.speed e + LaserEnemy.delay e in
     exists g' e',
       LaserEnemy.update now g e = Some (g', e') /\
       signals_lose_iff g g' (Rabs (bearing - d) <= 0.01) /\
       fires_iff g g' expired /\
       (expired -> LaserEnemy.direction e' = Some (-999)) /\
       (~ expired -> LaserEnemy.direction e' = Some d) /\
       LaserEnemy.base e' = b /\
       LaserEnemy.state e' = Active).
Proof.
  split; [|split].
  - intros now g e Hs Hlt. rewrite laser_update_inactive by exact Hs.
    apply geb_false in Hlt. rewrite Hlt. reflexivity.
  - intros now g e Hs Hge. rewrite laser_update_inactive by exact Hs.
    apply geb_true in Hge. rewrite Hge.
    exists (LaserEnemy.set_state e Active). repeat split.
  - intros now g e d Hs Hd. cbv zeta.
    rewrite (laser_update_active now g e d Hs Hd). cbv zeta.
    eexists. eexists. split; [apply f_equal, surjective_pairing|].
    rewrite fst_if, snd_if. cbn [fst snd].
    set (g0 := set_canvas g _).
    set (hit := Py.leb _ _).
    assert (Hl0 : lose_signals g0 = lose_signals g).
    { unfold g0. rewrite lose_signals_call. cbn. lia. }
    assert (Hsig : signals_lose_iff g (if hit then game_over_lose g0 else g0)
                     (Rabs (Py.atan2 (player_y (player g)
                                      - Enemy.y (LaserEnemy.base e))
                                     (player_x (player g)
                                      - Enemy.x (LaserEnemy.base e)) - d)
                      <= 0.01)).
    { apply signals_lose_iff_hit; [exact Hl0 | reflexivity]. }
    split; [|split].
    + destruct (Py.geb _ _); [|exact Hsig].
      unfold signals_lose_iff in *. rewrite lose_signals_call. cbn [is_delete
        is_lose_banner set_canvas is_started]. rewrite Nat.add_0_r. exact Hsig.
    + apply fires_iff_delete. rewrite teardowns_if_lose. unfold g0.
      rewrite teardowns_call. cbn. lia.
    + destruct (Py.geb _ _) eqn:E.
      * apply geb_true in E. repeat split; auto. intros; contradiction.
      * apply geb_false in E. repeat split; auto. intros; lra.
Qed.

(** Instances: the example laser, created at time 0 with speed one half,
    is left alone by a tick at time 0.1 and is active, with its
    direction kept, after a tick at time 0.6; an active laser aimed at the player signals game-lost, and is not
    torn down before time 1. *)
Lemma laser_two_phases_witness :
  LaserEnemy.update (1 / 10) game_idle laser_example
    = Some (game_idle, laser_example) /\
  (exists e',
     LaserEnemy.update (6 / 10) game_idle laser_example
       = Some (game_idle, e') /\
     LaserEnemy.state e' = Active /\
     LaserEnemy.direction e' = Some 1) /\
  (exists g' e',
     LaserEnemy.update (6 / 10) game_idle laser_aimed_example = Some (g', e') /\
     lose_signals g' = 1%nat /\ is_started g' = false /\
     teardowns g' = 0%nat).
Proof.
  destruct laser_two_phases as (Hstay & Hgo & Hact). split; [|split].
  - apply Hstay; [reflexivity|].
    cbn [laser_example LaserEnemy.base LaserEnemy.speed LaserEnemy.delay
         Enemy.start_time]. lra.
  - destruct (Hgo (6 / 10) game_idle laser_example eq_refl)
      as (e' & Hu & Hst & _ & _ & _ & Hdir & _).
    { cbn [laser_example LaserEnemy.base LaserEnemy.speed LaserEnemy.delay
           Enemy.start_time]. lra. }
    exists e'. split; [exact Hu|]. split; [exact Hst | exact Hdir].
  - destruct (Hact (6 / 10) game_idle laser_aimed_example _ eq_refl eq_refl)
      as (g' & e' & Hu & [Hsig _] & [_ Hkeep] & _).
    exists g', e'. split; [exact Hu|].
    cbn [laser_aimed_example LaserEnemy.base LaserEnemy.speed LaserEnemy.delay
         Enemy.start_time Enemy.x Enemy.y game_idle example_game player
         player_x player_y turtle RawTurtle.xcor RawTurtle.ycor] in Hsig, Hkeep.
    destruct Hsig as [Hl Hst].
    { rewrite Rminus_diag, Rabs_R0. lra. }
    split; [exact Hl|]. split; [exact Hst|].
    rewrite Hkeep; [reflexivity | lra].
Defined.

(** A Laser that was torn down has the direction -999, which no bearing
    comes near: it never signals again. *)
Lemma laser_torn_down_never_hits (now : R) (g : Game) (e : LaserEnemy.t) :
  LaserEnemy.state e = Active ->
  LaserEnemy.direction e = Some (-999) ->
  exists g' e',
    LaserEnemy.update now g e = Some (g', e') /\
    lose_signals g' = lose_signals g /\ is_started g' = is_started g.
Proof.
  intros Hs Hd.
  destruct laser_update_fires with (1 := Hs) (2 := Hd) (now := now) (g := g)
    as (g' & e' & Hu & _).
  exists g', e'. split; [exact Hu|].
  rewrite (laser_update_active now g e _ Hs Hd) in Hu. cbv zeta in Hu.
  injection Hu as Hu.
  apply (f_equal fst) in Hu. rewrite fst_if in Hu. cbn [fst] in Hu.
  match type of Hu with context [Py.leb ?a ?b] =>
    assert (Hmiss : Py.leb a b = false) end.
  { apply leb_false. unfold Py.fabs.
    match goal with |- context [Py.atan2 ?y ?x] =>
      pose proof (atan2_range y x) as Hr end.
    pose proof PI_4. pose proof PI_RGT_0.
    rewrite Rabs_pos_eq; lra. }
  rewrite Hmiss in Hu. subst g'.
  destruct (Py.geb _ _).
  - rewrite lose_signals_call. cbn [is_lose_banner set_canvas is_started].
    rewrite lose_signals_call. cbn. split; [lia | reflexivity].
  - rewrite lose_signals_call. cbn. split; [lia | reflexivity].
Qed.

(** ** The enemy generator *)

Lemma log_base_defined (x b : R) :
  0 < x -> 1 < b -> Py.log_base x b = Some (ln x / ln b).
Proof.
  intros Hx Hb. unfold Py.log_base, Py.log.
  destruct (Rlt_dec 0 x); [|lra]. destruct (Rlt_dec 0 b); [|lra].
  assert (0 < ln b) by (rewrite <- ln_1; apply ln_increasing; lra).
  destruct (Req_dec_T (ln b) 0); [lra | reflexivity].
Qed.

Lemma ln_nonneg (x : R) : 1 <= x -> 0 <= ln x.
Proof.
  intros [H | H].
  - left. rewrite <- ln_1. apply ln_increasing; lra.
  - rewrite <- H, ln_1. lra.
Qed.

(** Floor and integer division by a positive integer commute. *)
Lemma Zfloor_div (x : R) (k : Z) :
  (0 < k)%Z -> (Zfloor x / k)%Z = Zfloor (x / IZR k).
Proof.
  intros Hk. symmetry. apply Zfloor_eq.
  pose proof (Zfloor_bound x) as [Hlo Hhi].
  pose proof (Z.div_mod (Zfloor x) k ltac:(lia)) as Hdm.
  pose proof (Z.mod_pos_bound (Zfloor x) k Hk) as [Hr0 Hr1].
  set (q := (Zfloor x / k)%Z) in *.
  assert (Hk' : 0 < IZR k) by (apply IZR_lt; exact Hk).
  assert (H1 : IZR k * IZR q <= IZR (Zfloor x)).
  { rewrite <- mult_IZR. apply IZR_le. lia. }
  assert (H2 : IZR (Zfloor x) + 1 <= IZR k * (IZR q + 1)).
  { replace (IZR k * (IZR q + 1)) with (IZR (k * q + k))
      by (rewrite plus_IZR, mult_IZR; ring).
    rewrite <- plus_IZR. apply IZR_le. lia. }
  split.
  - apply Rmult_le_reg_l with (IZR k); [exact Hk'|].
    replace (IZR k * (x / IZR k)) with x by (field; lra). lra.
  - apply Rmult_lt_reg_l with (IZR k); [exact Hk'|].
    replace (IZR k * (x / IZR k)) with x by (field; lra). lra.
Qed.

(** From level 1 on, the number of lasers of a round is
    [floor(log_15(level) * level / k)]. *)
Lemma laser_num_floor (lv : Z) :
  (1 <= lv)%Z ->
  let k := if (lv mod 10 =? 0)%Z then 3%Z else 5%Z in
  EnemyGenerator.laser_num lv
    = Some (Zfloor (ln (IZR lv) / ln 15 * IZR lv / IZR k)) /\
  (0 <= Zfloor (ln (IZR lv) / ln 15 * IZR lv / IZR k))%Z.
Proof.
  intros Hl k.
  assert (H1 : 1 <= IZR lv) by (apply IZR_le; exact Hl).
  assert (Hk : (0 < k)%Z) by (unfold k; destruct (lv mod 10 =? 0)%Z; lia).
  assert (Hk' : 0 < IZR k) by (apply IZR_lt; exact Hk).
  assert (H15 : 0 < ln 15) by (rewrite <- ln_1; apply ln_increasing; lra).
  pose proof (ln_nonneg _ H1) as Hln.
  assert (Hx : 0 <= ln (IZR lv) / ln 15 * IZR lv).
  { apply Rmult_le_pos; [|lra]. apply Rmult_le_pos; [exact Hln|].
    left. apply Rinv_0_lt_compat. exact H15. }
  unfold EnemyGenerator.laser_num. rewrite log_base_defined by lra.
  fold k. rewrite int_nonneg by exact Hx. rewrite Zfloor_div by exact Hk.
  split; [reflexivity|].
  apply Zfloor_lub. apply Rmult_le_pos; [exact Hx|].
  left. apply Rinv_0_lt_compat. exact Hk'.
Qed.

(** [random.choice] on a sequence that is not empty. *)
Lemma choice_succeeds {A} (l : list A) (r : Rng) :
  l <> [] ->
  exists a, choice l r = Some (a, mkRng (draws r) (S (cursor r))) /\ In a l.
Proof.
  intros Hne. unfold choice, next_draw.
  assert (Hlen : (List.length l <> 0)%nat) by (destruct l; [congruence | discriminate]).
  destruct (nth_error l (draws r (cursor r) mod List.length l)) as [a|] eqn:E.
  - exists a. split; [reflexivity|]. eapply nth_error_In. exact E.
  - apply nth_error_None in E.
    pose proof (Nat.mod_upper_bound (draws r (cursor r)) (List.length l) Hlen).
    lia.
Qed.

Lemma choice_in {A} (l : list A) (r r' : Rng) (a : A) :
  choice l r = Some (a, r') -> In a l.
Proof.
  unfold choice, next_draw.
  destruct (nth_error l _) eqn:E; [|discriminate].
  intros H. injection H as <- _. eapply nth_error_In. exact E.
Qed.

Lemma range_length (a b : Z) : List.length (Py.range a b) = Z.to_nat (b - a).
Proof. unfold Py.range. now rewrite length_map, length_seq. Qed.

Lemma range_in (a b z : Z) : In z (Py.range a b) <-> (a <= z < b)%Z.
Proof.
  unfold Py.range. rewrite in_map_iff. split.
  - intros (i & <- & Hi). apply in_seq in Hi. lia.
  - intros H. exists (Z.to_nat (z - a)). split; [lia|]. apply in_seq. lia.
Qed.

Lemma range_nonempty (a b : Z) : (a < b)%Z -> Py.range a b <> [].
Proof.
  intros H E. apply (f_equal (@List.length Z)) in E.
  rewrite range_length in E. cbn in E. lia.
Qed.

(** The constructors succeed from level 1 on. *)
Lemma fencing_init_succeeds (x0 y0 now size : R) (c : string) (lv : Z) (r : Rng) :
  (1 <= lv)%Z ->
  exists e r', FencingEnemy.init x0 y0 now size c lv r = Some (e, r').
Proof.
  intros Hl. unfold FencingEnemy.init, bind, lift, ret.
  rewrite log_base_defined; [|apply IZR_lt; lia | lra].
  destruct (choice_succeeds (Py.range 20 50) r) as (f & -> & _);
    [apply range_nonempty; lia|].
  eexists. eexists. reflexivity.
Qed.

Lemma random_walk_init_succeeds (x0 y0 now size : R) (c : string) (lv : Z)
    (r : Rng) :
  (1 <= lv)%Z ->
  exists e r', RandomWalkEnemy.init x0 y0 now size c lv r = Some (e, r') /\
               Enemy.size (RandomWalkEnemy.base e) = size.
Proof.
  intros Hl. unfold RandomWalkEnemy.init, bind, lift, ret.
  rewrite log_base_defined; [|apply IZR_lt; lia | lra].
  destruct (choice_succeeds (Py.range 0 360) r) as (d & -> & _);
    [apply range_nonempty; lia|].
  match goal with |- context [choice [Left; Right] ?r1] =>
    destruct (choice_succeeds [Left; Right] r1) as (mx & -> & _);
      [discriminate|] end.
  match goal with |- context [choice [Up; Down] ?r1] =>
    destruct (choice_succeeds [Up; Down] r1) as (my & -> & _);
      [discriminate|] end.
  eexists. eexists. split; reflexivity.
Qed.

Lemma straight_init_succeeds (x0 y0 now size : R) (c : string) (d lv : Z) :
  (1 <= lv)%Z ->
  exists e, StraightEnemy.init x0 y0 now size c d lv = Some e /\
            Enemy.size (StraightEnemy.base e) = size.
Proof.
  intros Hl. unfold StraightEnemy.init.
  rewrite log_base_defined; [|apply IZR_lt; lia | lra].
  eexists. split; reflexivity.
Qed.

(** The range of the floats and the power [1.01**level]. *)
Lemma pow_101_69 : 1.01 ^ 69 <= 2.
Proof. cbn [pow]. lra. Qed.

Lemma pow_101_70 : 2 < 1.01 ^ 70.
Proof. cbn [pow]. lra. Qed.

Lemma float_max_bounds : 2 ^ 1023 <= Py.float_max < 2 ^ 1024.
Proof.
  unfold Py.float_max.
  assert (H : 0 < 2 ^ 1023) by (apply pow_lt; lra).
  assert (H52 : 0 < / 2 ^ 52 <= 1).
  { assert (1 <= 2 ^ 52) by (apply pow_R1_Rle; lra).
    split; [apply Rinv_0_lt_compat; lra|].
    rewrite <- Rinv_1. apply Rinv_le_contravar; lra. }
  change (2 ^ 1024) with (2 * 2 ^ 1023). nra.
Qed.

Lemma powerRZ_101_gt_1 (k : Z) : (0 < k)%Z -> 1 < powerRZ 1.01 k.
Proof.
  intros Hk. destruct k as [|p|p]; try lia. cbn [powerRZ].
  apply Rlt_pow_R1; [lra | lia].
Qed.

Lemma powerRZ_101_increasing (a b : Z) :
  (a < b)%Z -> powerRZ 1.01 a < powerRZ 1.01 b.
Proof.
  intros Hab. replace b with (a + (b - a))%Z by lia.
  rewrite powerRZ_add by lra.
  pose proof (powerRZ_lt 1.01 a ltac:(lra)).
  pose proof (powerRZ_101_gt_1 (b - a) ltac:(lia)). nra.
Qed.

Lemma powerRZ_101_monotone (a b : Z) :
  (a <= b)%Z -> powerRZ 1.01 a <= powerRZ 1.01 b.
Proof.
  intros Hab. destruct (Z.eq_dec a b) as [-> | Hne]; [lra|].
  left. apply powerRZ_101_increasing. lia.
Qed.

(** Up to level 70587 the power [1.01**level] is a finite float. *)
Lemma power_in_range (lv : Z) :
  (lv <= 70587)%Z -> powerRZ 1.01 lv <= Py.float_max.
Proof.
  intros Hl.
  apply Rle_trans with (powerRZ 1.01 70587);
    [apply powerRZ_101_monotone; exact Hl|].
  apply Rle_trans with (2 ^ 1023); [|apply float_max_bounds].
  change (powerRZ 1.01 70587) with (1.01 ^ Pos.to_nat 70587).
  replace (Pos.to_nat 70587) with (69 * 1023)%nat by lia.
  rewrite pow_mult. apply pow_incr. split; [|exact pow_101_69].
  apply pow_le. lra.
Qed.

(** From level 71680 on it is not. *)
Lemma power_out_of_range (lv : Z) :
  (71680 <= lv)%Z -> Py.float_max < powerRZ 1.01 lv.
Proof.
  intros Hl.
  apply Rlt_le_trans with (2 ^ 1024); [apply float_max_bounds|].
  apply Rle_trans with (powerRZ 1.01 71680);
    [|apply powerRZ_101_monotone; exact Hl].
  change (powerRZ 1.01 71680) with (1.01 ^ Pos.to_nat 71680).
  replace (Pos.to_nat 71680) with (70 * 1024)%nat by lia.
  rewrite pow_mult. apply pow_incr. pose proof pow_101_70. lra.
Qed.

Lemma float_tiny_small : 0 < Py.float_tiny < 1.
Proof.
  unfold Py.float_tiny.
  assert (H : 1 < 2 ^ 1075) by (apply Rlt_pow_R1; [lra | lia]).
  split; [apply Rinv_0_lt_compat; lra|].
  rewrite <- Rinv_1. apply Rinv_lt_contravar; lra.
Qed.

(** From level 0 on, the speed is a finite float unless the power
    overflows. *)
Lemma laser_speed_finite (lv : Z) :
  (0 <= lv)%Z -> powerRZ 1.01 lv <= Py.float_max ->
  laser_speed lv = Py.Finite (10 * (1 / powerRZ 1.01 lv) / 11).
Proof.
  intros Hl Hr. unfold laser_speed. cbv zeta.
  assert (Hp : 1 <= powerRZ 1.01 lv).
  { pose proof (powerRZ_101_monotone 0 lv Hl) as H0. cbn [powerRZ] in H0.
    exact H0. }
  pose proof float_tiny_small. pose proof float_max_bounds as [Hm _].
  assert (2 ^ 4 <= 2 ^ 1023) by (apply Rle_pow; [lra | lia]).
  assert (2 ^ 4 = 16) by (cbn [pow]; lra).
  assert (0 < / powerRZ 1.01 lv <= 1).
  { split; [apply Rinv_0_lt_compat; lra|].
    rewrite <- Rinv_1. apply Rinv_le_contravar; lra. }
  destruct (Rlt_dec _ _); [lra|].
  destruct (Rle_dec _ _); [lra|].
  destruct (Rlt_dec _ _); [|reflexivity].
  unfold Rdiv in *. lra.
Qed.

Lemma laser_speed_overflow (lv : Z) :
  Py.float_max < powerRZ 1.01 lv -> laser_speed lv = Py.OverflowError.
Proof.
  intros Hr. unfold laser_speed. cbv zeta.
  destruct (Rlt_dec _ _); [reflexivity | lra].
Qed.

(** The loop that adds the lasers, when the speed is finite. *)
Lemma add_lasers (x0 y0 now v : R) (lv : Z) (l : list Z) (s : Session) :
  laser_speed lv = Py.Finite v ->
  EnemyGenerator.laser_loop x0 y0 now lv l s
  = Some (mkSession (game s)
            (elements s
             ++ map (fun i => Laser (LaserEnemy.mk
                                       (Enemy.init x0 y0 now 14 "black")
                                       lv v None Inactive (0.02 * IZR i))) l)).
Proof.
  intros Hv. revert s.
  induction l as [|i l IH]; intros s; cbn [EnemyGenerator.laser_loop map].
  - rewrite app_nil_r. destruct s; reflexivity.
  - unfold LaserEnemy.init. rewrite Hv, IH.
    cbn [add_element game elements]. now rewrite <- app_assoc.
Qed.


Lemma count_app (kind : Element -> bool) (l1 l2 : list Element) :
  count kind (l1 ++ l2) = (count kind l1 + count kind l2)%nat.
Proof. unfold count. now rewrite filter_app, length_app. Qed.

Lemma count_lasers (f : Z -> LaserEnemy.t) (l : list Z) :
  count is_laser (map (fun i => Laser (f i)) l) = List.length l.
Proof.
  unfold count. induction l as [|i l IH]; cbn [map filter is_laser List.length];
    [reflexivity | now rewrite IH].
Qed.

Lemma count_lasers_other (kind : Element -> bool) (f : Z -> LaserEnemy.t)
    (l : list Z) :
  (forall e, kind (Laser e) = false) ->
  count kind (map (fun i => Laser (f i)) l) = 0%nat.
Proof.
  intros Hk. unfold count. induction l as [|i l IH]; cbn [map filter];
    [reflexivity | now rewrite Hk].
Qed.

Lemma small_hit_box_lasers (f : Z -> LaserEnemy.t) (l : list Z) :
  Forall small_hit_box (map (fun i => Laser (f i)) l).
Proof. apply Forall_forall. intros el Hin. apply in_map_iff in Hin.
  destruct Hin as (i & <- & _). exact I.
Qed.

(** One round from level 1 on: it succeeds, and what it adds. *)
Lemma create_enemy_round (x0 y0 now : R) (s : Session)
    (gen : EnemyGenerator.t) (r : Rng) :
  (1 <= EnemyGenerator.level gen)%Z ->
  powerRZ 1.01 (EnemyGenerator.level gen) <= Py.float_max ->
  let lv := EnemyGenerator.level gen in
  let k := if (lv mod 10 =? 0)%Z then 3%Z else 5%Z in
  exists new s' d r',
    EnemyGenerator.create_enemy x0 y0 now s gen r
      = Some ((s', EnemyGenerator.mk (lv + 1), d), r') /\
    elements s' = elements s ++ new /\
    count is_stalk new = (if (lv mod 2 =? 0)%Z then 1 else 0)%nat /\
    count is_fencing new = (if (lv mod 7 =? 0)%Z then 1 else 0)%nat /\
    count is_random_walk new = 1%nat /\
    count is_straight new = (if (lv mod 3 =? 0)%Z then 1 else 0)%nat /\
    Z.of_nat (count is_laser new)
      = Zfloor (ln (IZR lv) / ln 15 * IZR lv / IZR k) /\
    List.length new
      = (count is_stalk new + count is_fencing new + count is_random_walk new
         + count is_straight new + count is_laser new)%nat /\
    Forall small_hit_box new.
Proof.
  intros Hl Hr lv k.
  destruct (laser_num_floor lv Hl) as [Hn Hn0]. fold k in Hn, Hn0.
  set (n := Zfloor _) in *.
  pose proof (laser_speed_finite lv ltac:(lia) Hr) as Hsp.
  unfold EnemyGenerator.create_enemy. fold lv.
  cbv beta iota delta [bind ret lift]. rewrite Hn.
  destruct (lv mod 2 =? 0)%Z; cbv beta iota;
  (destruct (lv mod 7 =? 0)%Z; cbv beta iota;
   [match goal with |- context [FencingEnemy.init ?a ?b ?c ?d ?e ?l ?r0] =>
      destruct (fencing_init_succeeds a b c d e l r0 Hl) as (fe & r1 & ->) end
   |]);
  (match goal with |- context [RandomWalkEnemy.init ?a ?b ?c ?d ?e ?l ?r0] =>
     destruct (random_walk_init_succeeds a b c d e l r0 Hl)
       as (rw & r2 & -> & Hrw)
   end);
  (destruct (lv mod 3 =? 0)%Z; cbv beta iota;
   [match goal with |- context [choice (Py.range 0 360) ?r0] =>
      destruct (choice_succeeds (Py.range 0 360) r0) as (ang & -> & _);
        [apply range_nonempty; lia|] end;
    match goal with |- context [StraightEnemy.init ?a ?b ?c ?d ?e ?f ?l] =>
      destruct (straight_init_succeeds a b c d e f l Hl) as (st & -> & Hst) end
   |]);
  rewrite (add_lasers _ _ _ _ _ _ _ Hsp), Hsp; cbv beta iota;
  cbn [game elements add_element];
  (eexists; eexists; eexists; eexists;
   split; [reflexivity|]; cbn [elements];
   split; [rewrite <- ?app_assoc; reflexivity|]);
  rewrite ?count_app, count_lasers, ?length_app, length_map, range_length,
    !count_lasers_other by reflexivity;
  (repeat split;
   [cbn; rewrite ?Nat.add_0_r, ?Z.sub_0_r; try reflexivity; try lia ..|]);
  repeat (apply Forall_app; split); try apply small_hit_box_lasers;
  repeat constructor; cbn [small_hit_box StalkEnemy.init StalkEnemy.base
    Enemy.init Enemy.size]; rewrite ?Hrw, ?Hst; lra.
Qed.






(** ** Spawning away from the player *)

Lemma exclude_in (z : Z) (all excl : list Z) :
  In z (exclude all excl) <-> In z all /\ ~ In z excl.
Proof.
  unfold exclude, Py.mem. rewrite filter_In, negb_true_iff. split.
  - intros [Ha Hn]. split; [exact Ha|]. intros Hin.
    assert (Ht : existsb (Z.eqb z) excl = true)
      by (apply existsb_exists; exists z; split; [exact Hin | apply Z.eqb_refl]).
    congruence.
  - intros [Ha Hn]. split; [exact Ha|].
    destruct (existsb (Z.eqb z) excl) eqn:E; [|reflexivity].
    apply existsb_exists in E. destruct E as (z' & Hin & Heq).
    apply Z.eqb_eq in Heq. subst z'. contradiction.
Qed.

(** A spawn coordinate is an integer of [[0, bound)] outside the window
    [[int(p - 20), int(p + 20))], hence further than 19 from [p]. *)
Lemma spawn_coordinate_outside (bound : Z) (p : R) (r r' : Rng) (z : Z) :
  Enemy.spawn_coordinate bound p r = Some (z, r') ->
  (0 <= z < bound)%Z /\
  ~ (Py.int (p - 20) <= z < Py.int (p + 20))%Z /\
  (IZR z < p - 20 \/ p + 19 < IZR z).
Proof.
  unfold Enemy.spawn_coordinate. intros H. apply choice_in in H.
  apply exclude_in in H. destruct H as [Hin Hout].
  rewrite range_in in Hin, Hout. split; [exact Hin|]. split; [exact Hout|].
  destruct (Z_lt_le_dec z (Py.int (p - 20))) as [Hlo | Hlo].
  - left. apply lt_int. exact Hlo.
  - right. assert (Hhi : (Py.int (p + 20) <= z)%Z) by lia.
    apply ge_int in Hhi. lra.
Qed.

(** The draw succeeds as soon as one coordinate is free. *)
Lemma spawn_coordinate_succeeds (bound : Z) (p : R) (r : Rng) (z : Z) :
  (0 <= z < bound)%Z ->
  ~ (Py.int (p - 20) <= z < Py.int (p + 20))%Z ->
  exists z' r', Enemy.spawn_coordinate bound p r = Some (z', r').
Proof.
  intros Hin Hout. unfold Enemy.spawn_coordinate.
  destruct (choice_succeeds
              (exclude (Py.range 0 bound)
                       (Py.range (Py.int (p - 20)) (Py.int (p + 20)))) r)
    as (z' & Hc & _).
  - intros Hnil.
    assert (Hz : In z (exclude (Py.range 0 bound)
                         (Py.range (Py.int (p - 20)) (Py.int (p + 20))))).
    { apply exclude_in. rewrite !range_in. split; assumption. }
    rewrite Hnil in Hz. destruct Hz.
  - eexists. eexists. exact Hc.
Qed.

Lemma stalk_create_succeeds (g : Game) (e : StalkEnemy.t) (r : Rng)
    (zx zy : Z) :
  (0 <= zx < winfo_width (canvas g))%Z ->
  ~ (Py.int (player_x (player g) - 20) <= zx
     < Py.int (player_x (player g) + 20))%Z ->
  (0 <= zy < winfo_height (canvas g))%Z ->
  ~ (Py.int (player_y (player g) - 20) <= zy
     < Py.int (player_y (player g) + 20))%Z ->
  exists g' e' r', StalkEnemy.create g e r = Some ((g', e'), r').
Proof.
  intros Hx Hx' Hy Hy'. unfold StalkEnemy.create, bind, ret.
  destruct (spawn_coordinate_succeeds _ _ r zx Hx Hx') as (x & r1 & ->).
  destruct (spawn_coordinate_succeeds _ _ r1 zy Hy Hy') as (y & r2 & ->).
  cbn [create]. eexists. eexists. eexists. reflexivity.
Qed.

(** An enemy with a small hit-box at such a coordinate misses the
    player. *)
Lemma misses_player (g : Game) (b : Enemy.t) :
  Enemy.size b / 2 < 19 ->
  Enemy.x b < player_x (player g) - 20 \/ player_x (player g) + 19 < Enemy.x b ->
  Enemy.hits_player g b = false.
Proof.
  intros Hs Hx. destruct (Enemy.hits_player g b) eqn:E; [|reflexivity].
  unfold Enemy.hits_player in E. py_tests. lra.
Qed.

Lemma spawn_coordinate_range (bound : Z) (p : R) (r r' : Rng) (z : Z) :
  Enemy.spawn_coordinate bound p r = Some (z, r') ->
  spawn_range bound p (IZR z).
Proof.
  intros H. apply spawn_coordinate_outside in H. destruct H as (H1 & H2 & _).
  exists z. auto.
Qed.

Lemma stalk_create_misses (g g' : Game) (e e' : StalkEnemy.t) (r r' : Rng) :
  StalkEnemy.create g e r = Some ((g', e'), r') ->
  Enemy.size (StalkEnemy.base e) / 2 < 19 ->
  spawn_range (winfo_width (canvas g)) (player_x (player g))
              (Enemy.x (StalkEnemy.base e')) /\
  spawn_range (winfo_height (canvas g)) (player_y (player g))
              (Enemy.y (StalkEnemy.base e')) /\
  Enemy.hits_player g' (StalkEnemy.base e') = false.
Proof.
  unfold StalkEnemy.create, bind, ret. intros H Hs.
  destruct (Enemy.spawn_coordinate (winfo_width (canvas g)) _ r)
    as [[zx r1]|] eqn:Ex; [|discriminate].
  destruct (Enemy.spawn_coordinate (winfo_height (canvas g)) _ r1)
    as [[zy r2]|] eqn:Ey; [|discriminate].
  cbn [create] in H. injection H as <- <- _.
  split; [exact (spawn_coordinate_range _ _ _ _ _ Ex)|].
  split; [exact (spawn_coordinate_range _ _ _ _ _ Ey)|].
  apply spawn_coordinate_outside in Ex. destruct Ex as (_ & _ & Hx).
  apply misses_player; [exact Hs | exact Hx].
Qed.

Lemma random_walk_create_misses (g g' : Game) (e e' : RandomWalkEnemy.t)
    (r r' : Rng) :
  RandomWalkEnemy.create g e r = Some ((g', e'), r') ->
  Enemy.size (RandomWalkEnemy.base e) / 2 < 19 ->
  spawn_range (winfo_width (canvas g)) (player_x (player g))
              (Enemy.x (RandomWalkEnemy.base e')) /\
  spawn_range (winfo_height (canvas g)) (player_y (player g))
              (Enemy.y (RandomWalkEnemy.base e')) /\
  Enemy.hits_player g' (RandomWalkEnemy.base e') = false.
Proof.
  unfold RandomWalkEnemy.create, bind, ret. cbn [create]. intros H Hs.
  destruct (Enemy.spawn_coordinate _ (player_x (player g)) r)
    as [[zx r1]|] eqn:Ex; [|discriminate].
  destruct (Enemy.spawn_coordinate _ (player_y (player g)) r1)
    as [[zy r2]|] eqn:Ey; [|discriminate].
  injection H as <- <- _.
  split; [exact (spawn_coordinate_range _ _ _ _ _ Ex)|].
  split; [exact (spawn_coordinate_range _ _ _ _ _ Ey)|].
  apply spawn_coordinate_outside in Ex. destruct Ex as (_ & _ & Hx).
  apply misses_player; [exact Hs | exact Hx].
Qed.

Lemma straight_create_misses (g g' : Game) (e e' : StraightEnemy.t)
    (r r' : Rng) :
  StraightEnemy.create g e r = Some ((g', e'), r') ->
  Enemy.size (StraightEnemy.base e) / 2 < 19 ->
  spawn_range (winfo_width (canvas g)) (player_x (player g))
              (Enemy.x (StraightEnemy.base e')) /\
  spawn_range (winfo_height (canvas g)) (player_y (player g))
              (Enemy.y (StraightEnemy.base e')) /\
  Enemy.hits_player g' (StraightEnemy.base e') = false.
Proof.
  unfold StraightEnemy.create, bind, ret. cbn [create]. intros H Hs.
  destruct (Enemy.spawn_coordinate _ (player_x (player g)) r)
    as [[zx r1]|] eqn:Ex; [|discriminate].
  destruct (Enemy.spawn_coordinate _ (player_y (player g)) r1)
    as [[zy r2]|] eqn:Ey; [|discriminate].
  injection H as <- <- _.
  split; [exact (spawn_coordinate_range _ _ _ _ _ Ex)|].
  split; [exact (spawn_coordinate_range _ _ _ _ _ Ey)|].
  apply spawn_coordinate_outside in Ex. destruct Ex as (_ & _ & Hx).
  apply misses_player; [exact Hs | exact Hx].
Qed.

(** C9: an enemy of the Stalk, RandomWalk or Straight variant does not hit
    the player right after [create()], whatever the player's position and
    the random draws: [create] puts it on integer coordinates of
    [[0, width)] and [[0, height)] outside the window
    [[int(player - 20), int(player + 20))] on each axis, and its hit-box
    is small, [size/2 < 19]; the generator only makes such enemies with a
    small hit-box, in every round from level 1 on in which the power
    [1.01**level] of the laser speed is a finite float. *)
Theorem fresh_enemy_misses_player :
  (forall g e r g' e' r',
     StalkEnemy.create g e r = Some ((g', e'), r') ->
     Enemy.size (StalkEnemy.base e) / 2 < 19 ->
     spawn_range (winfo_width (canvas g)) (player_x (player g))
                 (Enemy.x (StalkEnemy.base e')) /\
     spawn_range (winfo_height (canvas g)) (player_y (player g))
                 (Enemy.y (StalkEnemy.base e')) /\
     Enemy.hits_player g' (StalkEnemy.base e') = false) /\
  (forall g e r g' e' r',
     RandomWalkEnemy.create g e r = Some ((g', e'), r') ->
     Enemy.size (RandomWalkEnemy.base e) / 2 < 19 ->
     spawn_range (winfo_width (canvas g)) (player_x (player g))
                 (Enemy.x (RandomWalkEnemy.base e')) /\
     spawn_range (winfo_height (canvas g)) (player_y (player g))
                 (Enemy.y (RandomWalkEnemy.base e')) /\
     Enemy.hits_player g' (RandomWalkEnemy.base e') = false) /\
  (forall g e r g' e' r',
     StraightEnemy.create g e r = Some ((g', e'), r') ->
     Enemy.size (StraightEnemy.base e) / 2 < 19 ->
     spawn_range (winfo_width (canvas g)) (player_x (player g))
                 (Enemy.x (StraightEnemy.base e')) /\
     spawn_range (winfo_height (canvas g)) (player_y (player g))
                 (Enemy.y (StraightEnemy.base e')) /\
     Enemy.hits_player g' (StraightEnemy.base e') = false) /\
  (forall x0 y0 now s gen r,
     (1 <= EnemyGenerator.level gen)%Z ->
     powerRZ 1.01 (EnemyGenerator.level gen) <= Py.float_max ->
     exists new s' gen' d r',
       EnemyGenerator.create_enemy x0 y0 now s gen r
         = Some ((s', gen', d), r') /\
       elements s' = elements s ++ new /\
       Forall small_hit_box new).
Proof.
  split; [intros g e r g' e' r'; apply stalk_create_misses|].
  split; [intros g e r g' e' r'; apply random_walk_create_misses|].
  split; [intros g e r g' e' r'; apply straight_create_misses|].
  intros x0 y0 now s gen r Hl Hr.
  destruct (create_enemy_round x0 y0 now s gen r Hl Hr)
    as (new & s' & d & r' & H1 & H2 & _ & _ & _ & _ & _ & _ & H9).
  exists new, s', (EnemyGenerator.mk (EnemyGenerator.level gen + 1)), d, r'.
  auto.
Qed.

(** An instance: on the small canvas with the player at [(10, 10)] the
    window [[-10, 30)] is excluded; the first draw puts a fresh Stalk
    enemy on [(30, 30)], which misses the player. *)
Lemma fresh_enemy_misses_player_witness :
  exists g' e' r',
    StalkEnemy.create game_small stalk_fresh rng_zero = Some ((g', e'), r') /\
    Enemy.x (StalkEnemy.base e') = 30 /\
    Enemy.hits_player g' (StalkEnemy.base e') = false.
Proof.
  assert (Hc : exists g' e' r',
             StalkEnemy.create game_small stalk_fresh rng_zero
               = Some ((g', e'), r') /\
             Enemy.x (StalkEnemy.base e') = 30).
  { unfold StalkEnemy.create, Enemy.spawn_coordinate, bind, ret.
    cbn [game_small canvas winfo_width winfo_height player player_x player_y
         turtle RawTurtle.xcor RawTurtle.ycor].
    replace (10 - 20) with (IZR (-10)) by lra.
    replace (10 + 20) with (IZR 30) by lra.
    rewrite !int_IZR.
    set (l := exclude _ _). vm_compute in l. subst l.
    set (c1 := choice _ rng_zero). vm_compute in c1. subst c1.
    cbv beta iota.
    set (c2 := choice _ _). vm_compute in c2. subst c2.
    cbv beta iota. cbn [create].
    eexists. eexists. eexists. split; reflexivity. }
  destruct Hc as (g' & e' & r' & Hc & Hx).
  exists g', e', r'. split; [exact Hc|]. split; [exact Hx|].
  destruct fresh_enemy_misses_player as (Hstalk & _).
  apply (Hstalk _ _ _ _ _ _ Hc).
  cbn [stalk_fresh StalkEnemy.init StalkEnemy.base Enemy.init Enemy.size].
  lra.
Defined.

(** * Further properties *)

(** ** [exclude] *)

(** X1: [exclude] keeps exactly the items that are not excluded, without
    reordering or repeating them; excluding nothing keeps the list, and
    excluding the list itself leaves nothing. *)
Theorem exclude_keeps_the_others (list_all list_exclude_item : list Z) :
  (forall z, In z (exclude list_all list_exclude_item)
             <-> In z list_all /\ ~ In z list_exclude_item) /\
  (exists keep, exclude list_all list_exclude_item = filter keep list_all) /\
  (List.length (exclude list_all list_exclude_item)
     <= List.length list_all)%nat /\
  exclude list_all [] = list_all /\
  exclude list_all list_all = [].
Proof.
  split; [intros z; apply exclude_in|].
  split; [eexists; reflexivity|].
  split; [apply filter_length_le|].
  split.
  - unfold exclude. cbn [Py.mem existsb negb].
    induction list_all as [|a l IH]; cbn [filter]; [reflexivity | now rewrite IH].
  - destruct (exclude list_all list_all) as [|z l] eqn:E; [reflexivity|].
    assert (Hin : In z (exclude list_all list_all)) by (rewrite E; left; reflexivity).
    apply exclude_in in Hin. destruct Hin as [H1 H2]. contradiction.
Qed.

(** ** The player on its way *)

Lemma player_update_keeps (g : Game) :
  speed (player (player_update g)) = speed (player g) /\
  home (player_update g) = home g /\
  wp_x (waypoint (player_update g)) = wp_x (waypoint g) /\
  wp_y (waypoint (player_update g)) = wp_y (waypoint g).
Proof.
  rewrite player_update_waypoint. unfold player_update.
  destruct (contains _ _ _);
    cbn [game_over_win stop set_canvas set_player waypoint player speed turtle];
    destruct (is_active (waypoint g)); cbn [speed home];
    try (match goal with |- context [Py.ltb ?a ?b] => destruct (Py.ltb a b) end);
    repeat split; reflexivity.
Qed.

(** The distance left after a step towards a waypoint at distance [d > 0]
    is [|d - speed|]. *)
Lemma step_distance (g : Game) :
  is_active (waypoint g) = true ->
  0 < waypoint_distance g ->
  waypoint_distance (player_update g)
    = Rabs (waypoint_distance g - speed (player g)).
Proof.
  intros Hact Hd.
  destruct (player_update_keeps g) as (_ & _ & Hwx & Hwy).
  unfold waypoint_distance in *. rewrite Hwx, Hwy.
  rewrite player_update_turtle, Hact.
  unfold RawTurtle.distance in *.
  cbn [RawTurtle.forward RawTurtle.setheading RawTurtle.towards
       RawTurtle.xcor RawTurtle.ycor RawTurtle.heading].
  set (dx := wp_x (waypoint g) - RawTurtle.xcor (turtle (player g))) in *.
  set (dy := wp_y (waypoint g) - RawTurtle.ycor (turtle (player g))) in *.
  set (s := speed (player g)).
  assert (Hne : dx <> 0 \/ dy <> 0).
  { destruct (Req_dec dx 0) as [Hx | Hx]; [|auto].
    destruct (Req_dec dy 0) as [Hy | Hy]; [|auto].
    rewrite Hx, Hy in Hd. unfold Rsqr in Hd.
    rewrite Rmult_0_l, Rplus_0_l, sqrt_0 in Hd. lra. }
  unfold RawTurtle.towards. fold dx dy.
  rewrite cos_atan2, sin_atan2 by exact Hne.
  set (D := sqrt (dx² + dy²)) in *.
  assert (HD : D * D = dx * dx + dy * dy).
  { unfold D. apply sqrt_sqrt. unfold Rsqr. nra. }
  rewrite <- sqrt_Rsqr_abs. f_equal. unfold Rsqr.
  replace (wp_x (waypoint g)
           - (RawTurtle.xcor (turtle (player g)) + s * (dx / D)))
    with (dx * (1 - s / D)) by (unfold dx; field; lra).
  replace (wp_y (waypoint g)
           - (RawTurtle.ycor (turtle (player g)) + s * (dy / D)))
    with (dy * (1 - s / D)) by (unfold dy; field; lra).
  replace (dx * (1 - s / D) * (dx * (1 - s / D))
           + dy * (1 - s / D) * (dy * (1 - s / D)))
    with ((dx * dx + dy * dy) * ((1 - s / D) * (1 - s / D))) by ring.
  rewrite <- HD. field. lra.
Qed.

(** With a positive speed, the waypoint at distance [d > 0] is reached
    (deactivated) on this tick exactly when [d < 2 * speed]. *)
Lemma step_arrives (g : Game) :
  is_active (waypoint g) = true ->
  0 < speed (player g) ->
  0 < waypoint_distance g ->
  (is_active (waypoint (player_update g)) = false
   <-> waypoint_distance g < 2 * speed (player g)).
Proof.
  intros Hact Hs Hd.
  pose proof (step_distance g Hact Hd) as Hstep.
  pose proof (player_update_waypoint g) as Hw. rewrite Hact in Hw.
  pose proof (player_update_turtle g) as Ht. rewrite Hact in Ht.
  destruct (player_update_keeps g) as (_ & _ & Hwx & Hwy).
  unfold waypoint_distance in Hstep at 1. rewrite Hwx, Hwy, Ht in Hstep.
  rewrite Hstep in Hw. rewrite Hw.
  destruct (Py.ltb (Rabs (waypoint_distance g - speed (player g)))
                   (speed (player g))) eqn:E; py_tests.
  - split; [intros _ | reflexivity].
    apply Rabs_def2 in E. lra.
  - rewrite Hact. split; [discriminate|]. intros Hlt. exfalso.
    assert (Rabs (waypoint_distance g - speed (player g)) < speed (player g))
      by (apply Rabs_def1; lra).
    lra.
Qed.

(** X2: a step towards a waypoint at distance [d > 0] leaves the distance
    [|d - speed|]; with a positive speed the waypoint is deactivated on
    that tick exactly when [d < 2 * speed]. *)
Theorem player_step_closes_in (g : Game) :
  is_active (waypoint g) = true ->
  0 < speed (player g) ->
  0 < waypoint_distance g ->
  waypoint_distance (player_update g)
    = Rabs (waypoint_distance g - speed (player g)) /\
  (is_active (waypoint (player_update g)) = false
   <-> waypoint_distance g < 2 * speed (player g)).
Proof.
  intros Hact Hs Hd. split; [apply step_distance | apply step_arrives];
    assumption.
Qed.

Lemma distance_near_waypoint : waypoint_distance game_near_waypoint = 7.
Proof.
  unfold waypoint_distance, RawTurtle.distance.
  cbn [game_near_waypoint example_game waypoint player turtle wp_x wp_y
       RawTurtle.xcor RawTurtle.ycor].
  replace ((57 - 50)² + (250 - 250)²) with (7²) by (unfold Rsqr; lra).
  apply sqrt_Rsqr. lra.
Qed.

Lemma player_step_closes_in_witness :
  waypoint_distance (player_update game_near_waypoint) = 2 /\
  is_active (waypoint (player_update game_near_waypoint)) = false.
Proof.
  assert (Hs : 0 < speed (player game_near_waypoint)) by (cbn; lra).
  assert (Hd : 0 < waypoint_distance game_near_waypoint)
    by (rewrite distance_near_waypoint; lra).
  destruct (player_step_closes_in game_near_waypoint eq_refl Hs Hd)
    as [Hstep Harr].
  rewrite distance_near_waypoint in Hstep, Harr.
  cbn [game_near_waypoint example_game player speed] in Hstep, Harr.
  split.
  - rewrite Hstep. rewrite Rabs_pos_eq; lra.
  - apply Harr. lra.
Defined.

(** X3: a waypoint set on the player's own position is not reached at
    once: the bearing is 0, so the player steps [speed] along the x axis
    and the waypoint stays active for a positive speed. *)
Theorem player_step_from_waypoint (g : Game) :
  is_active (waypoint g) = true ->
  wp_x (waypoint g) = player_x (player g) ->
  wp_y (waypoint g) = player_y (player g) ->
  0 < speed (player g) ->
  player_x (player (player_update g)) = player_x (player g) + speed (player g) /\
  player_y (player (player_update g)) = player_y (player g) /\
  is_active (waypoint (player_update g)) = true.
Proof.
  intros Hact Hx Hy Hs.
  pose proof (player_update_turtle g) as Ht. rewrite Hact in Ht.
  pose proof (player_update_waypoint g) as Hw. rewrite Hact in Hw.
  unfold player_x, player_y in *.
  assert (Hb : RawTurtle.towards (turtle (player g)) (wp_x (waypoint g))
                 (wp_y (waypoint g)) = 0).
  { unfold RawTurtle.towards, Py.atan2. rewrite Hx, Hy, !Rminus_diag.
    destruct (Rlt_dec 0 0); [lra|]. reflexivity. }
  rewrite Hb in Ht, Hw.
  assert (Hx' : RawTurtle.xcor (turtle (player (player_update g)))
                = RawTurtle.xcor (turtle (player g)) + speed (player g)).
  { rewrite Ht. cbn [RawTurtle.forward RawTurtle.setheading RawTurtle.xcor
                     RawTurtle.heading]. rewrite cos_0. ring. }
  assert (Hy' : RawTurtle.ycor (turtle (player (player_update g)))
                = RawTurtle.ycor (turtle (player g))).
  { rewrite Ht. cbn [RawTurtle.forward RawTurtle.setheading RawTurtle.ycor
                     RawTurtle.heading]. rewrite sin_0. ring. }
  split; [exact Hx'|]. split; [exact Hy'|].
  rewrite Hw.
  match goal with |- context [Py.ltb ?a ?b] =>
    assert (E : Py.ltb a b = false) end.
  { apply ltb_false. unfold RawTurtle.distance.
    cbn [RawTurtle.forward RawTurtle.setheading RawTurtle.xcor RawTurtle.ycor
         RawTurtle.heading].
    rewrite cos_0, sin_0, Hx, Hy.
    replace ((RawTurtle.xcor (turtle (player g))
              - (RawTurtle.xcor (turtle (player g)) + speed (player g) * 1))²
             + (RawTurtle.ycor (turtle (player g))
                - (RawTurtle.ycor (turtle (player g)) + speed (player g) * 0))²)
      with ((speed (player g))²) by (unfold Rsqr; ring).
    rewrite sqrt_Rsqr; lra. }
  rewrite E. exact Hact.
Qed.

Lemma player_step_from_waypoint_witness :
  player_x (player (player_update game_clicked_on_player)) = 55 /\
  is_active (waypoint (player_update game_clicked_on_player)) = true.
Proof.
  destruct (player_step_from_waypoint game_clicked_on_player eq_refl
              eq_refl eq_refl) as (Hx & _ & Ha); [cbn; lra|].
  split; [|exact Ha]. rewrite Hx. cbn. lra.
Defined.

(** With no active waypoint the player stays where it is. *)
Lemma player_update_idle (g : Game) :
  is_active (waypoint g) = false ->
  turtle (player (player_update g)) = turtle (player g) /\
  waypoint (player_update g) = waypoint g.
Proof.
  intros H. rewrite player_update_turtle, player_update_waypoint, H.
  split; reflexivity.
Qed.

Lemma player_ticks_succ (n : nat) (g : Game) :
  player_ticks (S n) g = player_ticks n (player_update g).
Proof. unfold player_ticks. apply Nat.iter_succ_r. Qed.

Lemma player_ticks_idle (n : nat) (g : Game) :
  is_active (waypoint g) = false ->
  turtle (player (player_ticks n g)) = turtle (player g) /\
  waypoint (player_ticks n g) = waypoint g.
Proof.
  revert g. induction n as [|n IH]; intros g H; [split; reflexivity|].
  rewrite player_ticks_succ.
  destruct (player_update_idle g H) as [Ht Hw].
  destruct (IH (player_update g)) as [Ht' Hw']; [rewrite Hw; exact H|].
  rewrite Ht', Hw', Ht, Hw. split; reflexivity.
Qed.

(** X4: once the waypoint is inactive, no number of further updates moves
    the player or reactivates the waypoint. *)
Theorem player_rests_without_waypoint (n : nat) (g : Game) :
  is_active (waypoint g) = false ->
  player_x (player (player_ticks n g)) = player_x (player g) /\
  player_y (player (player_ticks n g)) = player_y (player g) /\
  waypoint (player_ticks n g) = waypoint g.
Proof.
  intros H. destruct (player_ticks_idle n g H) as [Ht Hw].
  unfold player_x, player_y. rewrite Ht, Hw. repeat split; reflexivity.
Qed.

Lemma player_rests_without_waypoint_witness :
  player_x (player (player_ticks 3 game_idle)) = 50.
Proof.
  destruct (player_rests_without_waypoint 3 game_idle eq_refl) as (Hx & _).
  rewrite Hx. reflexivity.
Defined.

Lemma player_ticks_idle_distance (n : nat) (g : Game) :
  is_active (waypoint g) = false ->
  waypoint_distance (player_ticks n g) = waypoint_distance g.
Proof.
  intros H. destruct (player_ticks_idle n g H) as [Ht Hw].
  unfold waypoint_distance. now rewrite Ht, Hw.
Qed.

(** Seeking ends: from a distance [d > 0] below [(n + 2) * speed] the
    waypoint is inactive after [n + 1] ticks. *)
Lemma player_ticks_arrive (n : nat) (g : Game) :
  is_active (waypoint g) = true ->
  0 < speed (player g) ->
  0 < waypoint_distance g ->
  waypoint_distance g < (INR n + 2) * speed (player g) ->
  is_active (waypoint (player_ticks (S n) g)) = false /\
  waypoint_distance (player_ticks (S n) g) < speed (player g).
Proof.
  revert g. induction n as [|n IH]; intros g Hact Hs Hd Hlt;
    rewrite player_ticks_succ.
  - cbn [INR] in Hlt.
    change (player_ticks 0 (player_update g)) with (player_update g).
    split; [apply step_arrives; try assumption; lra|].
    rewrite step_distance by assumption. apply Rabs_def1; lra.
  - destruct (Rlt_dec (waypoint_distance g) (2 * speed (player g)))
      as [Hnear | Hfar].
    + assert (Hoff : is_active (waypoint (player_update g)) = false)
        by (apply step_arrives; assumption).
      destruct (player_ticks_idle (S n) (player_update g) Hoff) as [_ Hw].
      rewrite Hw, player_ticks_idle_distance by exact Hoff.
      split; [exact Hoff|].
      rewrite step_distance by assumption. apply Rabs_def1; lra.
    + destruct (player_update_keeps g) as (Hsp & _ & _ & _).
      assert (Hon : is_active (waypoint (player_update g)) = true).
      { destruct (is_active (waypoint (player_update g))) eqn:E;
          [reflexivity|].
        apply step_arrives in E; try assumption. lra. }
      pose proof (step_distance g Hact Hd) as Hstep.
      rewrite Rabs_pos_eq in Hstep by lra.
      rewrite S_INR in Hlt. rewrite <- Hsp.
      apply IH; rewrite ?Hsp, ?Hstep; try assumption; lra.
Qed.

(** X5: seeking always ends. With a positive speed, a player at a distance
    [d > 0] below [(n + 2) * speed] from the active waypoint has, after
    [n + 1] updates, an inactive waypoint and is closer than [speed] to
    it. *)
Theorem player_reaches_waypoint (n : nat) (g : Game) :
  is_active (waypoint g) = true ->
  0 < speed (player g) ->
  0 < waypoint_distance g ->
  waypoint_distance g < (INR n + 2) * speed (player g) ->
  is_active (waypoint (player_ticks (S n) g)) = false /\
  waypoint_distance (player_ticks (S n) g) < speed (player g).
Proof. apply player_ticks_arrive. Qed.

Lemma distance_two_ticks_away : waypoint_distance game_two_ticks_away = 12.
Proof.
  unfold waypoint_distance, RawTurtle.distance.
  cbn [game_two_ticks_away example_game waypoint player turtle wp_x wp_y
       RawTurtle.xcor RawTurtle.ycor].
  replace ((62 - 50)² + (250 - 250)²) with (12²) by (unfold Rsqr; lra).
  apply sqrt_Rsqr. lra.
Qed.

Lemma player_reaches_waypoint_witness :
  is_active (waypoint (player_ticks 2 game_two_ticks_away)) = false.
Proof.
  apply (player_reaches_waypoint 1 game_two_ticks_away eq_refl).
  - cbn. lra.
  - rewrite distance_two_ticks_away. lra.
  - rewrite distance_two_ticks_away. cbn. lra.
Defined.

(** ** The Fencing enemy on its fence *)

Lemma fencing_move_keeps (g : Game) (e : FencingEnemy.t) :
  FencingEnemy.speed (FencingEnemy.move g e) = FencingEnemy.speed e /\
  FencingEnemy.fence (FencingEnemy.move g e) = FencingEnemy.fence e /\
  FencingEnemy.level (FencingEnemy.move g e) = FencingEnemy.level e.
Proof.
  unfold FencingEnemy.move, FencingEnemy.up, FencingEnemy.down,
    FencingEnemy.left, FencingEnemy.right.
  destruct (FencingEnemy.movement e);
    match goal with |- context [if ?c then _ else _] => destruct c end;
    repeat split; reflexivity.
Qed.

(** One move keeps the enemy on the fence. *)
Lemma fencing_move_on_fence (g : Game) (e : FencingEnemy.t) :
  0 < FencingEnemy.speed e ->
  0 < IZR (FencingEnemy.fence e) ->
  on_fence g e -> on_fence g (FencingEnemy.move g e).
Proof.
  intros Hs Hf. unfold on_fence, FencingEnemy.move, FencingEnemy.up,
    FencingEnemy.down, FencingEnemy.left, FencingEnemy.right.
  destruct (FencingEnemy.movement e) eqn:Em; intros Hinv;
    match goal with |- context [if ?c then _ else _] => destruct c eqn:E end;
    cbn [FencingEnemy.set_movement FencingEnemy.set_base FencingEnemy.base
         FencingEnemy.movement FencingEnemy.fence FencingEnemy.speed
         Enemy.set_x Enemy.set_y Enemy.x Enemy.y] in *;
    rewrite ?Em; unfold Py.geb in *; py_tests; lra.
Qed.

(** A change of movement follows the cycle up, left, down, right. *)
Lemma fencing_move_cycle (g : Game) (e : FencingEnemy.t) :
  FencingEnemy.movement (FencingEnemy.move g e) = FencingEnemy.movement e \/
  FencingEnemy.movement (FencingEnemy.move g e)
    = next_movement (FencingEnemy.movement e).
Proof.
  unfold FencingEnemy.move, FencingEnemy.up, FencingEnemy.down,
    FencingEnemy.left, FencingEnemy.right.
  destruct (FencingEnemy.movement e) eqn:Em;
    match goal with |- context [if ?c then _ else _] => destruct c end;
    cbn [FencingEnemy.set_movement FencingEnemy.set_base
         FencingEnemy.movement next_movement]; auto.
Qed.

Lemma fencing_update_early (now : R) (g : Game) (e : FencingEnemy.t) :
  now - Enemy.start_time (FencingEnemy.base e) < 30 ->
  snd (FencingEnemy.update now g e) = FencingEnemy.move g e /\
  home (fst (FencingEnemy.update now g e)) = home g.
Proof.
  intros H. rewrite fencing_update_cases. cbv zeta.
  apply geb_false in H. rewrite H. cbn [fst snd].
  split; [reflexivity|]. destruct (Enemy.hits_player _ _); reflexivity.
Qed.

Lemma on_fence_home (g g' : Game) (e : FencingEnemy.t) :
  home g' = home g -> on_fence g e -> on_fence g' e.
Proof. unfold on_fence. intros ->. auto. Qed.

Lemma fencing_run_on_fence (times : list R) (g : Game) (e : FencingEnemy.t) :
  0 < FencingEnemy.speed e ->
  0 < IZR (FencingEnemy.fence e) ->
  Forall (fun now => now - Enemy.start_time (FencingEnemy.base e) < 30) times ->
  on_fence g e ->
  on_fence (fst (fencing_run times g e)) (snd (fencing_run times g e)).
Proof.
  unfold fencing_run. revert g e.
  induction times as [|now times IH]; intros g e Hs Hf Hall Hinv;
    cbn [fold_left fst snd]; [exact Hinv|].
  inversion Hall as [|? ? Hnow Hrest]; subst.
  destruct (fencing_update_early now g e Hnow) as [Hsnd Hhome].
  destruct (fencing_move_keeps g e) as (Hsp & Hfe & _).
  rewrite (surjective_pairing (FencingEnemy.update now g e)).
  apply IH.
  - rewrite Hsnd, Hsp. exact Hs.
  - rewrite Hsnd, Hfe. exact Hf.
  - rewrite fencing_update_start_time. exact Hrest.
  - rewrite Hsnd. apply (on_fence_home g); [exact Hhome|].
    apply fencing_move_on_fence; assumption.
Qed.

(** X6: [create] puts a Fencing enemy that moves up on its fence, at the
    corner [(home.x + fence, home.y + fence)]; from there on, with a
    positive speed and fence, every update made before the expiry (elapsed
    time below 30) leaves it on the fence. *)
Theorem fencing_enemy_patrols_fence (times : list R) (g : Game)
    (e : FencingEnemy.t) :
  FencingEnemy.movement e = Up ->
  0 < FencingEnemy.speed e ->
  0 < IZR (FencingEnemy.fence e) ->
  Forall (fun now => now - Enemy.start_time (FencingEnemy.base e) < 30) times ->
  let created := FencingEnemy.create g e in
  (Enemy.x (FencingEnemy.base (snd created))
     = home_x (home g) + IZR (FencingEnemy.fence e) /\
   Enemy.y (FencingEnemy.base (snd created))
     = home_y (home g) + IZR (FencingEnemy.fence e)) /\
  on_fence (fst (fencing_run times (fst created) (snd created)))
           (snd (fencing_run times (fst created) (snd created))).
Proof.
  intros Hm Hs Hf Hall. cbv zeta.
  unfold FencingEnemy.create. cbn [create fst snd].
  split; [split; reflexivity|].
  apply fencing_run_on_fence; cbn [FencingEnemy.set_base FencingEnemy.speed
    FencingEnemy.fence FencingEnemy.base Enemy.set_x Enemy.set_y Enemy.set_id
    Enemy.start_time]; try assumption.
  unfold on_fence.
  cbn [FencingEnemy.set_base FencingEnemy.speed FencingEnemy.fence
       FencingEnemy.base FencingEnemy.movement Enemy.set_x Enemy.set_y
       Enemy.set_id Enemy.x Enemy.y set_canvas home].
  rewrite Hm. lra.
Qed.

Lemma fencing_enemy_patrols_fence_witness :
  on_fence
    (fst (fencing_run [1; 2; 3] (fst (FencingEnemy.create game_idle fencing_example))
                      (snd (FencingEnemy.create game_idle fencing_example))))
    (snd (fencing_run [1; 2; 3] (fst (FencingEnemy.create game_idle fencing_example))
                      (snd (FencingEnemy.create game_idle fencing_example)))).
Proof.
  apply (fencing_enemy_patrols_fence [1; 2; 3] game_idle fencing_example).
  - reflexivity.
  - cbn. lra.
  - cbn. lra.
  - repeat constructor; cbn; lra.
Defined.

(** X7: the movement of a Fencing enemy changes only along the cycle up,
    left, down, right, up; a move changes one coordinate, by exactly
    [speed], and nothing else of the enemy but the movement. *)
Theorem fencing_move_follows_cycle (g : Game) (e : FencingEnemy.t) :
  let e' := FencingEnemy.move g e in
  (FencingEnemy.movement e' = FencingEnemy.movement e \/
   FencingEnemy.movement e' = next_movement (FencingEnemy.movement e)) /\
  (Enemy.x (FencingEnemy.base e'), Enemy.y (FencingEnemy.base e'))
    = (match FencingEnemy.movement e with
       | Up => (Enemy.x (FencingEnemy.base e),
                Enemy.y (FencingEnemy.base e) - FencingEnemy.speed e)
       | Down => (Enemy.x (FencingEnemy.base e),
                  Enemy.y (FencingEnemy.base e) + FencingEnemy.speed e)
       | Left => (Enemy.x (FencingEnemy.base e) - FencingEnemy.speed e,
                  Enemy.y (FencingEnemy.base e))
       | Right => (Enemy.x (FencingEnemy.base e) + FencingEnemy.speed e,
                   Enemy.y (FencingEnemy.base e))
       end) /\
  FencingEnemy.speed e' = FencingEnemy.speed e /\
  FencingEnemy.fence e' = FencingEnemy.fence e.
Proof.
  cbv zeta. split; [apply fencing_move_cycle|].
  split; [|destruct (fencing_move_keeps g e) as (? & ? & _); auto].
  unfold FencingEnemy.move, FencingEnemy.up, FencingEnemy.down,
    FencingEnemy.left, FencingEnemy.right.
  destruct (FencingEnemy.movement e);
    match goal with |- context [if ?c then _ else _] => destruct c end;
    reflexivity.
Qed.

Lemma fencing_misses_at_home (g : Game) (e : FencingEnemy.t) :
  on_fence g e ->
  Enemy.size (FencingEnemy.base e) / 2 + home_size (home g) / 2
    <= IZR (FencingEnemy.fence e) ->
  contains (home g) (player_x (player g)) (player_y (player g)) = true ->
  Enemy.hits_player g (FencingEnemy.base e) = false.
Proof.
  intros Hinv Hsz Hin.
  destruct (Enemy.hits_player g (FencingEnemy.base e)) eqn:E; [|reflexivity].
  unfold Enemy.hits_player in E. unfold contains in Hin. unfold on_fence in Hinv.
  py_tests. destruct (FencingEnemy.movement e); lra.
Qed.

(** X8: a Fencing enemy on its fence keeps away from Home: when its
    hit-box and Home together are no wider than the fence
    ([size/2 + home.size/2 <= fence]), it does not hit a player that is
    inside Home. *)
Theorem fencing_enemy_spares_home (g : Game) (e : FencingEnemy.t) :
  on_fence g e ->
  Enemy.size (FencingEnemy.base e) / 2 + home_size (home g) / 2
    <= IZR (FencingEnemy.fence e) ->
  contains (home g) (player_x (player g)) (player_y (player g)) = true ->
  Enemy.hits_player g (FencingEnemy.base e) = false.
Proof.
  apply fencing_misses_at_home.
Qed.

Lemma fencing_enemy_spares_home_witness :
  Enemy.hits_player game_at_home (FencingEnemy.base fencing_example) = false.
Proof.
  apply fencing_enemy_spares_home.
  - unfold on_fence. cbn. lra.
  - cbn. lra.
  - exact game_at_home_inside.
Defined.

(** ** The RandomWalk enemy in its area *)

Lemma walk_steps_nonneg (e : RandomWalkEnemy.t) :
  0 <= RandomWalkEnemy.speed e -> 0 <= walk_step_x e /\ 0 <= walk_step_y e.
Proof.
  intros Hs. unfold walk_step_x, walk_step_y, Py.fabs.
  split; apply Rmult_le_pos; try exact Hs; apply Rabs_pos.
Qed.

Lemma random_walk_move_keeps (m : Movement) (g : Game)
    (e : RandomWalkEnemy.t) :
  RandomWalkEnemy.speed (RandomWalkEnemy.move m g e) = RandomWalkEnemy.speed e /\
  RandomWalkEnemy.direction (RandomWalkEnemy.move m g e)
    = RandomWalkEnemy.direction e.
Proof.
  unfold RandomWalkEnemy.move, RandomWalkEnemy.up, RandomWalkEnemy.down,
    RandomWalkEnemy.left, RandomWalkEnemy.right.
  destruct m;
    match goal with |- context [if ?c then _ else _] => destruct c end;
    split; reflexivity.
Qed.

Lemma walk_steps_move (m : Movement) (g : Game) (e : RandomWalkEnemy.t) :
  walk_step_x (RandomWalkEnemy.move m g e) = walk_step_x e /\
  walk_step_y (RandomWalkEnemy.move m g e) = walk_step_y e.
Proof.
  destruct (random_walk_move_keeps m g e) as [Hs Hd].
  unfold walk_step_x, walk_step_y. rewrite Hs, Hd. split; reflexivity.
Qed.

(** The two moves of an update keep the enemy in its area. *)
Lemma random_walk_moves_in_area (g : Game) (e : RandomWalkEnemy.t) :
  0 <= RandomWalkEnemy.speed e ->
  0 <= IZR (winfo_width (canvas g)) ->
  0 <= IZR (screen_height g) ->
  in_walk_area g e ->
  let e1 := RandomWalkEnemy.move (RandomWalkEnemy.x_movement e) g e in
  in_walk_area g (RandomWalkEnemy.move (RandomWalkEnemy.y_movement e1) g e1).
Proof.
  intros Hs Hw Hh [Hx Hy]. cbv zeta.
  destruct (walk_steps_nonneg e Hs) as [Hax Hay].
  set (e1 := RandomWalkEnemy.move (RandomWalkEnemy.x_movement e) g e).
  destruct (walk_steps_move (RandomWalkEnemy.x_movement e) g e) as [Hsx1 Hsy1].
  fold e1 in Hsx1, Hsy1.
  destruct (walk_steps_move (RandomWalkEnemy.y_movement e1) g e1) as [Hsx2 Hsy2].
  assert (H1 : in_walk_area g e1).
  { unfold in_walk_area. rewrite Hsx1, Hsy1. unfold e1.
    unfold RandomWalkEnemy.move, RandomWalkEnemy.left, RandomWalkEnemy.right.
    fold (walk_step_x e).
    destruct (RandomWalkEnemy.x_movement e) eqn:Em; try contradiction;
      match goal with |- context [if ?c then _ else _] => destruct c eqn:E end;
      cbn [RandomWalkEnemy.set_x_movement RandomWalkEnemy.set_base
           RandomWalkEnemy.base RandomWalkEnemy.x_movement
           RandomWalkEnemy.y_movement Enemy.set_x Enemy.x Enemy.y] in *;
      rewrite ?Em; unfold Py.gtb in *; py_tests; (split; [lra | exact Hy]). }
  destruct H1 as [Hx1 Hy1].
  unfold in_walk_area. rewrite Hsx2, Hsy2.
  unfold RandomWalkEnemy.move, RandomWalkEnemy.up, RandomWalkEnemy.down.
  fold (walk_step_y e1).
  destruct (RandomWalkEnemy.y_movement e1) eqn:Em; try contradiction;
    match goal with |- context [if ?c then _ else _] => destruct c eqn:E end;
    cbn [RandomWalkEnemy.set_y_movement RandomWalkEnemy.set_base
         RandomWalkEnemy.base RandomWalkEnemy.x_movement
         RandomWalkEnemy.y_movement Enemy.set_y Enemy.x Enemy.y] in *;
    rewrite ?Em; unfold Py.gtb in *; py_tests; (split; [exact Hx1 | lra]).
Qed.

Lemma random_walk_update_early (now : R) (g : Game) (e : RandomWalkEnemy.t) :
  now - Enemy.start_time (RandomWalkEnemy.base e) < 5 ->
  let e1 := RandomWalkEnemy.move (RandomWalkEnemy.x_movement e) g e in
  snd (RandomWalkEnemy.update now g e)
    = RandomWalkEnemy.move (RandomWalkEnemy.y_movement e1) g e1 /\
  winfo_width (canvas (fst (RandomWalkEnemy.update now g e)))
    = winfo_width (canvas g) /\
  screen_height (fst (RandomWalkEnemy.update now g e)) = screen_height g.
Proof.
  intros H. cbv zeta. rewrite random_walk_update_cases. cbv zeta.
  apply geb_false in H. rewrite H. cbn [fst snd].
  split; [reflexivity|]. destruct (Enemy.hits_player _ _); split; reflexivity.
Qed.

Lemma in_walk_area_game (g g' : Game) (e : RandomWalkEnemy.t) :
  winfo_width (canvas g') = winfo_width (canvas g) ->
  screen_height g' = screen_height g ->
  in_walk_area g e -> in_walk_area g' e.
Proof. unfold in_walk_area. intros -> ->. auto. Qed.

Lemma random_walk_run_in_area (times : list R) (g : Game)
    (e : RandomWalkEnemy.t) :
  0 <= RandomWalkEnemy.speed e ->
  0 <= IZR (winfo_width (canvas g)) ->
  0 <= IZR (screen_height g) ->
  Forall (fun now => now - Enemy.start_time (RandomWalkEnemy.base e) < 5)
         times ->
  in_walk_area g e ->
  in_walk_area (fst (random_walk_run times g e))
               (snd (random_walk_run times g e)).
Proof.
  unfold random_walk_run. revert g e.
  induction times as [|now times IH]; intros g e Hs Hw Hh Hall Hinv;
    cbn [fold_left fst snd]; [exact Hinv|].
  inversion Hall as [|? ? Hnow Hrest]; subst.
  destruct (random_walk_update_early now g e Hnow) as (Hsnd & Hcw & Hsh).
  rewrite (surjective_pairing (RandomWalkEnemy.update now g e)).
  apply IH.
  - rewrite Hsnd.
    destruct (random_walk_move_keeps
                (RandomWalkEnemy.y_movement
                   (RandomWalkEnemy.move (RandomWalkEnemy.x_movement e) g e))
                g (RandomWalkEnemy.move (RandomWalkEnemy.x_movement e) g e))
      as [-> _].
    destruct (random_walk_move_keeps (RandomWalkEnemy.x_movement e) g e)
      as [-> _].
    exact Hs.
  - rewrite Hcw. exact Hw.
  - rewrite Hsh. exact Hh.
  - rewrite random_walk_update_start_time. exact Hrest.
  - rewrite Hsnd. apply (in_walk_area_game g); [exact Hcw | exact Hsh|].
    apply random_walk_moves_in_area; assumption.
Qed.

(** X9: a RandomWalk enemy bounces at the borders. With a speed that is
    not negative, an enemy that is in its area (inside the canvas, or at
    most one step past the border it is leaving) is still in it after any
    updates made before the expiry (elapsed time below 5): on each axis it
    never strays further than one step from [[0, width]] and
    [[0, screen_height]]. *)
Theorem random_walk_stays_in_area (times : list R) (g : Game)
    (e : RandomWalkEnemy.t) :
  0 <= RandomWalkEnemy.speed e ->
  0 <= IZR (winfo_width (canvas g)) ->
  0 <= IZR (screen_height g) ->
  Forall (fun now => now - Enemy.start_time (RandomWalkEnemy.base e) < 5)
         times ->
  in_walk_area g e ->
  let g' := fst (random_walk_run times g e) in
  let e' := snd (random_walk_run times g e) in
  in_walk_area g' e' /\
  (- walk_step_x e <= Enemy.x (RandomWalkEnemy.base e')
     <= IZR (winfo_width (canvas g)) + walk_step_x e) /\
  (- walk_step_y e <= Enemy.y (RandomWalkEnemy.base e')
     <= IZR (screen_height g) + walk_step_y e).
Proof.
  intros Hs Hw Hh Hall Hinv. cbv zeta.
  pose proof (random_walk_run_in_area times g e Hs Hw Hh Hall Hinv) as Hend.
  split; [exact Hend|].
  assert (Hkeep : walk_step_x (snd (random_walk_run times g e)) = walk_step_x e
                  /\ walk_step_y (snd (random_walk_run times g e)) = walk_step_y e
                  /\ winfo_width (canvas (fst (random_walk_run times g e)))
                     = winfo_width (canvas g)
                  /\ screen_height (fst (random_walk_run times g e))
                     = screen_height g).
  { clear Hend Hinv Hs Hw Hh. unfold random_walk_run. revert g e Hall.
    induction times as [|now times IH]; intros g e Hall;
      cbn [fold_left fst snd]; [repeat split; reflexivity|].
    inversion Hall as [|? ? Hnow Hrest]; subst.
    destruct (random_walk_update_early now g e Hnow) as (Hsnd & Hcw & Hsh).
    rewrite (surjective_pairing (RandomWalkEnemy.update now g e)).
    destruct (IH (fst (RandomWalkEnemy.update now g e))
                 (snd (RandomWalkEnemy.update now g e)))
      as (H1 & H2 & H3 & H4).
    { rewrite random_walk_update_start_time. exact Hrest. }
    rewrite H1, H2, H3, H4, Hcw, Hsh, Hsnd.
    set (e1 := RandomWalkEnemy.move (RandomWalkEnemy.x_movement e) g e).
    destruct (walk_steps_move (RandomWalkEnemy.y_movement e1) g e1)
      as [-> ->].
    destruct (walk_steps_move (RandomWalkEnemy.x_movement e) g e)
      as [Hx1 Hy1]. fold e1 in Hx1, Hy1. rewrite Hx1, Hy1.
    repeat split; reflexivity. }
  destruct Hkeep as (Hkx & Hky & Hkw & Hkh).
  destruct (walk_steps_nonneg e Hs) as [Hax Hay].
  unfold in_walk_area in Hend. rewrite Hkx, Hky, Hkw, Hkh in Hend.
  destruct Hend as [Hx Hy].
  destruct (RandomWalkEnemy.x_movement _); try contradiction;
    destruct (RandomWalkEnemy.y_movement _); try contradiction;
    split; lra.
Qed.

Lemma random_walk_stays_in_area_witness :
  in_walk_area (fst (random_walk_run [1; 2] game_idle random_walk_example))
               (snd (random_walk_run [1; 2] game_idle random_walk_example)).
Proof.
  apply (random_walk_stays_in_area [1; 2] game_idle random_walk_example).
  - cbn. lra.
  - cbn. lra.
  - cbn. lra.
  - repeat constructor; cbn; lra.
  - assert (H := walk_steps_nonneg random_walk_example).
    destruct H as [Hx Hy]; [cbn; lra|].
    unfold in_walk_area.
    cbn [random_walk_example RandomWalkEnemy.x_movement
         RandomWalkEnemy.y_movement RandomWalkEnemy.base Enemy.x Enemy.y
         game_idle example_game canvas winfo_width screen_height].
    split; lra.
Defined.

(** ** The constructors *)

Lemma log_base_raises (x b : R) : x <= 0 -> Py.log_base x b = None.
Proof.
  intros H. unfold Py.log_base, Py.log.
  destruct (Rlt_dec 0 x); [lra | reflexivity].
Qed.

Lemma log_ratio_nonneg (x b : R) : 1 <= x -> 1 < b -> 0 <= ln x / ln b.
Proof.
  intros Hx Hb. pose proof (ln_nonneg x Hx).
  assert (0 < ln b) by (rewrite <- ln_1; apply ln_increasing; lra).
  apply Rmult_le_pos; [assumption|]. left. now apply Rinv_0_lt_compat.
Qed.

Lemma random_walk_init_raises (x0 y0 now size : R) (c : string) (lv : Z)
    (r : Rng) :
  (lv <= 0)%Z -> RandomWalkEnemy.init x0 y0 now size c lv r = None.
Proof.
  intros Hl. unfold RandomWalkEnemy.init, bind, lift.
  rewrite log_base_raises; [reflexivity|]. apply (IZR_le lv 0). exact Hl.
Qed.

(** X10: the constructor of a RandomWalk enemy raises exactly for a level
    below 1. Otherwise the enemy moves left or right on x and up or down
    on y, its direction is an integer of [[0, 360)], and its speed is
    [7 * log_50(level) + 3.7], at least 3.7. *)
Theorem random_walk_init_result (x0 y0 now size : R) (c : string) (lv : Z)
    (r : Rng) :
  ((lv <= 0)%Z -> RandomWalkEnemy.init x0 y0 now size c lv r = None) /\
  ((1 <= lv)%Z ->
   exists e r',
     RandomWalkEnemy.init x0 y0 now size c lv r = Some (e, r') /\
     (RandomWalkEnemy.x_movement e = Left \/ RandomWalkEnemy.x_movement e = Right) /\
     (RandomWalkEnemy.y_movement e = Up \/ RandomWalkEnemy.y_movement e = Down) /\
     (0 <= RandomWalkEnemy.direction e < 360)%Z /\
     RandomWalkEnemy.speed e = 7 * (ln (IZR lv) / ln 50) + 3.7 /\
     3.7 <= RandomWalkEnemy.speed e /\
     RandomWalkEnemy.base e = Enemy.mk x0 y0 size c now None).
Proof.
  split.
  - apply random_walk_init_raises.
  - intros Hl.
    assert (H1 : 1 <= IZR lv) by (apply IZR_le; exact Hl).
    unfold RandomWalkEnemy.init, bind, lift, ret.
    rewrite log_base_defined by lra.
    destruct (choice_succeeds (Py.range 0 360) r) as (d & -> & Hd);
      [apply range_nonempty; lia|].
    match goal with |- context [choice [Left; Right] ?r1] =>
      destruct (choice_succeeds [Left; Right] r1) as (mx & -> & Hmx);
        [discriminate|] end.
    match goal with |- context [choice [Up; Down] ?r1] =>
      destruct (choice_succeeds [Up; Down] r1) as (my & -> & Hmy);
        [discriminate|] end.
    eexists. eexists. split; [reflexivity|].
    cbn [RandomWalkEnemy.x_movement RandomWalkEnemy.y_movement
         RandomWalkEnemy.direction RandomWalkEnemy.speed RandomWalkEnemy.base].
    split; [destruct Hmx as [<- | [<- | []]]; auto|].
    split; [destruct Hmy as [<- | [<- | []]]; auto|].
    split; [apply range_in; exact Hd|].
    split; [reflexivity|].
    split; [|reflexivity].
    pose proof (log_ratio_nonneg (IZR lv) 50 H1 ltac:(lra)). lra.
Qed.

Lemma random_walk_init_result_witness :
  exists e r',
    RandomWalkEnemy.init 0 0 0 14 "blue" 3 rng_zero = Some (e, r') /\
    3.7 <= RandomWalkEnemy.speed e.
Proof.
  destruct (random_walk_init_result 0 0 0 14 "blue" 3 rng_zero) as [_ H].
  destruct H as (e & r' & Hi & _ & _ & _ & _ & Hs & _); [lia|].
  exists e, r'. split; assumption.
Defined.

(** X11: the constructor of a Fencing enemy raises exactly for a level
    below 0. Otherwise the fence is an integer of [[20, 50)], the enemy
    starts moving up, and its speed is
    [log_20(level + 1) * level * 0.05 + 0.7], at least 0.7. *)
Theorem fencing_init_result (x0 y0 now size : R) (c : string) (lv : Z)
    (r : Rng) :
  ((lv < 0)%Z -> FencingEnemy.init x0 y0 now size c lv r = None) /\
  ((0 <= lv)%Z ->
   exists e r',
     FencingEnemy.init x0 y0 now size c lv r = Some (e, r') /\
     (20 <= FencingEnemy.fence e < 50)%Z /\
     FencingEnemy.movement e = Up /\
     FencingEnemy.speed e
       = ln (IZR (lv + 1)) / ln 20 * IZR lv * 0.05 + 0.7 /\
     0.7 <= FencingEnemy.speed e /\
     FencingEnemy.base e = Enemy.mk x0 y0 size c now None).
Proof.
  split.
  - intros Hl. unfold FencingEnemy.init, bind, lift.
    rewrite log_base_raises; [reflexivity|]. apply (IZR_le (lv + 1) 0). lia.
  - intros Hl.
    assert (H0 : 0 <= IZR lv) by (apply (IZR_le 0 lv); exact Hl).
    assert (H1 : 1 <= IZR (lv + 1)) by (apply (IZR_le 1); lia).
    unfold FencingEnemy.init, bind, lift, ret.
    rewrite log_base_defined by lra.
    destruct (choice_succeeds (Py.range 20 50) r) as (f & -> & Hf);
      [apply range_nonempty; lia|].
    eexists. eexists. split; [reflexivity|].
    cbn [FencingEnemy.fence FencingEnemy.movement FencingEnemy.speed
         FencingEnemy.base].
    split; [apply range_in; exact Hf|].
    split; [reflexivity|]. split; [reflexivity|]. split; [|reflexivity].
    pose proof (log_ratio_nonneg (IZR (lv + 1)) 20 H1 ltac:(lra)). nra.
Qed.

Lemma fencing_init_result_witness :
  exists e r',
    FencingEnemy.init 0 0 0 10 "red" 7 rng_zero = Some (e, r') /\
    (20 <= FencingEnemy.fence e < 50)%Z.
Proof.
  destruct (fencing_init_result 0 0 0 10 "red" 7 rng_zero) as [_ H].
  destruct H as (e & r' & Hi & Hf & _); [lia|].
  exists e, r'. split; assumption.
Defined.

(** X12: the constructor of a Straight enemy raises exactly for a level
    below 1; otherwise the speed is [7 * log_49(level)], which is 0 at
    level 1 (such an enemy never moves) and positive above. *)
Theorem straight_init_result (x0 y0 now size : R) (c : string) (d lv : Z) :
  ((lv <= 0)%Z -> StraightEnemy.init x0 y0 now size c d lv = None) /\
  ((1 <= lv)%Z ->
   StraightEnemy.init x0 y0 now size c d lv
     = Some (StraightEnemy.mk (Enemy.mk x0 y0 size c now None)
                              (7 * (ln (IZR lv) / ln 49)) d) /\
   (lv = 1%Z -> 7 * (ln (IZR lv) / ln 49) = 0) /\
   ((1 < lv)%Z -> 0 < 7 * (ln (IZR lv) / ln 49))).
Proof.
  split.
  - intros Hl. unfold StraightEnemy.init.
    rewrite log_base_raises; [reflexivity|]. apply (IZR_le lv 0). exact Hl.
  - intros Hl.
    assert (H1 : 1 <= IZR lv) by (apply IZR_le; exact Hl).
    assert (H49 : 0 < ln 49) by (rewrite <- ln_1; apply ln_increasing; lra).
    unfold StraightEnemy.init. rewrite log_base_defined by lra.
    split; [reflexivity|]. split.
    + intros ->. rewrite ln_1. lra.
    + intros Hgt. assert (H2 : 1 < IZR lv) by (apply IZR_lt; exact Hgt).
      assert (0 < ln (IZR lv)) by (rewrite <- ln_1; apply ln_increasing; lra).
      assert (0 < ln (IZR lv) / ln 49)
        by (apply Rmult_lt_0_compat; [assumption | now apply Rinv_0_lt_compat]).
      lra.
Qed.

Lemma straight_init_result_witness :
  StraightEnemy.init 0 0 0 37 "yellow" 90 0 = None /\
  exists e, StraightEnemy.init 0 0 0 37 "yellow" 90 3 = Some e /\
            0 < StraightEnemy.speed e.
Proof.
  split.
  - apply (proj1 (straight_init_result 0 0 0 37 "yellow" 90 0)). lia.
  - destruct (proj2 (straight_init_result 0 0 0 37 "yellow" 90 3))
      as (Hi & _ & Hpos); [lia|].
    eexists. split; [exact Hi|]. cbn [StraightEnemy.speed]. apply Hpos. lia.
Defined.

(** ** Speeds *)

(** Finite laser speeds decrease strictly with the level. *)
Lemma laser_speed_decreasing (lv lv' : Z) (v v' : R) :
  (lv < lv')%Z ->
  laser_speed lv = Py.Finite v -> laser_speed lv' = Py.Finite v' ->
  0 < v' < v.
Proof.
  intros Hlt Hv Hv'. unfold laser_speed in Hv, Hv'. cbv zeta in Hv, Hv'.
  repeat match type of Hv with
         | context [if ?c then _ else _] => destruct c; try discriminate Hv
         end.
  repeat match type of Hv' with
         | context [if ?c then _ else _] => destruct c; try discriminate Hv'
         end.
  injection Hv as <-. injection Hv' as <-.
  pose proof (powerRZ_lt 1.01 lv ltac:(lra)) as Ha.
  pose proof (powerRZ_lt 1.01 lv' ltac:(lra)) as Hb.
  pose proof (powerRZ_101_increasing lv lv' Hlt) as Hinc.
  assert (Hinv : / powerRZ 1.01 lv' < / powerRZ 1.01 lv)
    by (apply Rinv_lt_contravar; [nra | exact Hinc]).
  assert (0 < / powerRZ 1.01 lv') by (apply Rinv_0_lt_compat; exact Hb).
  unfold Rdiv; rewrite !Rmult_1_l; lra.
Qed.

(** X13: from level 0 on, and as long as the power [1.01**level] is a
    finite float, the speed of a laser, which is also the time it waits
    before firing, is the finite float [10*(1/(1.01**level))/11]: it is
    positive and decreases strictly with the level, from 10/11 at level
    0, and the constructor stores it. When the power exceeds the largest
    float, as it does at level 71680, the expression raises
    [OverflowError], and so does the constructor. *)
Theorem laser_speed_decays (lv lv' : Z) :
  (0 <= lv < lv')%Z ->
  powerRZ 1.01 lv' <= Py.float_max ->
  (exists v v',
     laser_speed lv = Py.Finite v /\ laser_speed lv' = Py.Finite v' /\
     v = 10 * (1 / powerRZ 1.01 lv) / 11 /\
     0 < v' < v /\
     LaserEnemy.init 0 0 0 14 "black" 0 lv
       = Built (LaserEnemy.mk (Enemy.init 0 0 0 14 "black") lv v
                              None Inactive 0)) /\
  laser_speed 0 = Py.Finite (10 / 11) /\
  (forall l, Py.float_max < powerRZ 1.01 l ->
     laser_speed l = Py.OverflowError /\
     LaserEnemy.init 0 0 0 14 "black" 0 l = Raised) /\
  laser_speed 71680 = Py.OverflowError.
Proof.
  intros Hlt Hr'.
  assert (Hr : powerRZ 1.01 lv <= Py.float_max).
  { apply Rle_trans with (powerRZ 1.01 lv'); [|exact Hr'].
    apply powerRZ_101_monotone. lia. }
  pose proof (laser_speed_finite lv ltac:(lia) Hr) as Hv.
  pose proof (laser_speed_finite lv' ltac:(lia) Hr') as Hv'.
  split; [|split; [|split]].
  - eexists. eexists. split; [exact Hv|]. split; [exact Hv'|].
    split; [reflexivity|].
    split; [apply (laser_speed_decreasing lv lv'); [lia | exact Hv | exact Hv']|].
    unfold LaserEnemy.init. rewrite Hv. reflexivity.
  - rewrite laser_speed_finite; [|lia|].
    + cbn [powerRZ]. f_equal. field.
    + cbn [powerRZ]. pose proof float_max_bounds as [Hm _].
      assert (2 ^ 0 <= 2 ^ 1023) by (apply Rle_pow; [lra | lia]).
      cbn [pow] in *. lra.
  - intros l Hl. pose proof (laser_speed_overflow l Hl) as Ho.
    split; [exact Ho|]. unfold LaserEnemy.init. rewrite Ho. reflexivity.
  - apply laser_speed_overflow, power_out_of_range. lia.
Qed.

(** Levels 1 and 2: both speeds are finite, the second is the smaller. *)
Lemma laser_speed_decays_witness :
  exists v v',
    laser_speed 1 = Py.Finite v /\ laser_speed 2 = Py.Finite v' /\
    0 < v' < v.
Proof.
  destruct (laser_speed_decays 1 2) as ((v & v' & Hv & Hv' & _ & Hlt & _) & _);
    [lia | apply power_in_range; lia |].
  exists v, v'. split; [exact Hv|]. split; [exact Hv' | exact Hlt].
Defined.

(** X14: the speed of a Stalk enemy is at least 0.5 at every level, and
    from level 0 on it is at most [0.5 + 0.02 * level]. *)
Theorem stalk_speed_bounds (x0 y0 now size : R) (c : string) (lv : Z) :
  0.5 <= StalkEnemy.speed (StalkEnemy.init x0 y0 now size c lv) /\
  ((0 <= lv)%Z ->
   StalkEnemy.speed (StalkEnemy.init x0 y0 now size c lv)
     <= 0.5 + 0.02 * IZR lv).
Proof.
  cbn [StalkEnemy.init StalkEnemy.speed].
  pose proof (exp_pos (- IZR lv)) as Hpos.
  assert (Hsign : 0 <= (1 - exp (- IZR lv)) * IZR lv).
  { destruct (Rle_dec 0 (IZR lv)) as [H0 | H0].
    - apply Rmult_le_pos; [|exact H0].
      destruct H0 as [H0 | H0].
      + assert (exp (- IZR lv) < exp 0) by (apply exp_increasing; lra).
        rewrite exp_0 in *. lra.
      + rewrite <- H0, Ropp_0, exp_0. lra.
    - assert (exp 0 < exp (- IZR lv)) by (apply exp_increasing; lra).
      rewrite exp_0 in *. nra. }
  split; [lra|].
  intros Hl. assert (H0 : 0 <= IZR lv) by (apply (IZR_le 0); exact Hl). nra.
Qed.

Lemma stalk_speed_bounds_witness :
  StalkEnemy.speed stalk_fresh <= 0.5 + 0.02 * 2.
Proof.
  apply (proj2 (stalk_speed_bounds 0 0 0 7 "magenta" 2)). lia.
Defined.

(** ** The life of a Stalk enemy *)

Lemma ln_2_floor : Zfloor (ln 2) = 0%Z.
Proof.
  apply Zfloor_eq. split.
  - apply ln_nonneg. lra.
  - replace (IZR 0 + 1) with (ln (exp 1)) by (rewrite ln_exp; lra).
    apply ln_increasing; [lra|]. pose proof (exp_ineq1 1 ltac:(lra)). lra.
Qed.

Lemma stalk_threshold_low (lv : Z) :
  (0 <= lv <= 1)%Z -> Zfloor (ln (IZR (lv + 1))) = 0%Z.
Proof.
  intros H. assert (Hc : lv = 0%Z \/ lv = 1%Z) by lia.
  destruct Hc as [-> | ->].
  - change (0 + 1)%Z with 1%Z. rewrite ln_1. apply ZfloorZ.
  - change (1 + 1)%Z with 2%Z. apply ln_2_floor.
Qed.

Lemma stalk_threshold_high (lv : Z) :
  (2 <= lv)%Z -> (1 <= Zfloor (ln (IZR (lv + 1))))%Z.
Proof.
  intros H.
  assert (H3 : 3 <= IZR (lv + 1)) by (apply (IZR_le 3); lia).
  assert (Hln : ln 3 <= ln (IZR (lv + 1))).
  { destruct H3 as [H3 | H3].
    - left. apply ln_increasing; lra.
    - rewrite <- H3. lra. }
  apply Zfloor_le in Hln. rewrite ln_3_floor in Hln. exact Hln.
Qed.

(** X15: a Stalk enemy of level 2 or more is not torn down before 3000
    time units have elapsed; one of level 0 or 1 has the threshold 0 and
    is sent to [(-999, -999)] by its first update. *)
Theorem stalk_lifetime (now : R) (g : Game) (e : StalkEnemy.t) :
  ((2 <= StalkEnemy.level e)%Z ->
   now - Enemy.start_time (StalkEnemy.base e) < 3000 ->
   exists g' e',
     StalkEnemy.update now g e = Some (g', e') /\
     teardowns g' = teardowns g) /\
  ((0 <= StalkEnemy.level e <= 1)%Z ->
   0 <= now - Enemy.start_time (StalkEnemy.base e) ->
   exists g' e',
     StalkEnemy.update now g e = Some (g', e') /\
     teardowns g' = S (teardowns g) /\
     at_sentinel (StalkEnemy.base e')).
Proof.
  split.
  - intros Hl Hearly.
    destruct (stalk_update_fires now g e) as (g' & e' & Hu & [_ Hno] & _);
      [lia|].
    exists g', e'. split; [exact Hu|]. apply Hno.
    pose proof (stalk_threshold_high _ Hl) as Hth.
    assert (3000 <= IZR (3000 * Zfloor (ln (IZR (StalkEnemy.level e + 1)))))
      by (apply (IZR_le 3000); lia).
    lra.
  - intros Hl Hnow.
    assert (Hge : now - Enemy.start_time (StalkEnemy.base e)
                  >= IZR (3000 * Zfloor (ln (IZR (StalkEnemy.level e + 1))))).
    { rewrite stalk_threshold_low by exact Hl.
      change (3000 * 0)%Z with 0%Z. lra. }
    destruct (stalk_update_fires now g e) as (g' & e' & Hu & [Hyes _] & _);
      [lia|].
    destruct (stalk_update_expired now g e) as (g2 & e2 & Hu2 & Hat & _);
      [lia | exact Hge|].
    rewrite Hu in Hu2. injection Hu2 as <- <-.
    exists g', e'. split; [exact Hu|]. split; [apply Hyes; exact Hge | exact Hat].
Qed.

Lemma stalk_lifetime_witness :
  exists g' e',
    StalkEnemy.update 10 game_idle stalk_example = Some (g', e') /\
    teardowns g' = teardowns game_idle.
Proof.
  apply (proj1 (stalk_lifetime 10 game_idle stalk_example)).
  - cbn. lia.
  - cbn. lra.
Defined.

(** ** The rounds of the generator *)

(** X16: a round at a level below 1 raises: the logarithm of the level is
    not defined, and the constructor of the RandomWalk enemy, which every
    round calls, fails at the latest. *)
Theorem create_enemy_raises_below_level_1 (x0 y0 now : R) (s : Session)
    (gen : EnemyGenerator.t) (r : Rng) :
  (EnemyGenerator.level gen <= 0)%Z ->
  EnemyGenerator.create_enemy x0 y0 now s gen r = None.
Proof.
  intros Hl. unfold EnemyGenerator.create_enemy.
  cbv beta iota delta [bind ret lift].
  destruct (EnemyGenerator.level gen mod 2 =? 0)%Z; cbv beta iota;
    (destruct (EnemyGenerator.level gen mod 7 =? 0)%Z; cbv beta iota;
     [match goal with |- context [FencingEnemy.init ?a ?b ?c ?d ?e ?l ?r0] =>
        destruct (FencingEnemy.init a b c d e l r0) as [[fe r1]|];
          [|reflexivity] end|]);
    rewrite random_walk_init_raises by exact Hl; reflexivity.
Qed.

Lemma create_enemy_raises_below_level_1_witness :
  EnemyGenerator.create_enemy 0 0 0 session_idle (EnemyGenerator.mk 0) rng_zero
    = None.
Proof. apply create_enemy_raises_below_level_1. cbn. lia. Defined.

Lemma int_of_nonneg (x : R) : 0 <= x -> (0 <= Py.int x)%Z /\ IZR (Py.int x) <= x.
Proof.
  intros H. rewrite int_nonneg by exact H.
  pose proof (Zfloor_bound x). split; [apply Zfloor_lub; exact H | lra].
Qed.

(** What a round from level 1 on does besides counting: the elements it
    adds end with the lasers, the game only has its level text changed,
    and the next round is due after [n * 20 + int(1000 * 2 * spd)], if the
    game is started. *)
Lemma create_enemy_effects (x0 y0 now : R) (s : Session)
    (gen : EnemyGenerator.t) (r : Rng) :
  (1 <= EnemyGenerator.level gen)%Z ->
  powerRZ 1.01 (EnemyGenerator.level gen) <= Py.float_max ->
  let lv := EnemyGenerator.level gen in
  let k := if (lv mod 10 =? 0)%Z then 3%Z else 5%Z in
  let n := Zfloor (ln (IZR lv) / ln 15 * IZR lv / IZR k) in
  let spd := 10 * (1 / powerRZ 1.01 lv) / 11 in
  let g := game s in
  exists others s' r',
    EnemyGenerator.create_enemy x0 y0 now s gen r
      = Some ((s', EnemyGenerator.mk (lv + 1),
               if is_started g
               then Some (n * 20 + Py.int (1000 * 2 * spd))%Z
               else None), r') /\
    game s' = set_canvas g (call (canvas g)
                (itemconfigure_text (level_text g) (level_label lv))) /\
    elements s'
      = elements s ++ others
        ++ map (fun i => Laser (LaserEnemy.mk
                                  (Enemy.init x0 y0 now 14 "black")
                                  lv spd None Inactive (0.02 * IZR i)))
               (Py.range 0 n) /\
    count is_laser others = 0%nat.
Proof.
  intros Hl Hr lv k n spd g.
  destruct (laser_num_floor lv Hl) as [Hn Hn0]. fold k in Hn, Hn0.
  fold n in Hn, Hn0.
  pose proof (laser_speed_finite lv ltac:(lia) Hr) as Hsp. fold spd in Hsp.
  unfold EnemyGenerator.create_enemy. fold lv.
  cbv beta iota delta [bind ret lift]. rewrite Hn.
  destruct (lv mod 2 =? 0)%Z; cbv beta iota;
  (destruct (lv mod 7 =? 0)%Z; cbv beta iota;
   [match goal with |- context [FencingEnemy.init ?a ?b ?c ?d ?e ?l ?r0] =>
      destruct (fencing_init_succeeds a b c d e l r0 Hl) as (fe & r1 & ->) end
   |]);
  (match goal with |- context [RandomWalkEnemy.init ?a ?b ?c ?d ?e ?l ?r0] =>
     destruct (random_walk_init_succeeds a b c d e l r0 Hl)
       as (rw & r2 & -> & Hrw)
   end);
  (destruct (lv mod 3 =? 0)%Z; cbv beta iota;
   [match goal with |- context [choice (Py.range 0 360) ?r0] =>
      destruct (choice_succeeds (Py.range 0 360) r0) as (ang & -> & _);
        [apply range_nonempty; lia|] end;
    match goal with |- context [StraightEnemy.init ?a ?b ?c ?d ?e ?f ?l] =>
      destruct (straight_init_succeeds a b c d e f l Hl) as (st & -> & Hst) end
   |]);
  rewrite (add_lasers _ _ _ _ _ _ _ Hsp), Hsp; cbv beta iota;
  cbn [game elements add_element]; fold g;
  rewrite <- ?app_assoc; cbn [app];
  match goal with
  | |- context [Some (mkSession _ (elements s ++ ?l), _, _, ?r1)] =>
      let rec prefix l :=
        lazymatch l with
        | ?a :: ?l' => let p := prefix l' in constr:(a :: p)
        | _ => constr:(@nil Element)
        end in
      let o := prefix l in
      exists o; eexists; exists r1
  end;
  (split; [reflexivity|]);
  (split; [reflexivity|]);
  (split; [reflexivity|]);
  reflexivity.
Qed.

Lemma round_speed_bounds (lv : Z) :
  (1 <= lv)%Z ->
  (0 <= Py.int (1000 * 2 * (10 * (1 / powerRZ 1.01 lv) / 11)) <= 1800)%Z.
Proof.
  intros Hl.
  assert (Hp : 1.01 <= powerRZ 1.01 lv).
  { pose proof (powerRZ_101_monotone 1 lv Hl) as H1.
    change (powerRZ 1.01 1) with (1.01 ^ 1) in H1. rewrite pow_1 in H1.
    exact H1. }
  assert (Hi : 0 < / powerRZ 1.01 lv <= / 1.01).
  { split; [apply Rinv_0_lt_compat; lra|].
    apply Rinv_le_contravar; lra. }
  assert (Hc : / 1.01 < 1).
  { rewrite <- Rinv_1. apply Rinv_lt_contravar; lra. }
  assert (H101 : 1.01 * / 1.01 = 1) by (apply Rinv_r; lra).
  set (x := 1000 * 2 * (10 * (1 / powerRZ 1.01 lv) / 11)).
  assert (Hx : 0 <= x < 1801).
  { unfold x, Rdiv. rewrite Rmult_1_l. split; [lra|]. nra. }
  destruct (int_of_nonneg x) as [H0 Hle]; [lra|].
  split; [exact H0|].
  assert (Hlt : IZR (Py.int x) < IZR 1801) by lra.
  apply lt_IZR in Hlt. lia.
Qed.

(** X17: a round from level 1 on in which the power [1.01**level] is a
    finite float succeeds, changes nothing of the game but the level
    text, and schedules the next round exactly when the game is started;
    the delay is 20 per laser plus [int(2000 * spd)], where [spd] is the
    laser speed [10*(1/(1.01**level))/11], and that part is between 0 and
    1800. *)
Theorem create_enemy_schedules_next_round (x0 y0 now : R) (s : Session)
    (gen : EnemyGenerator.t) (r : Rng) :
  (1 <= EnemyGenerator.level gen)%Z ->
  powerRZ 1.01 (EnemyGenerator.level gen) <= Py.float_max ->
  let lv := EnemyGenerator.level gen in
  let k := if (lv mod 10 =? 0)%Z then 3%Z else 5%Z in
  let n := Zfloor (ln (IZR lv) / ln 15 * IZR lv / IZR k) in
  let spd := 10 * (1 / powerRZ 1.01 lv) / 11 in
  let g := game s in
  exists s' d r',
    EnemyGenerator.create_enemy x0 y0 now s gen r
      = Some ((s', EnemyGenerator.mk (lv + 1), d), r') /\
    d = (if is_started g
         then Some (n * 20 + Py.int (1000 * 2 * spd))%Z
         else None) /\
    (0 <= Py.int (1000 * 2 * spd) <= 1800)%Z /\
    calls (canvas (game s'))
      = calls (canvas g) ++ [itemconfigure_text (level_text g) (level_label lv)] /\
    (is_started (game s'), player (game s'), home (game s'), waypoint (game s'))
      = (is_started g, player g, home g, waypoint g).
Proof.
  intros Hl Hr lv k n spd g.
  destruct (create_enemy_effects x0 y0 now s gen r Hl Hr)
    as (others & s' & r' & Hrun & Hg & _).
  fold lv k n spd g in Hrun, Hg.
  eexists. eexists. eexists. split; [exact Hrun|].
  split; [reflexivity|]. split; [apply round_speed_bounds; exact Hl|].
  rewrite Hg. split; reflexivity.
Qed.

Lemma create_enemy_schedules_next_round_witness :
  exists s' d r',
    EnemyGenerator.create_enemy 0 0 0 session_idle (EnemyGenerator.mk 1) rng_zero
      = Some ((s', EnemyGenerator.mk 2, d), r') /\
    is_started (game s') = true.
Proof.
  destruct (create_enemy_schedules_next_round 0 0 0 session_idle
              (EnemyGenerator.mk 1) rng_zero)
    as (s' & d & r' & Hrun & _ & _ & _ & Hkeep);
    [cbn; lia | apply power_in_range; cbn; lia |].
  exists s', d, r'. split; [exact Hrun|].
  now injection Hkeep.
Defined.

(** X18: the lasers of a round are the last elements it adds, in the
    order of their delays: the one of index [i] waits [0.02 * i] longer,
    and all are inactive, without a direction yet, at the level of the
    round and with the speed [10*(1/(1.01**level))/11] of that level.
    This holds from level 1 on, as long as the power [1.01**level] is a
    finite float. *)
Theorem create_enemy_staggers_lasers (x0 y0 now : R) (s : Session)
    (gen : EnemyGenerator.t) (r : Rng) :
  (1 <= EnemyGenerator.level gen)%Z ->
  powerRZ 1.01 (EnemyGenerator.level gen) <= Py.float_max ->
  let lv := EnemyGenerator.level gen in
  let k := if (lv mod 10 =? 0)%Z then 3%Z else 5%Z in
  let n := Zfloor (ln (IZR lv) / ln 15 * IZR lv / IZR k) in
  let spd := 10 * (1 / powerRZ 1.01 lv) / 11 in
  exists others s' d r',
    EnemyGenerator.create_enemy x0 y0 now s gen r
      = Some ((s', EnemyGenerator.mk (lv + 1), d), r') /\
    elements s'
      = elements s ++ others
        ++ map (fun i => Laser (LaserEnemy.mk (Enemy.mk x0 y0 14 "black" now None)
                                              lv spd None Inactive
                                              (0.02 * IZR i)))
               (Py.range 0 n) /\
    count is_laser others = 0%nat.
Proof.
  intros Hl Hr lv k n spd.
  destruct (create_enemy_effects x0 y0 now s gen r Hl Hr)
    as (others & s' & r' & Hrun & _ & Hel & Hcount).
  fold lv k n spd in Hrun, Hel.
  exists others, s'. eexists. exists r'.
  split; [exact Hrun|]. split; [exact Hel | exact Hcount].
Qed.

Lemma level_15_lasers : Zfloor (ln (IZR 15) / ln 15 * IZR 15 / IZR 5) = 3%Z.
Proof.
  assert (H15 : 0 < ln 15) by (rewrite <- ln_1; apply ln_increasing; lra).
  replace (ln (IZR 15) / ln 15 * IZR 15 / IZR 5) with (IZR 3) by (field; lra).
  apply ZfloorZ.
Qed.

(** The round of level 15 ends with three lasers, 0.02 apart. *)
Lemma create_enemy_staggers_lasers_witness :
  exists others s' d r',
    EnemyGenerator.create_enemy 0 0 0 session_idle (EnemyGenerator.mk 15)
                                rng_zero
      = Some ((s', EnemyGenerator.mk 16, d), r') /\
    elements s'
      = others
        ++ map (fun i => Laser (LaserEnemy.mk (Enemy.mk 0 0 14 "black" 0 None)
                                              15 (10 * (1 / powerRZ 1.01 15) / 11)
                                              None Inactive (0.02 * IZR i)))
               [0; 1; 2]%Z /\
    count is_laser others = 0%nat.
Proof.
  destruct (create_enemy_staggers_lasers 0 0 0 session_idle
              (EnemyGenerator.mk 15) rng_zero)
    as (others & s' & d & r' & Hrun & Hel & Hc);
    [cbn; lia | apply power_in_range; cbn; lia |].
  cbn [EnemyGenerator.level] in Hrun, Hel.
  change (15 mod 10 =? 0)%Z with false in Hel.
  change (IZR (if false then 3%Z else 5%Z)) with (IZR 5) in Hel.
  rewrite level_15_lasers in Hel.
  change (Py.range 0 3) with [0; 1; 2]%Z in Hel.
  change (elements session_idle) with (@nil Element) in Hel.
  cbn [app] in Hel.
  exists others, s', d, r'. split; [exact Hrun|]. split; [exact Hel | exact Hc].
Defined.

(** ** Where enemies can spawn *)

Lemma choice_empty {A} (r : Rng) : @choice A [] r = None.
Proof.
  unfold choice, next_draw. cbn [List.length].
  destruct (draws r (cursor r) mod 0)%nat; reflexivity.
Qed.

Lemma spawn_coordinate_raises (bound : Z) (p : R) (r : Rng) :
  Enemy.spawn_coordinate bound p r = None <-> no_room bound p.
Proof.
  unfold no_room. split.
  - intros Hnone.
    destruct (Z_le_gt_dec bound 0) as [Hb | Hb]; [left; exact Hb | right].
    destruct (Z_le_gt_dec (Py.int (p - 20)) 0) as [Hlo | Hlo].
    + split; [exact Hlo|].
      destruct (Z_le_gt_dec bound (Py.int (p + 20))) as [Hhi | Hhi];
        [exact Hhi|].
      destruct (spawn_coordinate_succeeds bound p r
                  (Z.max 0 (Py.int (p + 20)))) as (z & r' & Hs); try lia.
      rewrite Hs in Hnone. discriminate.
    + destruct (spawn_coordinate_succeeds bound p r 0) as (z & r' & Hs);
        try lia.
      rewrite Hs in Hnone. discriminate.
  - intros Hno. unfold Enemy.spawn_coordinate.
    destruct (exclude (Py.range 0 bound)
                (Py.range (Py.int (p - 20)) (Py.int (p + 20))))
      as [|z l] eqn:E; [apply choice_empty|].
    assert (Hin : In z (exclude (Py.range 0 bound)
                          (Py.range (Py.int (p - 20)) (Py.int (p + 20)))))
      by (rewrite E; left; reflexivity).
    apply exclude_in in Hin. rewrite !range_in in Hin. lia.
Qed.

(** X19: [create] of a Stalk enemy raises exactly when an axis has no
    room: the canvas is empty on it, or the window of 20 around the player
    covers it from 0 to the bound. *)
Theorem stalk_create_raises_iff (g : Game) (e : StalkEnemy.t) (r : Rng) :
  StalkEnemy.create g e r = None <->
  no_room (winfo_width (canvas g)) (player_x (player g)) \/
  no_room (winfo_height (canvas g)) (player_y (player g)).
Proof.
  unfold StalkEnemy.create, bind, ret.
  destruct (Enemy.spawn_coordinate (winfo_width (canvas g)) _ r)
    as [[zx r1]|] eqn:Ex.
  - destruct (Enemy.spawn_coordinate (winfo_height (canvas g)) _ r1)
      as [[zy r2]|] eqn:Ey.
    + cbn [create]. split; [discriminate|].
      intros [H | H];
        [apply (spawn_coordinate_raises _ _ r) in H
        | apply (spawn_coordinate_raises _ _ r1) in H]; congruence.
    + split; [intros _ | reflexivity].
      right. apply (spawn_coordinate_raises _ _ r1). exact Ey.
  - split; [intros _ | reflexivity].
    left. apply (spawn_coordinate_raises _ _ r). exact Ex.
Qed.

Lemma stalk_create_raises_iff_witness :
  StalkEnemy.create game_narrow stalk_fresh rng_zero = None.
Proof.
  apply stalk_create_raises_iff. left. unfold no_room. right.
  cbn [game_narrow canvas winfo_width player player_x turtle RawTurtle.xcor].
  replace (15 - 20) with (IZR (-5)) by lra.
  replace (15 + 20) with (IZR 35) by lra.
  rewrite !int_IZR. lia.
Defined.

(** ** The laser beam *)

Lemma atan2_upper_half (y x : R) : 0 < y -> 0 < Py.atan2 y x < PI.
Proof.
  intros Hy. pose proof PI_RGT_0. pose proof (atan_bound (y / x)) as Hb.
  unfold Py.atan2. destruct (Rlt_dec 0 x) as [Hx | Hx].
  - assert (0 < y / x)
      by (apply Rmult_lt_0_compat; [lra | apply Rinv_0_lt_compat; lra]).
    assert (0 < atan (y / x)) by (rewrite <- atan_0; apply atan_increasing; lra).
    lra.
  - destruct (Rlt_dec x 0) as [Hx' | Hx'].
    + destruct (Rle_dec 0 y); [|lra].
      assert (y / x < 0).
      { unfold Rdiv. assert (/ x < 0) by (apply Rinv_lt_0_compat; lra). nra. }
      assert (atan (y / x) < 0)
        by (rewrite <- atan_0; apply atan_increasing; lra).
      lra.
    + destruct (Rlt_dec 0 y); lra.
Qed.

(** X20: [create] of a Laser raises exactly when the canvas has no width.
    Otherwise the laser starts at height -1, at an integer abscissa of
    [[-width, 2 * width)], and, on a canvas whose height is not negative,
    its direction lies strictly between 0 and pi: the beam points into
    the canvas. The state, the speed, the delay and the creation time are
    kept. *)
Theorem laser_create_result (g : Game) (e : LaserEnemy.t) (r : Rng) :
  ((winfo_width (canvas g) <= 0)%Z -> LaserEnemy.create g e r = None) /\
  ((0 < winfo_width (canvas g))%Z ->
   (0 <= winfo_height (canvas g))%Z ->
   exists g' e' r' x0 d,
     LaserEnemy.create g e r = Some ((g', e'), r') /\
     Enemy.x (LaserEnemy.base e') = IZR x0 /\
     (- winfo_width (canvas g) <= x0 < 2 * winfo_width (canvas g))%Z /\
     Enemy.y (LaserEnemy.base e') = -1 /\
     LaserEnemy.direction e' = Some d /\ 0 < d < PI /\
     (LaserEnemy.state e', LaserEnemy.speed e', LaserEnemy.delay e',
      Enemy.start_time (LaserEnemy.base e'))
       = (LaserEnemy.state e, LaserEnemy.speed e, LaserEnemy.delay e,
          Enemy.start_time (LaserEnemy.base e))).
Proof.
  split.
  - intros Hw. unfold LaserEnemy.create, bind.
    replace (Py.range (- winfo_width (canvas g)) (2 * winfo_width (canvas g)))
      with (@nil Z).
    + now rewrite choice_empty.
    + unfold Py.range.
      replace (Z.to_nat (2 * winfo_width (canvas g) - - winfo_width (canvas g)))
        with 0%nat by lia.
      reflexivity.
  - intros Hw Hh. unfold LaserEnemy.create, bind, ret.
    destruct (choice_succeeds
                (Py.range (- winfo_width (canvas g)) (2 * winfo_width (canvas g)))
                r) as (x0 & -> & Hx0); [apply range_nonempty; lia|].
    match goal with |- context [choice _ ?r1] =>
      destruct (choice_succeeds
                  (Py.range (- winfo_width (canvas g))
                            (2 * winfo_width (canvas g))) r1)
        as (x1 & -> & Hx1); [apply range_nonempty; lia|] end.
    cbn [create].
    eexists. eexists. eexists. exists x0. eexists.
    split; [reflexivity|].
    cbn [LaserEnemy.set_direction LaserEnemy.set_base LaserEnemy.base
         LaserEnemy.direction LaserEnemy.state LaserEnemy.speed
         LaserEnemy.delay Enemy.set_x Enemy.set_y Enemy.set_id Enemy.x Enemy.y
         Enemy.start_time].
    split; [reflexivity|]. split; [apply range_in; exact Hx0|].
    split; [reflexivity|]. split; [reflexivity|]. split; [|reflexivity].
    apply atan2_upper_half. apply (IZR_lt 0). lia.
Qed.

Lemma laser_create_result_witness :
  exists g' e' r' d,
    LaserEnemy.create game_idle laser_fresh rng_zero = Some ((g', e'), r') /\
    LaserEnemy.direction e' = Some d /\ 0 < d < PI.
Proof.
  destruct (proj2 (laser_create_result game_idle laser_fresh rng_zero))
    as (g' & e' & r' & x0 & d & Hc & _ & _ & _ & Hd & Hr & _).
  - cbn. lia.
  - cbn. lia.
  - exists g', e', r', d. auto.
Defined.

(** X21: while the time elapsed at every tick is below [speed + delay], an
    inactive Laser does nothing at all; after the tick at which that time
    is reached its state is [Active], and nothing else of it has changed.
    Up to and including its activation the game is untouched: no
    collision test, no canvas call. *)
Theorem laser_counts_down (early : list R) (now : R) (g : Game)
    (e : LaserEnemy.t) :
  LaserEnemy.state e = Inactive ->
  Forall (fun t => t - Enemy.start_time (LaserEnemy.base e)
                   < LaserEnemy.speed e + LaserEnemy.delay e) early ->
  now - Enemy.start_time (LaserEnemy.base e)
    >= LaserEnemy.speed e + LaserEnemy.delay e ->
  laser_run early g e = Some (g, e) /\
  exists e',
    laser_run (early ++ [now]) g e = Some (g, e') /\
    LaserEnemy.state e' = Active /\
    LaserEnemy.base e' = LaserEnemy.base e /\
    LaserEnemy.level e' = LaserEnemy.level e /\
    LaserEnemy.speed e' = LaserEnemy.speed e /\
    LaserEnemy.direction e' = LaserEnemy.direction e /\
    LaserEnemy.delay e' = LaserEnemy.delay e.
Proof.
  intros Hs Hall Hnow.
  induction early as [|t early IH]; cbn [laser_run app].
  - split; [reflexivity|].
    rewrite laser_update_inactive by exact Hs.
    apply geb_true in Hnow. rewrite Hnow.
    exists (LaserEnemy.set_state e Active). repeat split.
  - inversion Hall as [|? ? Ht Hrest]; subst.
    rewrite laser_update_inactive by exact Hs.
    apply geb_false in Ht. rewrite Ht. apply IH. exact Hrest.
Qed.

Lemma laser_counts_down_witness :
  exists e',
    laser_run ([1 / 10; 2 / 10] ++ [6 / 10]) game_idle laser_example
      = Some (game_idle, e') /\
    LaserEnemy.state e' = Active /\
    LaserEnemy.speed e' = 1 / 2.
Proof.
  destruct (laser_counts_down [1 / 10; 2 / 10] (6 / 10) game_idle
              laser_example)
    as (_ & e' & Hrun & Hst & _ & _ & Hsp & _).
  - reflexivity.
  - repeat constructor; cbn; lra.
  - cbn. lra.
  - exists e'. split; [exact Hrun|]. split; [exact Hst | exact Hsp].
Defined.

(** X22: a Laser that was torn down never signals again: its direction
    is -999, and no bearing is within 0.01 of that. *)
Theorem laser_spent_is_harmless (now : R) (g : Game) (e : LaserEnemy.t) :
  LaserEnemy.state e = Active ->
  LaserEnemy.direction e = Some (-999) ->
  exists g' e',
    LaserEnemy.update now g e = Some (g', e') /\
    lose_signals g' = lose_signals g /\ is_started g' = is_started g.
Proof. apply laser_torn_down_never_hits. Qed.

Lemma laser_spent_is_harmless_witness :
  exists g' e',
    LaserEnemy.update 5 game_idle laser_spent = Some (g', e') /\
    lose_signals g' = lose_signals game_idle /\
    is_started g' = is_started game_idle.
Proof.
  apply (laser_spent_is_harmless 5 game_idle laser_spent); reflexivity.
Defined.

(** ** The steps of the other enemies *)

(** X23: before its expiry, a step of a Stalk enemy points at the
    player's position and is stretched along x: the displacement lies on
    the ellipse of half-axes [2 * speed] and [speed]. *)
Theorem stalk_step_towards_player (now : R) (g : Game) (e : StalkEnemy.t) :
  (0 <= StalkEnemy.level e)%Z ->
  now - Enemy.start_time (StalkEnemy.base e)
    < IZR (3000 * Zfloor (ln (IZR (StalkEnemy.level e + 1)))) ->
  let b := StalkEnemy.base e in
  let dx := player_x (player g) - Enemy.x b in
  let dy := player_y (player g) - Enemy.y b in
  exists g' e',
    StalkEnemy.update now g e = Some (g', e') /\
    (Enemy.x (StalkEnemy.base e') - Enemy.x b) * sqrt (dx² + dy²)
      = 2 * StalkEnemy.speed e * dx /\
    (Enemy.y (StalkEnemy.base e') - Enemy.y b) * sqrt (dx² + dy²)
      = StalkEnemy.speed e * dy /\
    ((Enemy.x (StalkEnemy.base e') - Enemy.x b) / 2)²
      + (Enemy.y (StalkEnemy.base e') - Enemy.y b)²
      = (StalkEnemy.speed e)².
Proof.
  intros Hl Hearly b dx dy.
  rewrite stalk_update_cases by exact Hl. cbv zeta.
  apply geb_false in Hearly. rewrite Hearly.
  eexists. eexists. split; [reflexivity|].
  cbn [StalkEnemy.set_base StalkEnemy.base Enemy.set_x Enemy.set_y
       Enemy.x Enemy.y].
  fold b. fold dx dy.
  split; [|split].
  - destruct (Req_dec dx 0) as [Hdx | Hdx];
      [destruct (Req_dec dy 0) as [Hdy | Hdy]|].
    + rewrite Hdx, Hdy. unfold Rsqr. rewrite Rmult_0_l, Rplus_0_l, sqrt_0. ring.
    + rewrite cos_atan2 by auto. field. apply Rgt_not_eq, norm_pos; auto.
    + rewrite cos_atan2 by auto. field. apply Rgt_not_eq, norm_pos; auto.
  - destruct (Req_dec dx 0) as [Hdx | Hdx];
      [destruct (Req_dec dy 0) as [Hdy | Hdy]|].
    + rewrite Hdx, Hdy. unfold Rsqr. rewrite Rmult_0_l, Rplus_0_l, sqrt_0. ring.
    + rewrite sin_atan2 by auto. field. apply Rgt_not_eq, norm_pos; auto.
    + rewrite sin_atan2 by auto. field. apply Rgt_not_eq, norm_pos; auto.
  - pose proof (sin2_cos2 (Py.atan2 dy dx)) as Hsc. unfold Rsqr in *. nra.
Qed.

Lemma stalk_step_towards_player_witness :
  exists g' e',
    StalkEnemy.update 10 game_idle stalk_example = Some (g', e') /\
    ((Enemy.x (StalkEnemy.base e') - 300) / 2)²
      + (Enemy.y (StalkEnemy.base e') - 100)² = 1².
Proof.
  destruct (stalk_step_towards_player 10 game_idle stalk_example)
    as (g' & e' & Hu & _ & _ & He).
  - cbn. lia.
  - cbn [stalk_example StalkEnemy.level StalkEnemy.base Enemy.start_time].
    change (2 + 1)%Z with 3%Z. rewrite ln_3_floor.
    change (3000 * 1)%Z with 3000%Z. lra.
  - exists g', e'. split; [exact Hu | exact He].
Defined.

Lemma straight_update_enemy (g : Game) (e : StraightEnemy.t) :
  snd (StraightEnemy.update g e)
  = StraightEnemy.mk
      (Enemy.mk
         (Enemy.x (StraightEnemy.base e)
          + cos (IZR (StraightEnemy.direction e)) * StraightEnemy.speed e)
         (Enemy.y (StraightEnemy.base e)
          + sin (IZR (StraightEnemy.direction e)) * StraightEnemy.speed e)
         (Enemy.size (StraightEnemy.base e))
         (Enemy.color (StraightEnemy.base e))
         (Enemy.start_time (StraightEnemy.base e))
         (Enemy.id (StraightEnemy.base e)))
      (StraightEnemy.speed e) (StraightEnemy.direction e).
Proof.
  unfold StraightEnemy.update, StraightEnemy.delete.
  match goal with |- context [if ?c then _ else _] => destruct c end;
    reflexivity.
Qed.

(** X24: a Straight enemy is never stopped or sent away: whether or not
    it has left the canvas, after [n] updates it has moved [n] times its
    step, with its speed and direction unchanged. *)
Theorem straight_enemy_keeps_flying (n : nat) (g : Game)
    (e : StraightEnemy.t) :
  let e' := snd (straight_run n g e) in
  Enemy.x (StraightEnemy.base e')
    = Enemy.x (StraightEnemy.base e)
      + INR n * (cos (IZR (StraightEnemy.direction e)) * StraightEnemy.speed e) /\
  Enemy.y (StraightEnemy.base e')
    = Enemy.y (StraightEnemy.base e)
      + INR n * (sin (IZR (StraightEnemy.direction e)) * StraightEnemy.speed e) /\
  StraightEnemy.speed e' = StraightEnemy.speed e /\
  StraightEnemy.direction e' = StraightEnemy.direction e.
Proof.
  cbv zeta. induction n as [|n IH].
  - cbn [straight_run Nat.iter nat_rect snd INR].
    change (snd (straight_run 0 g e)) with e.
    repeat split; lra.
  - change (straight_run (S n) g e)
      with (StraightEnemy.update (fst (straight_run n g e))
                                 (snd (straight_run n g e))).
    rewrite straight_update_enemy.
    destruct IH as (Hx & Hy & Hs & Hd).
    cbn [StraightEnemy.base StraightEnemy.speed StraightEnemy.direction
         Enemy.x Enemy.y].
    rewrite Hx, Hy, Hs, Hd, S_INR. repeat split; ring.
Qed.

(** X25: the hit-box grows with the size: an enemy whose size is not
    positive hits nothing, and a player hit by an enemy is also hit by a
    larger enemy at the same place. *)
Theorem hits_player_by_size (g : Game) (e : Enemy.t) (s : R) :
  (Enemy.size e <= 0 -> Enemy.hits_player g e = false) /\
  (Enemy.hits_player g e = true -> Enemy.size e <= s ->
   Enemy.hits_player g
     (Enemy.mk (Enemy.x e) (Enemy.y e) s (Enemy.color e)
               (Enemy.start_time e) (Enemy.id e)) = true).
Proof.
  split.
  - intros Hs. destruct (Enemy.hits_player g e) eqn:E; [|reflexivity].
    unfold Enemy.hits_player in E. py_tests. lra.
  - intros E Hs. unfold Enemy.hits_player in *.
    cbn [Enemy.x Enemy.y Enemy.size]. py_tests; lra.
Qed.

Lemma hits_player_by_size_witness :
  Enemy.hits_player game_idle (Enemy.mk 50 250 0 "red" 0 None) = false.
Proof.
  apply (proj1 (hits_player_by_size game_idle
                  (Enemy.mk 50 250 0 "red" 0 None) 0)).
  cbn. lra.
Defined.

(** X26: Home contains its own centre exactly when its size is not
    negative; a Home of negative size contains no point at all. *)
Theorem home_contains_by_size (h : Home) (x y : R) :
  (contains h (home_x h) (home_y h) = true <-> 0 <= home_size h) /\
  (home_size h < 0 -> contains h x y = false).
Proof.
  split; [split|].
  - intros H. unfold contains in H. py_tests. lra.
  - intros H. unfold contains. py_tests; lra.
  - intros H. destruct (contains h x y) eqn:E; [|reflexivity].
    unfold contains in E. py_tests. lra.
Qed.

Lemma home_contains_by_size_witness :
  contains (mkHome 700 250 (-20)) 700 250 = false.
Proof.
  apply (proj2 (home_contains_by_size (mkHome 700 250 (-20)) 700 250)).
  cbn. lra.
Defined.

(** ** Compositions *)

Lemma fencing_move_size (g : Game) (e : FencingEnemy.t) :
  Enemy.size (FencingEnemy.base (FencingEnemy.move g e))
  = Enemy.size (FencingEnemy.base e).
Proof.
  unfold FencingEnemy.move, FencingEnemy.up, FencingEnemy.down,
    FencingEnemy.left, FencingEnemy.right.
  destruct (FencingEnemy.movement e);
    match goal with |- context [if ?c then _ else _] => destruct c end;
    reflexivity.
Qed.

(** X27: a player resting inside Home is safe from a Fencing enemy: if the
    enemy is on its fence, with a positive speed and a fence at least as
    wide as its hit-box and Home together, then no update made before its
    expiry signals game-lost or touches the game in any way. *)
Theorem fencing_enemy_never_catches_player_at_home (times : list R)
    (g : Game) (e : FencingEnemy.t) :
  on_fence g e ->
  0 < FencingEnemy.speed e ->
  0 < IZR (FencingEnemy.fence e) ->
  Enemy.size (FencingEnemy.base e) / 2 + home_size (home g) / 2
    <= IZR (FencingEnemy.fence e) ->
  contains (home g) (player_x (player g)) (player_y (player g)) = true ->
  Forall (fun now => now - Enemy.start_time (FencingEnemy.base e) < 30) times ->
  fst (fencing_run times g e) = g.
Proof.
  unfold fencing_run. revert e.
  induction times as [|now times IH]; intros e Hinv Hs Hf Hsz Hin Hall;
    cbn [fold_left fst snd]; [reflexivity|].
  inversion Hall as [|? ? Hnow Hrest]; subst.
  destruct (fencing_move_keeps g e) as (Hsp & Hfe & _).
  pose proof (fencing_move_on_fence g e Hs Hf Hinv) as Hinv'.
  assert (Hmiss : Enemy.hits_player g
                    (FencingEnemy.base (FencingEnemy.move g e)) = false).
  { apply fencing_misses_at_home; [exact Hinv' | | exact Hin].
    rewrite fencing_move_size, Hfe. exact Hsz. }
  assert (Hu : FencingEnemy.update now g e = (g, FencingEnemy.move g e)).
  { rewrite fencing_update_cases. cbv zeta. rewrite Hmiss.
    apply geb_false in Hnow. rewrite Hnow. reflexivity. }
  rewrite Hu. cbn [fst snd]. apply IH.
  - exact Hinv'.
  - rewrite Hsp. exact Hs.
  - rewrite Hfe. exact Hf.
  - rewrite fencing_move_size, Hfe. exact Hsz.
  - exact Hin.
  - rewrite fencing_move_start_time. exact Hrest.
Qed.

Lemma fencing_enemy_never_catches_player_at_home_witness :
  fst (fencing_run [1; 2; 3] game_at_home fencing_example) = game_at_home.
Proof.
  apply fencing_enemy_never_catches_player_at_home.
  - unfold on_fence. cbn. lra.
  - cbn. lra.
  - cbn. lra.
  - cbn. lra.
  - exact game_at_home_inside.
  - repeat constructor; cbn; lra.
Defined.

(** X28: [create] puts a RandomWalk enemy in its area: if it moves left
    or right on x and up or down on y, and the canvas is no higher than
    the screen, the enemy created is inside the canvas, so that the
    updates keep it within one step of it. *)
Theorem random_walk_create_in_area (g g' : Game) (e e' : RandomWalkEnemy.t)
    (r r' : Rng) :
  RandomWalkEnemy.create g e r = Some ((g', e'), r') ->
  RandomWalkEnemy.x_movement e = Left \/ RandomWalkEnemy.x_movement e = Right ->
  RandomWalkEnemy.y_movement e = Up \/ RandomWalkEnemy.y_movement e = Down ->
  0 <= RandomWalkEnemy.speed e ->
  (winfo_height (canvas g) <= screen_height g)%Z ->
  in_walk_area g' e' /\
  0 <= Enemy.x (RandomWalkEnemy.base e') < IZR (winfo_width (canvas g)) /\
  0 <= Enemy.y (RandomWalkEnemy.base e') < IZR (winfo_height (canvas g)).
Proof.
  unfold RandomWalkEnemy.create, bind, ret. cbn [create].
  intros H Hmx Hmy Hs Hh.
  destruct (Enemy.spawn_coordinate _ (player_x (player g)) r)
    as [[zx r1]|] eqn:Ex; [|discriminate].
  destruct (Enemy.spawn_coordinate _ (player_y (player g)) r1)
    as [[zy r2]|] eqn:Ey; [|discriminate].
  injection H as <- <- _.
  apply spawn_coordinate_outside in Ex. destruct Ex as (Hx & _ & _).
  apply spawn_coordinate_outside in Ey. destruct Ey as (Hy & _ & _).
  cbn [winfo_width winfo_height] in Hx, Hy.
  assert (Hx0 : 0 <= IZR zx) by (apply (IZR_le 0); lia).
  assert (Hx1 : IZR zx < IZR (winfo_width (canvas g))) by (apply IZR_lt; lia).
  assert (Hy0 : 0 <= IZR zy) by (apply (IZR_le 0); lia).
  assert (Hy1 : IZR zy < IZR (winfo_height (canvas g))) by (apply IZR_lt; lia).
  assert (Hy2 : IZR (winfo_height (canvas g)) <= IZR (screen_height g))
    by (apply IZR_le; exact Hh).
  destruct (walk_steps_nonneg e Hs) as [Hax Hay].
  split; [|split; split; assumption].
  unfold in_walk_area.
  cbn [RandomWalkEnemy.set_base RandomWalkEnemy.base
       RandomWalkEnemy.x_movement RandomWalkEnemy.y_movement
       Enemy.set_x Enemy.set_y Enemy.set_id Enemy.x Enemy.y
       set_canvas canvas winfo_width screen_height].
  replace (walk_step_x (RandomWalkEnemy.set_base e _)) with (walk_step_x e)
    by reflexivity.
  replace (walk_step_y (RandomWalkEnemy.set_base e _)) with (walk_step_y e)
    by reflexivity.
  destruct Hmx as [-> | ->]; destruct Hmy as [-> | ->]; split; lra.
Qed.

Lemma random_walk_create_in_area_witness :
  exists g' e' r',
    RandomWalkEnemy.create game_small random_walk_fresh rng_zero
      = Some ((g', e'), r') /\
    in_walk_area g' e'.
Proof.
  assert (Hc : exists g' e' r',
             RandomWalkEnemy.create game_small random_walk_fresh rng_zero
               = Some ((g', e'), r')).
  { unfold RandomWalkEnemy.create, Enemy.spawn_coordinate, bind, ret.
    cbn [create game_small canvas winfo_width winfo_height player player_x
         player_y turtle RawTurtle.xcor RawTurtle.ycor].
    replace (10 - 20) with (IZR (-10)) by lra.
    replace (10 + 20) with (IZR 30) by lra.
    rewrite !int_IZR.
    set (l := exclude _ _). vm_compute in l. subst l.
    set (c1 := choice _ rng_zero). vm_compute in c1. subst c1.
    cbv beta iota.
    set (c2 := choice _ _). vm_compute in c2. subst c2.
    cbv beta iota.
    eexists. eexists. eexists. reflexivity. }
  destruct Hc as (g' & e' & r' & Hc).
  exists g', e', r'. split; [exact Hc|].
  apply (random_walk_create_in_area _ _ _ _ _ _ Hc); cbn; auto; lra || lia.
Defined.

Lemma demo_update_enemy (g : Game) (e : DemoEnemy.t) :
  snd (DemoEnemy.update g e)
  = Enemy.mk (Enemy.x e + 1) (Enemy.y e + 1) (Enemy.size e) (Enemy.color e)
             (Enemy.start_time e) (Enemy.id e).
Proof. reflexivity. Qed.

(** X29: a Demo enemy drifts along the diagonal and never expires: after
    [n] updates it is at [(x + n, y + n)], and its canvas item was never
    removed. *)
Theorem demo_enemy_drifts (n : nat) (g : Game) (e : DemoEnemy.t) :
  Enemy.x (snd (demo_run n g e)) = Enemy.x e + INR n /\
  Enemy.y (snd (demo_run n g e)) = Enemy.y e + INR n /\
  teardowns (fst (demo_run n g e)) = teardowns g.
Proof.
  induction n as [|n IH].
  - change (demo_run 0 g e) with (g, e). cbn [fst snd INR].
    repeat split; lra.
  - change (demo_run (S n) g e)
      with (DemoEnemy.update (fst (demo_run n g e)) (snd (demo_run n g e))).
    destruct IH as (Hx & Hy & Ht).
    rewrite demo_update_enemy, demo_update_never_fires, S_INR.
    cbn [Enemy.x Enemy.y]. rewrite Hx, Hy, Ht. repeat split; ring.
Qed.
